(** * whgame_Tetris: the falling-block engine and the match rooms

    A shallow embedding of [game/tetris.js] (class [TetrisGame]), of the
    client helpers [createKeyboardHandler] and [createScoreCallback], of
    [server/socketMulti.js] (battle rooms) and of [server/socket.js] with
    the [RoomManager] (duel rooms).  The properties of the design
    document come first ([TetrisFacts], [BattleFacts], [DuelFacts]); the
    properties of the code beyond them follow: the engine between calls
    ([EngineFacts], where the design document's account of [merge] is
    settled too, since it rests on what a running game looks like) and
    the two lobbies ([DuelLobbyFacts], [BattleLobbyFacts]).

    JavaScript numbers that hold board cells, scores, ranks and indices are
    integers ([Z]); results of [Math.random()] are rationals ([Q]) and are
    passed to the function that draws them, in drawing order.  The attack
    target of the battle server is selected by comparing and subtracting
    such values: there every product and difference is rounded to the
    nearest double ([double]), as the machine does.  Callbacks
    ([onScore], [onNextPiece], ...) are modelled by the event they deliver:
    every operation returns the list of events it fired, oldest first. *)

From Stdlib Require Import ZArith QArith Qround Qpower Lia Lqa List Permutation Sorted.
From Stdlib Require Import SpecFloat.
From stdpp Require Import base option list strings gmap.

Local Open Scope Z_scope.

(** ** Outcomes of a JavaScript call *)

(** [Throw]: the source raises a TypeError (a property read on
    [undefined] or [null]).  [OffGrid]: the source would store outside the
    cells that exist (JavaScript then grows the array or attaches a stray
    property); the model stops there.  [Spin]: a loop did not end within
    the steps the model grants it. *)
Inductive outcome (A : Type) : Type :=
  | Ok (a : A)
  | Throw
  | OffGrid
  | Spin.
Arguments Ok {A} a.
Arguments Throw {A}.
Arguments OffGrid {A}.
Arguments Spin {A}.

Definition obind {A B} (m : outcome A) (k : A -> outcome B) : outcome B :=
  match m with
  | Ok a => k a
  | Throw => Throw
  | OffGrid => OffGrid
  | Spin => Spin
  end.

Notation "'do' x <- m ; k" := (obind m (fun x => k))
  (at level 10, x pattern, m at level 100, k at level 200).

(** [for (i of idxs) s = body(i, s)] with an outcome at every round. *)
Fixpoint for_each {S : Type} (body : nat -> S -> outcome S) (idxs : list nat) (s : S)
  : outcome S :=
  match idxs with
  | [] => Ok s
  | i :: rest => do s' <- body i s; for_each body rest s'
  end.

(** [a[i]] for an integer [i]: [None] is JavaScript's [undefined]. *)
Definition lookupZ {A : Type} (l : list A) (i : Z) : option A :=
  if i <? 0 then None else l !! Z.to_nat i.

(** A property read on a value that may be [null] or [undefined]. *)
Definition deref {A : Type} (o : option A) : outcome A :=
  match o with
  | Some a => Ok a
  | None => Throw
  end.

(** [a < b] on the numbers [Math.random] yields. *)
Definition Qlt_bool (a b : Q) : bool := negb (Qle_bool b a).

(** ** Double-precision numbers *)

(** The exponent [e] of a positive [x]: [2^e <= x < 2^(e+1)]. *)
Definition binade (x : Q) : Z :=
  let e := Z.log2 (Qnum x) - Z.log2 (Zpos (Qden x)) in
  if Qle_bool (2 ^ e) x then e else e - 1.

(** The integer nearest to [q], the even one of two equally near. *)
Definition rne (q : Q) : Z :=
  let f := Qfloor q in
  match (q - inject_Z f ?= 1 # 2)%Q with
  | Lt => f
  | Gt => f + 1
  | Eq => if Z.even f then f else f + 1
  end.

(** The double nearest to a positive [x]: a multiple of [2^(e-52)] with
    53 significant bits. *)
Definition nearest (x : Q) : Q :=
  let ulp := (2 ^ (binade x - 52))%Q in
  (inject_Z (rne (x / ulp)) * ulp)%Q.

(** The value a JavaScript number holds for the real [x] (IEEE 754
    binary64, round to nearest, ties to even), for the magnitudes met
    here: neither overflow nor gradual underflow. *)
Definition double (x : Q) : Q :=
  match Qnum x with
  | Z0 => 0%Q
  | Zpos _ => nearest x
  | Zneg _ => (- nearest (- x))%Q
  end.

(** The real a finite IEEE 754 number of the library stands for. *)
Definition SF2Q (f : spec_float) : Q :=
  match f with
  | S754_finite s m e => ((if s then -1 else 1) * inject_Z (Zpos m) * 2 ^ e)%Q
  | _ => 0%Q
  end.

(** A [Math.random()] value as a double sees it: at least 0 and, being a
    double below 1, at most [1 - 2^-53]. *)
Definition unit_double (r : Q) : Prop := (0 <= r)%Q /\ (r <= 1 - (1 # 2 ^ 53))%Q.

Module Tetris.

(** ** Data *)

Abbreviation matrix := (list (list Z)).

Definition COLS : Z := 10.
Definition ROWS : Z := 20.

Definition PIECES : list matrix :=
  [ [ [0; 1; 0];
      [1; 1; 1];
      [0; 0; 0] ];
    [ [2; 2];
      [2; 2] ];
    [ [0; 3; 3];
      [3; 3; 0];
      [0; 0; 0] ];
    [ [4; 4; 0];
      [0; 4; 4];
      [0; 0; 0] ];
    [ [0; 5; 0; 0];
      [0; 5; 0; 0];
      [0; 5; 0; 0];
      [0; 5; 0; 0] ];
    [ [0; 6; 0];
      [0; 6; 0];
      [6; 6; 0] ];
    [ [0; 7; 0];
      [0; 7; 0];
      [0; 7; 7] ] ].

Record position : Type := Pos { px : Z; py : Z }.

Inductive event : Type :=
  | EvScore (s : Z)
  | EvNextPiece (p : matrix)
  | EvGameOver
  | EvBoardUpdate (b : matrix)
  | EvLinesCleared (n : Z).

(** The fields of a [TetrisGame].  [piece] and [nextPiece] are [null]
    ([None]) until [reset]; a callback field holds [true] when a listener
    is registered. *)
Record game : Type := Game {
  isRemote : bool;
  board : matrix;
  score : Z;
  gameOver : bool;
  piece : option matrix;
  nextPiece : option matrix;
  pos : position;
  dropCounter : Q;
  dropInterval : Q;
  onGameOver : bool;
  onScore : bool;
  onBoardUpdate : bool;
  onNextPiece : bool;
  onLinesCleared : bool
}.

Definition set_board (b : matrix) (g : game) : game :=
  Game (isRemote g) b (score g) (gameOver g) (piece g) (nextPiece g) (pos g)
       (dropCounter g) (dropInterval g)
       (onGameOver g) (onScore g) (onBoardUpdate g) (onNextPiece g) (onLinesCleared g).

Definition set_score (s : Z) (g : game) : game :=
  Game (isRemote g) (board g) s (gameOver g) (piece g) (nextPiece g) (pos g)
       (dropCounter g) (dropInterval g)
       (onGameOver g) (onScore g) (onBoardUpdate g) (onNextPiece g) (onLinesCleared g).

Definition set_gameOver (f : bool) (g : game) : game :=
  Game (isRemote g) (board g) (score g) f (piece g) (nextPiece g) (pos g)
       (dropCounter g) (dropInterval g)
       (onGameOver g) (onScore g) (onBoardUpdate g) (onNextPiece g) (onLinesCleared g).

Definition set_piece (p : option matrix) (g : game) : game :=
  Game (isRemote g) (board g) (score g) (gameOver g) p (nextPiece g) (pos g)
       (dropCounter g) (dropInterval g)
       (onGameOver g) (onScore g) (onBoardUpdate g) (onNextPiece g) (onLinesCleared g).

Definition set_nextPiece (p : option matrix) (g : game) : game :=
  Game (isRemote g) (board g) (score g) (gameOver g) (piece g) p (pos g)
       (dropCounter g) (dropInterval g)
       (onGameOver g) (onScore g) (onBoardUpdate g) (onNextPiece g) (onLinesCleared g).

Definition set_pos (p : position) (g : game) : game :=
  Game (isRemote g) (board g) (score g) (gameOver g) (piece g) (nextPiece g) p
       (dropCounter g) (dropInterval g)
       (onGameOver g) (onScore g) (onBoardUpdate g) (onNextPiece g) (onLinesCleared g).

Definition set_dropCounter (c : Q) (g : game) : game :=
  Game (isRemote g) (board g) (score g) (gameOver g) (piece g) (nextPiece g) (pos g)
       c (dropInterval g)
       (onGameOver g) (onScore g) (onBoardUpdate g) (onNextPiece g) (onLinesCleared g).

Definition set_dropInterval (c : Q) (g : game) : game :=
  Game (isRemote g) (board g) (score g) (gameOver g) (piece g) (nextPiece g) (pos g)
       (dropCounter g) c
       (onGameOver g) (onScore g) (onBoardUpdate g) (onNextPiece g) (onLinesCleared g).

(** [if (this.onX) this.onX(v)] *)
Definition fire (listener : bool) (e : event) : list event :=
  if listener then [e] else [].

(** ** createBoard, constructor *)

Definition createBoard : matrix :=
  replicate (Z.to_nat ROWS) (replicate (Z.to_nat COLS) 0).

(** [new TetrisGame(canvas, isRemote)].  The class declares two
    parameters; a third argument (the callers pass a seed) is bound to no
    name and read nowhere. *)
Definition TetrisGame (is_remote : bool) (seed : Z) : game :=
  {| isRemote := is_remote;
     board := createBoard;
     score := 0;
     gameOver := false;
     piece := None;
     nextPiece := None;
     pos := Pos 0 0;
     dropCounter := 0%Q;
     dropInterval := 1000%Q;
     onGameOver := false;
     onScore := false;
     onBoardUpdate := false;
     onNextPiece := false;
     onLinesCleared := false |}.

(** ** randomPiece *)

(** [r] is the value [Math.random()] returns.  [PIECES[id]] outside the
    table is [undefined], whose [.map] raises. *)
Definition randomPiece (r : Q) : outcome matrix :=
  let id := Qfloor (r * inject_Z (Z.of_nat (length PIECES))) in
  match lookupZ PIECES id with
  | Some m => Ok (map (fun row => row) m)
  | None => Throw
  end.

(** ** collide *)

(** [(board[r] && board[r][c])]: [undefined] when the row or the cell is
    missing (a row, being an array, is always truthy). *)
Definition cell (b : matrix) (r c : Z) : option Z :=
  match lookupZ b r with
  | Some row => lookupZ row c
  | None => None
  end.

Definition blocked (b : matrix) (r c : Z) : bool :=
  match cell b r c with
  | Some v => negb (v =? 0)
  | None => true
  end.

Fixpoint collide_row (b : matrix) (off : position) (y x : Z) (row : list Z) : bool :=
  match row with
  | [] => false
  | v :: row' =>
      (negb (v =? 0) && blocked b (y + py off) (x + px off))
      || collide_row b off y (x + 1) row'
  end.

Fixpoint collide_rows (b : matrix) (off : position) (y : Z) (p : matrix) : bool :=
  match p with
  | [] => false
  | row :: p' => collide_row b off y 0 row || collide_rows b off (y + 1) p'
  end.

Definition collide (b : matrix) (p : matrix) (off : position) : bool :=
  collide_rows b off 0 p.

(** ** merge *)

(** [board[r][c] = v] *)
Definition write (b : matrix) (r c v : Z) : outcome matrix :=
  match lookupZ b r with
  | None => Throw
  | Some row =>
      if (0 <=? c) && (c <? Z.of_nat (length row))
      then Ok (<[Z.to_nat r := <[Z.to_nat c := v]> row]> b)
      else OffGrid
  end.

Fixpoint merge_row (b : matrix) (off : position) (y x : Z) (row : list Z)
  : outcome matrix :=
  match row with
  | [] => Ok b
  | v :: row' =>
      do b' <- (if v =? 0 then Ok b else write b (y + py off) (x + px off) v);
      merge_row b' off y (x + 1) row'
  end.

Fixpoint merge_rows (b : matrix) (off : position) (y : Z) (p : matrix)
  : outcome matrix :=
  match p with
  | [] => Ok b
  | row :: p' =>
      do b' <- merge_row b off y 0 row;
      merge_rows b' off (y + 1) p'
  end.

Definition merge (b : matrix) (p : matrix) (off : position) : outcome matrix :=
  merge_rows b off 0 p.

(** ** _rotateMatrix *)

Definition at2 (m : matrix) (r c : nat) : option Z :=
  match m !! r with
  | Some row => row !! c
  | None => None
  end.

Definition set2 (m : matrix) (r c : nat) (v : Z) : matrix :=
  alter (fun row => <[c := v]> row) r m.

(** [[m[x][y], m[y][x]] = [m[y][x], m[x][y]]].  Where a cell is missing
    the source reads [undefined] and stores it past the end of a row. *)
Definition swap_cells (m : matrix) (x y : nat) : outcome matrix :=
  match at2 m y x, at2 m x y with
  | Some b, Some a => Ok (set2 (set2 m x y b) y x a)
  | _, _ => OffGrid
  end.

Definition transpose_in_place (m : matrix) : outcome matrix :=
  for_each (fun y m1 => for_each (fun x m2 => swap_cells m2 x y) (seq 0 y) m1)
           (seq 0 (length m)) m.

Definition _rotateMatrix (m : matrix) (dir : Z) : outcome matrix :=
  do t <- transpose_in_place m;
  Ok (if 0 <? dir then map (@reverse Z) t else reverse t).

(** ** arenaSweep *)

(** [fill(0)] on a row. *)
Definition blank (row : list Z) : list Z := replicate (length row) 0.

(** No cell of the row is [=== 0]: the inner loop runs to its end. *)
Definition row_full (row : list Z) : bool :=
  forallb (fun v => negb (v =? 0)) row.

(** One evaluation of the loop test [y > 0] per unit of [fuel].  A full
    row is spliced out, zero-filled and unshifted; [++y] then [--y] leave
    the index where it was.  A row with a zero cell takes [continue outer],
    which runs [--y]. *)
Fixpoint sweep_loop (fuel : nat) (b : matrix) (y : Z) (rowCount : Z)
  : outcome (matrix * Z) :=
  match fuel with
  | O => Spin
  | S fuel' =>
      if 0 <? y then
        match lookupZ b y with
        | None => Throw
        | Some row =>
            if row_full row
            then sweep_loop fuel' (blank row :: delete (Z.to_nat y) b)
                            (y + 1 - 1) (rowCount + 1)
            else sweep_loop fuel' b (y - 1) rowCount
        end
      else Ok (b, rowCount)
  end.

Definition sweep_fuel (b : matrix) : nat := (2 * length b + 1)%nat.

Definition sweep (b : matrix) : outcome (matrix * Z) :=
  sweep_loop (sweep_fuel b) b (Z.of_nat (length b) - 1) 0.

Definition arenaSweep (g : game) : outcome (game * list event) :=
  do (b, rowCount) <- sweep (board g);
  let g1 := set_board b g in
  if 0 <? rowCount then
    let oldScore := score g1 in
    let g2 := set_score (score g1 + rowCount * 10) g1 in
    let attackLines := score g2 / 100 - oldScore / 100 in
    Ok (g2, fire (onScore g2) (EvScore (score g2))
            ++ (if 0 <? attackLines
                then fire (onLinesCleared g2) (EvLinesCleared attackLines)
                else []))
  else Ok (g1, []).

(** ** reset, drop, move *)

Definition spawn : position := Pos 3 0.

(** [r1], [r2]: the two draws, [nextPiece] first. *)
Definition reset (r1 r2 : Q) (g : game) : outcome (game * list event) :=
  let g := set_board createBoard g in
  let g := set_score 0 g in
  let g := set_gameOver false g in
  let g := set_dropInterval 1000%Q g in
  let g := set_dropCounter 0%Q g in
  do n <- randomPiece r1;
  let g := set_nextPiece (Some n) g in
  do p <- randomPiece r2;
  let g := set_piece (Some p) g in
  let g := set_pos spawn g in
  Ok (g, fire (onScore g) (EvScore 0) ++ fire (onNextPiece g) (EvNextPiece n)).

(** [r]: the draw [randomPiece] makes if the piece locks. *)
Definition drop (r : Q) (g : game) : outcome (game * list event) :=
  let g := set_pos (Pos (px (pos g)) (py (pos g) + 1)) g in
  do p <- deref (piece g);
  do (g, evs) <-
    (if collide (board g) p (pos g) then
       let g := set_pos (Pos (px (pos g)) (py (pos g) - 1)) g in
       do b <- merge (board g) p (pos g);
       let g := set_board b g in
       do (g, evs_sweep) <- arenaSweep g;
       let g := set_piece (nextPiece g) g in
       do n <- randomPiece r;
       let g := set_nextPiece (Some n) g in
       let evs_next := fire (onNextPiece g) (EvNextPiece n) in
       let g := set_pos spawn g in
       do p' <- deref (piece g);
       let '(g, evs_over) :=
         if collide (board g) p' (pos g)
         then (set_gameOver true g, fire (onGameOver g) EvGameOver)
         else (g, []) in
       Ok (g, evs_sweep ++ evs_next ++ evs_over
              ++ fire (onBoardUpdate g) (EvBoardUpdate (board g)))
     else Ok (g, []));
  Ok (set_dropCounter 0%Q g, evs).

Definition move (dir : Z) (g : game) : outcome game :=
  let g := set_pos (Pos (px (pos g) + dir) (py (pos g))) g in
  do p <- deref (piece g);
  if collide (board g) p (pos g)
  then Ok (set_pos (Pos (px (pos g) - dir) (py (pos g))) g)
  else Ok g.

(** ** rotate *)

(** [this.piece[0].length] *)
Definition width (p : matrix) : outcome Z :=
  match p with
  | row :: _ => Ok (Z.of_nat (length row))
  | [] => Throw
  end.

(** The wall-kick loop, one evaluation of its test per unit of [fuel];
    [x0] is the saved column, [p] the rotated matrix. *)
Fixpoint kick (fuel : nat) (dir : Z) (x0 : Z) (p : matrix) (offset : Z) (g : game)
  : outcome game :=
  match fuel with
  | O => Spin
  | S fuel' =>
      if collide (board g) p (pos g) then
        let g := set_pos (Pos (px (pos g) + offset) (py (pos g))) g in
        let offset := - (offset + (if 0 <? offset then 1 else -1)) in
        do w <- width p;
        if w <? offset then
          do p0 <- _rotateMatrix p (- dir);
          Ok (set_pos (Pos x0 (py (pos g))) (set_piece (Some p0) g))
        else kick fuel' dir x0 p offset g
      else Ok g
  end.

Definition kick_fuel (p : matrix) : nat := (length (hd [] p) + 2)%nat.

Definition rotate (dir : Z) (g : game) : outcome game :=
  let x0 := px (pos g) in
  do p0 <- deref (piece g);
  do p <- _rotateMatrix p0 dir;
  kick (kick_fuel p) dir x0 p 1 (set_piece (Some p) g).

(** ** createScoreCallback (gameManager.js) *)

Inductive ui_effect : Type :=
  | ShowScore (s : Z)
  | SendScore (s : Z)
  | SendGarbage (n : Z).

(** One call of the callback [createScoreCallback] returns, with the
    [lastSentScore] it closes over passed in and handed back;
    [emitAction] tells whether an emitter was given. *)
Definition scoreCallback (emitAction : bool) (attackThreshold : Z)
    (lastSentScore : Z) (s : Z) : Z * list ui_effect :=
  let attacks := s / attackThreshold - lastSentScore / attackThreshold in
  (s,
   [ShowScore s]
   ++ (if emitAction then [SendScore s] else [])
   ++ (if emitAction && (0 <? attackThreshold) && (0 <? attacks)
       then [SendGarbage attacks] else [])).

(** ** Shapes and runs the properties speak about *)

(** An [n] by [n] matrix: what every entry of [PIECES] is. *)
Definition square (n : nat) (m : matrix) : Prop :=
  length m = n /\ Forall (fun row => length row = n) m.

(** The cell [(r, c)] exists on the board. *)
Definition in_bounds (b : matrix) (r c : Z) : Prop :=
  exists row, lookupZ b r = Some row /\ 0 <= c < Z.of_nat (length row).

(** The [n] by [n] matrix whose cell [(i, j)] is [f i j]. *)
Definition tab (n : nat) (f : nat -> nat -> Z) : matrix :=
  map (fun i => map (fun j => f i j) (seq 0 n)) (seq 0 n).

(** The cell [(i, j)] of [m], 0 where there is none. *)
Definition get (m : matrix) (i j : nat) : Z :=
  match at2 m i j with
  | Some v => v
  | None => 0
  end.

(** Where the wall-kick loop stands when it tests [collide] with
    [offset = o] and the piece in column [x]: [n] is the width of the
    piece and [x0] the column it started from. *)
Definition kick_inv (n : nat) (x0 o x : Z) : Prop :=
  (0 < o /\ o <= Z.of_nat n /\ 2 * (x0 - x) = o - 1)
  \/ (o < 0 /\ - o - 1 <= Z.of_nat n /\ 2 * (x - x0) = - o).

(** [dir] applied [n] times to [m]. *)
Fixpoint rotate_times (n : nat) (dir : Z) (m : matrix) : outcome matrix :=
  match n with
  | O => Ok m
  | S n' => do m' <- _rotateMatrix m dir; rotate_times n' dir m'
  end.

(** [new TetrisGame(canvas, false, seed)] followed by [start()]'s
    [reset()]: the two shapes drawn, in drawing order. *)
Definition first_pieces (seed : Z) (r1 r2 : Q) : outcome (option matrix * option matrix) :=
  do (g, _) <- reset r1 r2 (TetrisGame false seed);
  Ok (nextPiece g, piece g).

(** The sweep told by rows: every full row below row 0 goes, a blank row
    entering at the top for each; row 0 goes only if it is full and some
    row below it went (it has then slid down to an index the scan
    visits).  The count is the number of rows that went. *)
Definition sweep_result (b : matrix) : matrix * Z :=
  match b with
  | [] => ([], 0)
  | top :: rest =>
      let gone := List.filter row_full rest in
      let kept := List.filter (fun row => negb (row_full row)) rest in
      if negb (length gone =? 0)%nat && row_full top
      then (blank top :: map blank gone ++ kept, Z.of_nat (length gone) + 1)
      else (map blank gone ++ top :: kept, Z.of_nat (length gone))
  end.

(** A board whose only occupied row is row 0, which is full. *)
Definition top_row_full : matrix :=
  replicate 10 1 :: replicate 19 (replicate 10 0).

(** A column of locked cells under the spawn area, reaching row 2. *)
Definition stacked_board : matrix :=
  replicate 2 (replicate 10 0) ++ replicate 18 [0; 0; 0; 0; 1; 0; 0; 0; 0; 0].

(** An O piece resting on that column, a T piece queued, every listener
    registered. *)
Definition about_to_top_out : game :=
  {| isRemote := false;
     board := stacked_board;
     score := 0;
     gameOver := false;
     piece := Some [[2; 2]; [2; 2]];
     nextPiece := Some [[0; 1; 0]; [1; 1; 1]; [0; 0; 0]];
     pos := Pos 3 0;
     dropCounter := 0%Q;
     dropInterval := 1000%Q;
     onGameOver := true;
     onScore := true;
     onBoardUpdate := true;
     onNextPiece := true;
     onLinesCleared := true |}.

(** [stacked_board] once the O piece has locked on top of the column. *)
Definition board_after_top_out : matrix :=
  replicate 2 [0; 0; 0; 2; 2; 0; 0; 0; 0; 0] ++ replicate 18 [0; 0; 0; 0; 1; 0; 0; 0; 0; 0].

(** [about_to_top_out] after one [drop]: the O piece locked, the T piece
    spawned into it. *)
Definition topped_out : game :=
  {| isRemote := false;
     board := board_after_top_out;
     score := 0;
     gameOver := true;
     piece := Some [[0; 1; 0]; [1; 1; 1]; [0; 0; 0]];
     nextPiece := Some [[0; 1; 0]; [1; 1; 1]; [0; 0; 0]];
     pos := Pos 3 0;
     dropCounter := 0%Q;
     dropInterval := 1000%Q;
     onGameOver := true;
     onScore := true;
     onBoardUpdate := true;
     onNextPiece := true;
     onLinesCleared := true |}.

(** A stack that reaches row 2 with a well in column 3, and a row above
    it that two more cells would fill. *)
Definition stack_with_well : matrix :=
  [replicate 10 0; [1; 1; 1; 0; 0; 1; 1; 1; 1; 1]] ++ replicate 18 [1; 1; 1; 0; 1; 1; 1; 1; 1; 1].
(** An O piece about to fill that row, with the score at 95: the lock
    clears a row, crosses a hundred and leaves no room for the T piece. *)
Definition clearing_lock : game :=
  {| isRemote := false;
     board := stack_with_well;
     score := 95;
     gameOver := false;
     piece := Some [[2; 2]; [2; 2]];
     nextPiece := Some [[0; 1; 0]; [1; 1; 1]; [0; 0; 0]];
     pos := Pos 3 0;
     dropCounter := 0%Q;
     dropInterval := 1000%Q;
     onGameOver := true;
     onScore := true;
     onBoardUpdate := true;
     onNextPiece := true;
     onLinesCleared := true |}.
(** [stack_with_well] once the O piece has locked and the row is gone. *)
Definition board_after_clearing_lock : matrix :=
  [replicate 10 0; [0; 0; 0; 2; 2; 0; 0; 0; 0; 0]]
  ++ replicate 18 [1; 1; 1; 0; 1; 1; 1; 1; 1; 1].

(** A board with one full row at the bottom; the score stands at 95. *)
Definition bottom_row_full : matrix :=
  replicate 19 (replicate 10 0) ++ [replicate 10 8].

Definition before_clear : game :=
  {| isRemote := false;
     board := bottom_row_full;
     score := 95;
     gameOver := false;
     piece := Some [[2; 2]; [2; 2]];
     nextPiece := Some [[0; 1; 0]; [1; 1; 1]; [0; 0; 0]];
     pos := Pos 3 0;
     dropCounter := 0%Q;
     dropInterval := 1000%Q;
     onGameOver := true;
     onScore := true;
     onBoardUpdate := true;
     onNextPiece := true;
     onLinesCleared := true |}.

(** Four full rows at the bottom; the score stands at 180. *)
Definition before_tetris : game :=
  {| isRemote := false;
     board := replicate 16 (replicate 10 0) ++ replicate 4 (replicate 10 8);
     score := 180;
     gameOver := false;
     piece := Some [[2; 2]; [2; 2]];
     nextPiece := Some [[0; 1; 0]; [1; 1; 1]; [0; 0; 0]];
     pos := Pos 3 0;
     dropCounter := 0%Q;
     dropInterval := 1000%Q;
     onGameOver := true;
     onScore := true;
     onBoardUpdate := true;
     onNextPiece := true;
     onLinesCleared := true |}.

(** The events of a call, none if it did not return. *)
Definition events_of {A : Type} (o : outcome (A * list event)) : list event :=
  match o with
  | Ok (_, evs) => evs
  | _ => []
  end.

(** The scores handed to [onScore], in order. *)
Definition score_updates (evs : list event) : list Z :=
  flat_map (fun e => match e with EvScore s => [s] | _ => [] end) evs.

(** The units handed to [onLinesCleared], added up. *)
Definition attack_units (evs : list event) : Z :=
  fold_right Z.add 0
    (flat_map (fun e => match e with EvLinesCleared n => [n] | _ => [] end) evs).

(** An event only the sweep fires. *)
Definition sweep_event (e : event) : Prop :=
  match e with
  | EvScore _ | EvLinesCleared _ => True
  | _ => False
  end.

(** The order the design document gives for a locking [drop]:
    next-piece, then board, then game-over if there is one. *)
Definition documented_order (evs : list event) : Prop :=
  exists n b, evs = [EvNextPiece n; EvBoardUpdate b]
           \/ evs = [EvNextPiece n; EvBoardUpdate b; EvGameOver].

(** ** hardDrop *)

(** The loop of [hardDrop], one evaluation of its test per unit of
    [fuel]: the piece goes down a row, and the score up by 2, as long as
    the place one row below is free. *)
Fixpoint fall (fuel : nat) (g : game) : outcome game :=
  match fuel with
  | O => Spin
  | S fuel' =>
      do p <- deref (piece g);
      if collide (board g) p (Pos (px (pos g)) (py (pos g) + 1))
      then Ok g
      else fall fuel' (set_score (score g + 2)
                         (set_pos (Pos (px (pos g)) (py (pos g) + 1)) g))
  end.

Definition fall_fuel (g : game) : nat :=
  (Z.to_nat (Z.of_nat (length (board g)) - py (pos g)) + 1)%nat.

Definition hardDrop (r : Q) (g : game) : outcome (game * list event) :=
  do g1 <- fall (fall_fuel g) g;
  drop r g1.

(** ** addGarbage, setBoardState *)

(** [Array(COLS).fill(8)] with [row[hole] = 0]; [r] is the draw. *)
Definition garbage_row (r : Q) : outcome (list Z) :=
  let hole := Qfloor (r * inject_Z COLS) in
  if (0 <=? hole) && (hole <? COLS)
  then Ok (<[Z.to_nat hole := 0]> (replicate (Z.to_nat COLS) 8))
  else OffGrid.

(** [n] rounds of the loop, the round [i] taking the draw [draws i]:
    [board.shift()] then [board.push(row)]. *)
Fixpoint garbage_loop (n : nat) (i : nat) (draws : nat -> Q) (b : matrix)
  : outcome matrix :=
  match n with
  | O => Ok b
  | S n' =>
      do row <- garbage_row (draws i);
      garbage_loop n' (S i) draws (tail b ++ [row])
  end.

Definition addGarbage (lines : Z) (draws : nat -> Q) (g : game) : outcome game :=
  do b <- garbage_loop (Z.to_nat lines) 0 draws (board g);
  Ok (set_board b g).

Definition setBoardState (b : matrix) (g : game) : game := set_board b g.

(** ** loop, start *)

(** A game with the [lastTime] field of its animation loop. *)
Record session : Type := Session { the_game : game; lastTime : Q }.

(** One call of [loop(time)]; [r] is the draw of the drop it may make.
    The flag tells whether the next frame was requested. *)
Definition loop (time : Q) (r : Q) (s : session)
  : outcome (session * list event * bool) :=
  let g := the_game s in
  if gameOver g then Ok (s, [], false)
  else
    let deltaTime := (time - lastTime s)%Q in
    let g := set_dropCounter (dropCounter g + deltaTime)%Q g in
    do (g, evs) <-
      (if Qlt_bool (dropInterval g) (dropCounter g) then drop r g else Ok (g, []));
    Ok (Session g time, evs, true).

(** [start()]: [r1], [r2] are the draws of [reset], [r3] the one of the
    first frame. *)
Definition start (r1 r2 r3 : Q) (s : session)
  : outcome (session * list event * bool) :=
  if isRemote (the_game s) then Ok (s, [], false)
  else
    do (g, evs) <- reset r1 r2 (the_game s);
    do (s', evs', again) <- loop 0 r3 (Session g (lastTime s));
    Ok (s', evs ++ evs', again).

(** ** createKeyboardHandler (keyboardHandler.js) *)

(** The handler on a key of code [code]; [og] is what [getGame()]
    returns ([None] for [null]) and [ignore] what the [shouldIgnore]
    option answers ([false] when the option is absent). *)
Definition keydown (code : string) (ignore : bool) (r : Q) (og : option game)
  : outcome (option game * list event) :=
  match og with
  | None => Ok (None, [])
  | Some g =>
      if gameOver g then Ok (Some g, [])
      else if ignore then Ok (Some g, [])
      else if String.eqb code "KeyA" || String.eqb code "ArrowLeft" then
        do g' <- move (-1) g; Ok (Some g', [])
      else if String.eqb code "KeyD" || String.eqb code "ArrowRight" then
        do g' <- move 1 g; Ok (Some g', [])
      else if String.eqb code "KeyS" || String.eqb code "ArrowDown" then
        do (g', evs) <- drop r g; Ok (Some g', evs)
      else if String.eqb code "KeyW" || String.eqb code "ArrowUp" then
        do g' <- rotate 1 g; Ok (Some g', [])
      else if String.eqb code "Space" then
        do (g', evs) <- hardDrop r g; Ok (Some g', evs)
      else Ok (Some g, [])
  end.

(** ** What reaches a local game *)

(** A key, an animation frame, or garbage from the opponent (the
    [game_action] listener of main.js calls [addGarbage] as it comes). *)
Inductive input : Type :=
  | KeyDown (code : string) (ignore : bool) (r : Q)
  | Frame (time : Q) (r : Q)
  | Garbage (lines : Z) (draws : nat -> Q).

Definition step (i : input) (s : session) : outcome (session * list event) :=
  match i with
  | KeyDown code ignore r =>
      do (og, evs) <- keydown code ignore r (Some (the_game s));
      do g <- deref og;
      Ok (Session g (lastTime s), evs)
  | Frame time r =>
      do (s', evs, _) <- loop time r s;
      Ok (s', evs)
  | Garbage lines draws =>
      do g <- addGarbage lines draws (the_game s);
      Ok (Session g (lastTime s), [])
  end.

Fixpoint run (inputs : list input) (s : session) : outcome (session * list event) :=
  match inputs with
  | [] => Ok (s, [])
  | i :: rest =>
      do (s1, evs1) <- step i s;
      do (s2, evs2) <- run rest s1;
      Ok (s2, evs1 ++ evs2)
  end.

(** The draws of an input are values of [Math.random]: in [0, 1). *)
Definition unit_draw (r : Q) : Prop := (0 <= r)%Q /\ (r < 1)%Q.

Definition proper (i : input) : Prop :=
  match i with
  | KeyDown _ _ r => unit_draw r
  | Frame _ r => unit_draw r
  | Garbage _ draws => forall k, unit_draw (draws k)
  end.

(** ** Boards and pieces of a running game *)

(** A board of [ROWS] rows of [COLS] cells. *)
Definition grid (b : matrix) : Prop :=
  length b = Z.to_nat ROWS /\ Forall (fun row => length row = Z.to_nat COLS) b.

(** Every nonzero cell of the piece lies on a cell of the board. *)
Definition fits (b : matrix) (p : matrix) (off : position) : Prop :=
  forall j i row v,
    p !! j = Some row -> row !! i = Some v -> v <> 0 ->
    in_bounds b (Z.of_nat j + py off) (Z.of_nat i + px off).

(** A quarter turn clockwise, the matrix itself where the turn has no
    result. *)
Definition turn (p : matrix) : matrix :=
  match _rotateMatrix p 1 with
  | Ok m => m
  | _ => p
  end.

(** The shapes of the table in their four orientations. *)
Definition orientations : list matrix :=
  flat_map (fun p => [p; turn p; turn (turn p); turn (turn (turn p))]) PIECES.

(** The piece has a nonzero cell. *)
Definition has_cell (p : matrix) : bool :=
  existsb (existsb (fun v => negb (v =? 0))) p.

(** What holds of each of the 28 matrices: square of side 1 to 4, with a
    nonzero cell, and turned into one of the 28 by either quarter turn. *)
Definition orientation_ok (p : matrix) : Prop :=
  square (length p) p /\ (1 <= length p <= 4)%nat /\ has_cell p = true
  /\ (exists m, _rotateMatrix p 1 = Ok m /\ In m orientations)
  /\ (exists m, _rotateMatrix p (-1) = Ok m /\ In m orientations).

(** What a game between two calls looks like once [reset] has run. *)
Definition ready (g : game) : Prop :=
  grid (board g)
  /\ exists p q,
       piece g = Some p /\ In p orientations
       /\ nextPiece g = Some q /\ In q PIECES
       /\ fits (board g) p (pos g).

(** ** Runs of the score callback *)

(** The callback called with the scores of [scores] one after another,
    from [lastSentScore]: the last score sent and all the effects. *)
Fixpoint feed_scores (emitAction : bool) (attackThreshold : Z) (lastSentScore : Z)
    (scores : list Z) : Z * list ui_effect :=
  match scores with
  | [] => (lastSentScore, [])
  | s :: rest =>
      let '(l1, e1) := scoreCallback emitAction attackThreshold lastSentScore s in
      let '(l2, e2) := feed_scores emitAction attackThreshold l1 rest in
      (l2, e1 ++ e2)
  end.

(** The garbage lines the effects send, all together. *)
Definition garbage_sent (effs : list ui_effect) : Z :=
  fold_right (fun e acc => match e with SendGarbage n => n + acc | _ => acc end) 0 effs.

(** ** States of a running game *)

(** Unless the game is over, the active piece overlaps no filled cell
    and no edge. *)
Definition clear (g : game) : Prop :=
  gameOver g = false ->
  forall p, piece g = Some p -> collide (board g) p (pos g) = false.

(** Keys and frames, as opposed to garbage from the opponent. *)
Definition local (i : input) : bool :=
  match i with
  | Garbage _ _ => false
  | _ => true
  end.

(** A row of garbage: 8 in every column but [h], 0 there. *)
Definition one_hole (row : list Z) : Prop :=
  exists h : nat, (h < Z.to_nat COLS)%nat
    /\ row = <[h := 0]> (replicate (Z.to_nat COLS) 8).

(** The rows [addGarbage] pushes in [n] rounds, the round [k] with its
    hole where the draw [draws k] puts it. *)
Definition garbage_rows (draws : nat -> Q) (n : nat) : matrix :=
  map (fun k => <[Z.to_nat (Qfloor (draws k * inject_Z COLS)) := 0]>
                  (replicate (Z.to_nat COLS) 8))
      (seq 0 n).

(** A local game just started: [reset] with the draws 1/2 and 1/7. *)
Definition opening : session :=
  match reset (1 # 2) (1 # 7) (TetrisGame false 0) with
  | Ok (g, _) => Session g 0
  | _ => Session (TetrisGame false 0) 0
  end.

(** Eighteen soft drops, which take the first piece to the floor, and
    then one line of garbage from the opponent. *)
Definition soft_drops : list input := replicate 18 (KeyDown "ArrowDown" false 0).

Definition soft_drops_then_garbage : list input :=
  soft_drops ++ [Garbage 1 (fun _ => 0%Q)].

End Tetris.

(** ** Battle rooms (socketMulti.js) *)

Module Battle.

Inductive status : Type := waiting | playing | finished.

Definition status_eqb (a b : status) : bool :=
  match a, b with
  | waiting, waiting | playing, playing | finished, finished => true
  | _, _ => false
  end.

(** [rank]: [None] is [null].  [board] is the snapshot the client
    reported, [None] while [null]. *)
Record player : Type := Player {
  userId : Z;
  username : string;
  score : Z;
  alive : bool;
  rank : option Z;
  board : option (list (list Z))
}.

(** [players] is the object keyed by socket id; its entries are kept in
    key order, which for socket ids is insertion order. *)
Record room : Type := Room {
  id : string;
  hostSocketId : string;
  maxPlayers : Z;
  players : list (string * player);
  status_of : status;
  alivePlayers : Z;
  seed : option Z
}.

Definition set_players (ps : list (string * player)) (r : room) : room :=
  Room (id r) (hostSocketId r) (maxPlayers r) ps (status_of r) (alivePlayers r) (seed r).
Definition set_status (s : status) (r : room) : room :=
  Room (id r) (hostSocketId r) (maxPlayers r) (players r) s (alivePlayers r) (seed r).
Definition set_alivePlayers (n : Z) (r : room) : room :=
  Room (id r) (hostSocketId r) (maxPlayers r) (players r) (status_of r) n (seed r).
Definition set_seed (s : option Z) (r : room) : room :=
  Room (id r) (hostSocketId r) (maxPlayers r) (players r) (status_of r) (alivePlayers r) s.

(** [room.players[sid]] *)
Fixpoint get_player (ps : list (string * player)) (sid : string) : option player :=
  match ps with
  | [] => None
  | (k, p) :: ps' => if String.eqb k sid then Some p else get_player ps' sid
  end.

(** [room.players[sid]] used as a condition. *)
Definition has_player (ps : list (string * player)) (sid : string) : bool :=
  match get_player ps sid with
  | Some _ => true
  | None => false
  end.

(** A store through the reference [room.players[sid]]. *)
Definition update_player (f : player -> player) (sid : string)
    (ps : list (string * player)) : list (string * player) :=
  map (fun kp => if String.eqb (fst kp) sid then (fst kp, f (snd kp)) else kp) ps.

Record player_view : Type := PlayerView {
  pv_socketId : string;
  pv_username : string;
  pv_score : Z;
  pv_alive : bool;
  pv_rank : option Z;
  pv_isHost : bool
}.

Record ranking : Type := Ranking {
  rk_socketId : string;
  rk_username : string;
  rk_rank : option Z;
  rk_score : Z
}.

Record room_summary : Type := RoomSummary {
  rs_id : string;
  rs_maxPlayers : Z;
  rs_playerCount : Z;
  rs_status : status;
  rs_hostName : option string
}.

Inductive action : Type :=
  | ABoard (value : option (list (list Z)))
  | AScore (value : Z)
  | AGarbage (value : Z)
  | AGameOver
  | AOther.

Inductive reason : Type := because_game_over | because_left.

Inductive audience : Type :=
  | ToSocket (sid : string)
  | ToRoom (roomId : string)
  | ToOthers (roomId : string) (sender : string)
  | ToLobby.

(** What is emitted.  The two system chat lines are kept by what they
    are rendered from. *)
Inductive payload : Type :=
  | room_error_not_waiting
  | room_error_too_few
  | multi_game_ready (seed : Z) (ps : list player_view)
  | chat_game_started
  | multi_room_list (rooms : list room_summary)
  | multi_game_action (socketId : string) (data : action)
  | multi_receive_garbage (fromSocketId fromUsername : string) (lines : Z)
  | multi_attack_event (from to : string) (lines : Z)
  | multi_player_eliminated (socketId uname : string) (rk : option Z) (why : reason)
  | multi_game_finished (rankings : list ranking)
  | chat_final_rankings (rankings : list ranking).

Definition emission : Type := (audience * payload)%type.

(** *** selectAttackTarget *)

Definition targets_of (r : room) (attackerSocketId : string) : list (string * player) :=
  List.filter (fun kp => negb (String.eqb (fst kp) attackerSocketId) && alive (snd kp))
              (players r).

(** The loop [for (const [id, p] of targets)]: [None] when it runs off
    the end of the list.  [rand -= p.score + 1] leaves a double. *)
Fixpoint weighted_walk (targets : list (string * player)) (rand : Q) : option string :=
  match targets with
  | [] => None
  | (k, p) :: rest =>
      let rand := double (rand - inject_Z (score p + 1)) in
      if Qle_bool rand 0 then Some k else weighted_walk rest rand
  end.

Definition totalScore (targets : list (string * player)) : Z :=
  fold_left (fun sum kp => sum + score (snd kp) + 1) targets 0.

(** [targets[i][0]], a TypeError when [targets[i]] is [undefined]. *)
Definition key_at (targets : list (string * player)) (i : Z) : outcome string :=
  match lookupZ targets i with
  | Some kp => Ok (fst kp)
  | None => Throw
  end.

(** [r1], [r2]: the draws, in order.  The result [None] is [null].  The
    literal [0.7] is the double nearest to 7/10, and both products are
    doubles. *)
Definition selectAttackTarget (r : room) (attackerSocketId : string) (r1 r2 : Q)
  : outcome (option string) :=
  let targets := targets_of r attackerSocketId in
  if (length targets =? 0)%nat then Ok None
  else if Qlt_bool r1 (double (7 # 10)) then
    do k <- key_at targets (Qfloor (double (r2 * inject_Z (Z.of_nat (length targets)))));
    Ok (Some k)
  else
    let rand := double (r2 * inject_Z (totalScore targets)) in
    match weighted_walk targets rand with
    | Some k => Ok (Some k)
    | None => do k <- key_at targets (Z.of_nat (length targets) - 1); Ok (Some k)
    end.

(** *** getPlayerList, broadcastMultiRoomList *)

Definition getPlayerList (r : room) : list player_view :=
  map (fun kp => PlayerView (fst kp) (username (snd kp)) (score (snd kp))
                            (alive (snd kp)) (rank (snd kp))
                            (String.eqb (fst kp) (hostSocketId r)))
      (players r).

Definition summary (r : room) : room_summary :=
  RoomSummary (id r) (maxPlayers r) (Z.of_nat (length (players r))) (status_of r)
              (option_map username (get_player (players r) (hostSocketId r))).

Definition broadcastMultiRoomList (rooms : list (string * room)) : list emission :=
  [(ToLobby, multi_room_list (map (fun kr => summary (snd kr)) rooms))].

(** *** checkGameEnd *)

(** [player.alive = false; player.rank = 1] *)
Definition crowned (p : player) : player :=
  Player (userId p) (username p) (score p) false (Some 1) (board p).

(** The first entry with [alive] set loses the flag and takes rank 1. *)
Fixpoint crown_first_alive (ps : list (string * player)) : list (string * player) :=
  match ps with
  | [] => []
  | (k, p) :: ps' =>
      if alive p
      then (k, crowned p) :: ps'
      else (k, p) :: crown_first_alive ps'
  end.

(** [a.rank - b.rank], with [null] counting as 0. *)
Definition rank_number (rk : ranking) : Z :=
  match rk_rank rk with
  | Some n => n
  | None => 0
  end.

Fixpoint insert_ranking (x : ranking) (l : list ranking) : list ranking :=
  match l with
  | [] => [x]
  | y :: l' =>
      if rank_number x - rank_number y <=? 0
      then x :: y :: l'
      else y :: insert_ranking x l'
  end.

(** [Array.prototype.sort] with the comparator above: a stable sort
    (an entry stays before the later entries it does not exceed). *)
Definition sort_rankings (l : list ranking) : list ranking :=
  fold_right insert_ranking [] l.

Definition checkGameEnd (r : room) (roomId : string) : room * list emission :=
  if (alivePlayers r <=? 1) && status_eqb (status_of r) playing then
    let r := set_status finished r in
    let r := set_players (crown_first_alive (players r)) r in
    let rankings :=
      sort_rankings
        (map (fun kp => Ranking (fst kp) (username (snd kp)) (rank (snd kp)) (score (snd kp)))
             (players r)) in
    (r, [(ToRoom roomId, multi_game_finished rankings);
         (ToRoom roomId, chat_final_rankings rankings)])
  else (r, []).

(** *** The handlers, on the room that holds the socket *)

Definition eliminate (n : Z) (p : player) : player :=
  Player (userId p) (username p) (score p) false (Some n) (board p).

Definition set_player_board (b : option (list (list Z))) (p : player) : player :=
  Player (userId p) (username p) (score p) (alive p) (rank p) b.

Definition set_player_score (s : Z) (p : player) : player :=
  Player (userId p) (username p) s (alive p) (rank p) (board p).

Definition fresh (p : player) : player :=
  Player (userId p) (username p) 0 true None None.

(** A socket id used as a condition: the empty string is falsy. *)
Definition truthy (s : string) : bool := negb (String.eqb s EmptyString).

(** The body of the [multi_game_action] handler once the room of
    [socket.id] is found; [r1], [r2] are the draws of a garbage action. *)
Definition room_game_action (roomId : string) (r : room) (sid : string) (me : player)
    (data : action) (r1 r2 : Q) : outcome (room * list emission) :=
  match data with
  | ABoard value =>
      Ok (set_players (update_player (set_player_board value) sid (players r)) r,
          [(ToOthers roomId sid, multi_game_action sid (ABoard value))])
  | AScore value =>
      Ok (set_players (update_player (set_player_score value) sid (players r)) r,
          [(ToOthers roomId sid, multi_game_action sid (AScore value))])
  | AGarbage value =>
      do targetId <- selectAttackTarget r sid r1 r2;
      match targetId with
      | Some t =>
          if truthy t then
            do target <- deref (get_player (players r) t);
            Ok (r, [(ToSocket t, multi_receive_garbage sid (username me) value);
                    (ToRoom roomId, multi_attack_event (username me) (username target) value)])
          else Ok (r, [])
      | None => Ok (r, [])
      end
  | AGameOver =>
      if alive me then
        let n := alivePlayers r in
        let r := set_players (update_player (eliminate n) sid (players r)) r in
        let r := set_alivePlayers (n - 1) r in
        let out := [(ToRoom roomId, multi_player_eliminated sid (username me) (Some n)
                                                        because_game_over)] in
        let (r, out') := checkGameEnd r roomId in
        Ok (r, out ++ out')
      else Ok (r, [])
  | AOther => Ok (r, [])
  end.

(** [for (const [roomId, room] of multiRooms) if (room.players[socket.id])
    { ...; break; }] *)
Fixpoint multi_game_action_on (rooms : list (string * room)) (sid : string)
    (data : action) (r1 r2 : Q) : outcome (list (string * room) * list emission) :=
  match rooms with
  | [] => Ok ([], [])
  | (roomId, r) :: rest =>
      match get_player (players r) sid with
      | Some me =>
          do (r', out) <- room_game_action roomId r sid me data r1 r2;
          Ok ((roomId, r') :: rest, out)
      | None =>
          do (rest', out) <- multi_game_action_on rest sid data r1 r2;
          Ok ((roomId, r) :: rest', out)
      end
  end.

(** The [multi_game_action] listener.  [data] is what came with the
    event: [None] when the client sent nothing, [undefined] or [null].
    The handler reads [data.type] as soon as it has found the room of
    [socket.id], a TypeError on such a payload; a socket that is in no
    room never reaches the read. *)
Definition on_multi_game_action (rooms : list (string * room)) (sid : string)
    (data : option action) (r1 r2 : Q) : outcome (list (string * room) * list emission) :=
  match data with
  | Some d => multi_game_action_on rooms sid d r1 r2
  | None =>
      if existsb (fun kr => has_player (players (snd kr)) sid) rooms then Throw
      else Ok (rooms, [])
  end.

(** *** start_multi_game *)

Definition start_room (r : room) (rnd : Q) : room :=
  let playerCount := Z.of_nat (length (players r)) in
  let r := set_status playing r in
  let r := set_alivePlayers playerCount r in
  let r := set_seed (Some (Qfloor (rnd * 2147483647))) r in
  set_players (map (fun kp => (fst kp, fresh (snd kp))) (players r)) r.

(** The scan of the handler; the flag tells whether it reached
    [broadcastMultiRoomList]. *)
Fixpoint start_scan (rooms : list (string * room)) (sid : string) (rnd : Q)
  : list (string * room) * list emission * bool :=
  match rooms with
  | [] => ([], [], false)
  | (roomId, r) :: rest =>
      if has_player (players r) sid && String.eqb (hostSocketId r) sid then
        if negb (status_eqb (status_of r) waiting) then
          ((roomId, r) :: rest, [(ToSocket sid, room_error_not_waiting)], false)
        else if Z.of_nat (length (players r)) <? 2 then
          ((roomId, r) :: rest, [(ToSocket sid, room_error_too_few)], false)
        else
          let r' := start_room r rnd in
          ((roomId, r') :: rest,
           [(ToRoom roomId,
             multi_game_ready (Qfloor (rnd * 2147483647)) (getPlayerList r'));
            (ToRoom roomId, chat_game_started)],
           true)
      else
        let '(rest', out, reached) := start_scan rest sid rnd in
        ((roomId, r) :: rest', out, reached)
  end.

Definition start_multi_game (rooms : list (string * room)) (sid : string) (rnd : Q)
  : list (string * room) * list emission :=
  let '(rooms', out, reached) := start_scan rooms sid rnd in
  (rooms', out ++ (if reached then broadcastMultiRoomList rooms' else [])).

(** What is left of [rand] once the weights of the candidates up to and
    including the one at index [i] have been taken off it, one after the
    other, each difference a double. *)
Fixpoint remainder (targets : list (string * player)) (rand : Q) (i : nat) : Q :=
  match targets with
  | [] => rand
  | (_, p) :: rest =>
      let rand := double (rand - inject_Z (score p + 1)) in
      match i with
      | O => rand
      | S i' => remainder rest rand i'
      end
  end.

(** The magnitudes of the scores of the candidates, each counted with
    one more, added up.  Below 2^53 the weights and all their sums are
    integers a double holds, so that they are added without rounding. *)
Definition total_magnitude (targets : list (string * player)) : Z :=
  fold_left (fun sum kp => sum + Z.abs (score (snd kp)) + 1) targets 0.

(** *** Runs of game-over reports *)

(** One [multi_game_action] of type [game_over] from [sid], seen from the
    room [r]; nothing happens when [sid] is not on its roster. *)
Definition report (roomId : string) (r : room) (sid : string) : room :=
  match get_player (players r) sid with
  | Some me =>
      match room_game_action roomId r sid me AGameOver 0 0 with
      | Ok (r', _) => r'
      | _ => r
      end
  | None => r
  end.

Definition play (roomId : string) (r : room) (reports : list string) : room :=
  fold_left (report roomId) reports r.

(** The ranks on the roster, in roster order. *)
Definition ranks (r : room) : list (option Z) :=
  map (fun kp => rank (snd kp)) (players r).

(** The ranks [a + 1, ..., m]. *)
Definition ranks_from (a m : nat) : list (option Z) :=
  map (fun i => Some (Z.of_nat i)) (seq (S a) (m - a)).

(** What holds of a room of [m] players from its start on: while it is
    playing, [alivePlayers] is the number [a >= 2] of players with no rank
    and the ranks given so far are [a + 1, ..., m]; once finished, the
    ranks are [1, ..., m]. *)
Definition match_inv (m : nat) (r : room) : Prop :=
  NoDup (map fst (players r))
  /\ Forall (fun kp => alive (snd kp) = true <-> rank (snd kp) = None) (players r)
  /\ match status_of r with
     | waiting => False
     | playing =>
         exists a : nat,
           alivePlayers r = Z.of_nat a /\ (2 <= a <= m)%nat
           /\ Permutation (ranks r) (replicate a None ++ ranks_from a m)
     | finished => Permutation (ranks r) (ranks_from 0 m)
     end.

(** The room of the design document's scenario: A (host), B and C
    joined, capacity 5, not yet started. *)
Definition lobby_of_three : room :=
  {| id := "M1A2B3";
     hostSocketId := "sockA";
     maxPlayers := 5;
     players := [("sockA", Player 1 "A" 0 true None None);
                 ("sockB", Player 2 "B" 0 true None None);
                 ("sockC", Player 3 "C" 0 true None None)];
     status_of := waiting;
     alivePlayers := 3;
     seed := None |}.

(** [lobby_of_three] once the host has started it. *)
Definition three_playing : room := start_room lobby_of_three (1 # 3).

(** A match of four in which B, C and D have reported the scores [b],
    [c] and [d]. *)
Definition four_playing (b c d : Z) : room :=
  {| id := "M4D5E6";
     hostSocketId := "sockA";
     maxPlayers := 5;
     players := [("sockA", Player 1 "A" 0 true None None);
                 ("sockB", Player 2 "B" b true None None);
                 ("sockC", Player 3 "C" c true None None);
                 ("sockD", Player 4 "D" d true None None)];
     status_of := playing;
     alivePlayers := 4;
     seed := Some 7 |}.

(** ** The room store *)

(** [multiRooms.get(roomId)] *)
Fixpoint get_room (rooms : list (string * room)) (roomId : string) : option room :=
  match rooms with
  | [] => None
  | (k, r) :: rest => if String.eqb k roomId then Some r else get_room rest roomId
  end.

(** [multiRooms.set(roomId, room)]: a key that is there keeps its place
    and takes the new value, a new key goes to the end. *)
Fixpoint set_room (rooms : list (string * room)) (roomId : string) (r : room)
  : list (string * room) :=
  match rooms with
  | [] => [(roomId, r)]
  | (k, r0) :: rest =>
      if String.eqb k roomId then (k, r) :: rest else (k, r0) :: set_room rest roomId r
  end.

(** A store through the reference [multiRooms.get] returned. *)
Fixpoint put_room (rooms : list (string * room)) (roomId : string) (r : room)
  : list (string * room) :=
  match rooms with
  | [] => []
  | (k, r0) :: rest =>
      if String.eqb k roomId then (k, r) :: rest else (k, r0) :: put_room rest roomId r
  end.

(** [room.players[socket.id] = {...}] *)
Fixpoint set_player (ps : list (string * player)) (sid : string) (p : player)
  : list (string * player) :=
  match ps with
  | [] => [(sid, p)]
  | (k, q) :: ps' =>
      if String.eqb k sid then (k, p) :: ps' else (k, q) :: set_player ps' sid p
  end.

(** [delete room.players[socket.id]] *)
Definition delete_player (ps : list (string * player)) (sid : string)
  : list (string * player) :=
  List.filter (fun kp => negb (String.eqb (fst kp) sid)) ps.

Definition set_hostSocketId (h : string) (r : room) : room :=
  Room (id r) h (maxPlayers r) (players r) (status_of r) (alivePlayers r) (seed r).

(** ** create_multi_room, join_multi_room, leave, restart *)

Inductive channel : Type := lobby | room_channel (roomId : string).

Inductive refusal : Type := room_missing | room_full | game_started | not_finished.

(** What the lobby handlers do besides the store: the channels of the
    calling socket, their own emissions ([to] is the socket for the
    replies, the room for the rest), and the emissions of the game code
    they call. *)
Inductive lobby_effect : Type :=
  | socket_leave (sid : string) (ch : channel)
  | socket_join (sid : string) (ch : channel)
  | room_error (to : string) (why : refusal)
  | multi_room_created (to : string) (roomId : string) (maxPlayers : Z) (isHost : bool)
  | multi_room_joined (to : string) (roomId : string) (maxPlayers : Z) (isHost : bool)
                      (hostName : string)
  | multi_player_list (roomId : string) (ps : list player_view)
  | chat_joined (roomId : string) (uname : string)
  | chat_left (roomId : string) (uname : string)
  | multi_host_changed (roomId : string) (newHostId newHostName : string)
  | multi_game_reset (roomId : string)
  | chat_reset (roomId : string) (requesterName : string)
  | relayed (e : emission).

(** [Math.min(21, Math.max(3, parseInt(maxPlayers) || 3))]; [requested]
    is what [parseInt] returns, [None] for [NaN]. *)
Definition capacity (requested : option Z) : Z :=
  let n := match requested with
           | Some n => if n =? 0 then 3 else n
           | None => 3
           end in
  Z.min 21 (Z.max 3 n).

Definition new_player (uid : Z) (uname : string) : player :=
  Player uid uname 0 true None None.

(** [sid], [uid], [uname]: the socket's id and its handshake identity;
    [roomId]: the id made from the uuid just drawn. *)
Definition create_multi_room (rooms : list (string * room)) (sid : string) (uid : Z)
    (uname : string) (requested : option Z) (roomId : string)
  : list (string * room) * list lobby_effect :=
  let n := capacity requested in
  let r := {| id := roomId; hostSocketId := sid; maxPlayers := n;
              players := [(sid, new_player uid uname)];
              status_of := waiting; alivePlayers := 1; seed := None |} in
  let rooms := set_room rooms roomId r in
  (rooms,
   [socket_leave sid lobby; socket_join sid (room_channel roomId);
    multi_room_created sid roomId n true]
   ++ map relayed (broadcastMultiRoomList rooms)).

Definition join_multi_room (rooms : list (string * room)) (sid : string) (uid : Z)
    (uname : string) (roomId : string)
  : outcome (list (string * room) * list lobby_effect) :=
  match get_room rooms roomId with
  | None => Ok (rooms, [room_error sid room_missing])
  | Some r =>
      if maxPlayers r <=? Z.of_nat (length (players r))
      then Ok (rooms, [room_error sid room_full])
      else if negb (status_eqb (status_of r) waiting)
      then Ok (rooms, [room_error sid game_started])
      else
        let r := set_players (set_player (players r) sid (new_player uid uname)) r in
        let r := set_alivePlayers (alivePlayers r + 1) r in
        do host <- deref (get_player (players r) (hostSocketId r));
        let rooms := put_room rooms roomId r in
        Ok (rooms,
            [socket_leave sid lobby; socket_join sid (room_channel roomId);
             multi_room_joined sid roomId (maxPlayers r) false (username host);
             multi_player_list roomId (getPlayerList r);
             chat_joined roomId uname]
            ++ map relayed (broadcastMultiRoomList rooms))
  end.

(** The first part of [handleMultiLeave] on the room that holds the
    socket: a player who is alive in a room that is playing is eliminated
    as by a game-over report, the others being told. *)
Definition leave_elimination (roomId : string) (r : room) (sid : string) (me : player)
  : room * list lobby_effect :=
  if status_eqb (status_of r) playing && alive me then
    let n := alivePlayers r in
    let r := set_players (update_player (eliminate n) sid (players r)) r in
    let r := set_alivePlayers (n - 1) r in
    let (r, out') := checkGameEnd r roomId in
    (r, relayed (ToOthers roomId sid,
                 multi_player_eliminated sid (username me) (Some n) because_left)
        :: map relayed out')
  else (r, []).

(** The body of [handleMultiLeave] on the room that holds the socket:
    the room that is left ([None] when it is deleted) and what is emitted
    before the room list goes out. *)
Definition leave_room (roomId : string) (r : room) (sid : string) (me : player)
  : outcome (option room * list lobby_effect) :=
  let '(r, out1) := leave_elimination roomId r sid me in
  let r := set_players (delete_player (players r) sid) r in
  let moved := [socket_leave sid (room_channel roomId); socket_join sid lobby] in
  if (length (players r) =? 0)%nat then Ok (None, out1 ++ moved)
  else
    do (r, out2) <-
      (if String.eqb (hostSocketId r) sid then
         do newHostId <- deref (head (map fst (players r)));
         do newHost <- deref (get_player (players r) newHostId);
         Ok (set_hostSocketId newHostId r,
             [multi_host_changed roomId newHostId (username newHost)])
       else Ok (r, []));
    let out3 :=
      if status_eqb (status_of r) waiting
      then [multi_player_list roomId (getPlayerList r)] else [] in
    Ok (Some r, out1 ++ moved ++ out2 ++ out3 ++ [chat_left roomId (username me)]).

(** The scan of [handleMultiLeave]; the flag tells whether a room held
    the socket. *)
Fixpoint leave_scan (rooms : list (string * room)) (sid : string)
  : outcome (list (string * room) * list lobby_effect * bool) :=
  match rooms with
  | [] => Ok ([], [], false)
  | (roomId, r) :: rest =>
      match get_player (players r) sid with
      | Some me =>
          do (r', out) <- leave_room roomId r sid me;
          Ok (match r' with
              | Some r1 => (roomId, r1) :: rest
              | None => rest
              end, out, true)
      | None =>
          do (rest', out, found) <- leave_scan rest sid;
          Ok ((roomId, r) :: rest', out, found)
      end
  end.

Definition handleMultiLeave (rooms : list (string * room)) (sid : string)
  : outcome (list (string * room) * list lobby_effect) :=
  do (rooms', out, found) <- leave_scan rooms sid;
  Ok (rooms', out ++ (if found then map relayed (broadcastMultiRoomList rooms') else [])).

(** *** restart_multi_game *)

Definition restart_room (r : room) : room :=
  let r := set_status waiting r in
  let r := set_seed None r in
  let r := set_alivePlayers (Z.of_nat (length (players r))) r in
  set_players (map (fun kp => (fst kp, fresh (snd kp))) (players r)) r.

(** The scan of the handler; the flag tells whether it reached
    [broadcastMultiRoomList]. *)
Fixpoint restart_scan (rooms : list (string * room)) (sid : string)
  : list (string * room) * list lobby_effect * bool :=
  match rooms with
  | [] => ([], [], false)
  | (roomId, r) :: rest =>
      match get_player (players r) sid with
      | Some me =>
          if negb (status_eqb (status_of r) finished) then
            ((roomId, r) :: rest, [room_error sid not_finished], false)
          else
            let r' := restart_room r in
            ((roomId, r') :: rest,
             [multi_game_reset roomId;
              multi_player_list roomId (getPlayerList r');
              chat_reset roomId (username me)],
             true)
      | None =>
          let '(rest', out, reached) := restart_scan rest sid in
          ((roomId, r) :: rest', out, reached)
      end
  end.

Definition restart_multi_game (rooms : list (string * room)) (sid : string)
  : list (string * room) * list lobby_effect :=
  let '(rooms', out, reached) := restart_scan rooms sid in
  (rooms', out ++ (if reached then map relayed (broadcastMultiRoomList rooms') else [])).

(** ** What reaches the battle server *)

Inductive request : Type :=
  | create_req (uid : Z) (uname : string) (requested : option Z) (roomId : string)
  | join_req (uid : Z) (uname : string) (roomId : string)
  | start_req (rnd : Q)
  | action_req (data : option action) (r1 r2 : Q)
  | leave_req
  | restart_req.

(** One event from the socket [sid]. *)
Definition serve (rooms : list (string * room)) (sid : string) (req : request)
  : outcome (list (string * room) * list lobby_effect) :=
  match req with
  | create_req uid uname requested roomId =>
      Ok (create_multi_room rooms sid uid uname requested roomId)
  | join_req uid uname roomId => join_multi_room rooms sid uid uname roomId
  | start_req rnd =>
      let (rooms', out) := start_multi_game rooms sid rnd in
      Ok (rooms', map relayed out)
  | action_req data r1 r2 =>
      do (rooms', out) <- on_multi_game_action rooms sid data r1 r2;
      Ok (rooms', map relayed out)
  | leave_req => handleMultiLeave rooms sid
  | restart_req => Ok (restart_multi_game rooms sid)
  end.

Fixpoint serve_all (rooms : list (string * room)) (reqs : list (string * request))
  : outcome (list (string * room) * list lobby_effect) :=
  match reqs with
  | [] => Ok (rooms, [])
  | (sid, req) :: rest =>
      do (rooms1, out1) <- serve rooms sid req;
      do (rooms2, out2) <- serve_all rooms1 rest;
      Ok (rooms2, out1 ++ out2)
  end.

(** A game action that comes with a payload, as the clients of the
    game send it. *)
Definition with_payload (req : request) : Prop :=
  match req with
  | action_req None _ _ => False
  | _ => True
  end.


(** The players of a roster that are alive. *)
Definition living (ps : list (string * player)) : nat :=
  length (List.filter (fun kp => alive (snd kp)) ps).

(** What holds of every room of the store: it has players, under
    distinct socket ids, its host among them, no more of them than its
    capacity, which lies between 3 and 21; while it is playing its
    counter is the number of players alive, at least 2; once finished
    nobody is alive. *)
Definition sound (r : room) : Prop :=
  players r <> []
  /\ NoDup (map fst (players r))
  /\ has_player (players r) (hostSocketId r) = true
  /\ Z.of_nat (length (players r)) <= maxPlayers r
  /\ 3 <= maxPlayers r <= 21
  /\ match status_of r with
     | waiting => True
     | playing =>
         alivePlayers r = Z.of_nat (living (players r)) /\ (2 <= living (players r))%nat
     | finished => living (players r) = 0%nat
     end.


End Battle.

(** ** Duel rooms (socket.js with the RoomManager of roomManager.js) *)

Module Duel.

Inductive status : Type := waiting | playing.

Record player : Type := Player { userId : Z; username : string }.

(** [scores] is the per-room tally object; a missing or empty object
    reads as the empty map. *)
Record room : Type := Room {
  id : string;
  players : list (string * player);
  status_of : status;
  scores : gmap string Z
}.

Inductive kind : Type := board_action | score_action | garbage_action | game_over | other_action.

(** [data] of a [game_action]: its [type] and an uninterpreted [value]. *)
Record action : Type := Action { type_of : kind; value : Z }.

Inductive audience : Type :=
  | ToRoom (roomId : string)
  | ToOthers (roomId : string) (sender : string).

(** Emissions and the database statement.  The winner's chat line is
    kept by the names and tallies it is rendered from. *)
Inductive effect : Type :=
  | emit_game_action (to : audience) (data : action)
  | db_add_score (uid : Z) (points : Z)
  | chat_winner (to : audience) (winner : string) (p1 : string) (s1 : Z) (p2 : string) (s2 : Z)
  | emit_game_reset (to : audience)
  | emit_game_ready (to : audience) (seed : Z)
  | chat_reset (to : audience).

Fixpoint get_player (ps : list (string * player)) (sid : string) : option player :=
  match ps with
  | [] => None
  | (k, p) :: ps' => if String.eqb k sid then Some p else get_player ps' sid
  end.

(** [RoomManager.findPlayerRoom] *)
Fixpoint findPlayerRoom (rooms : list (string * room)) (socketId : string)
  : option (string * room) :=
  match rooms with
  | [] => None
  | (roomId, r) :: rest =>
      match get_player (players r) socketId with
      | Some _ => Some (roomId, r)
      | None => findPlayerRoom rest socketId
      end
  end.

(** A store through the reference [findPlayerRoom] returned. *)
Fixpoint put_room (rooms : list (string * room)) (roomId : string) (r : room)
  : list (string * room) :=
  match rooms with
  | [] => []
  | (k, r0) :: rest =>
      if String.eqb k roomId then (k, r) :: rest else (k, r0) :: put_room rest roomId r
  end.

Definition truthy (s : string) : bool := negb (String.eqb s EmptyString).

(** [room.scores[k] || 0], and also the value [!room.scores[k]] resets. *)
Definition tally (sc : gmap string Z) (k : string) : Z :=
  match sc !! k with
  | Some n => n
  | None => 0
  end.

(** [Object.keys(room.players).find(id => id !== socket.id)] *)
Definition other_key (ps : list (string * player)) (sid : string) : option string :=
  find (fun k => negb (String.eqb k sid)) (map fst ps).

Definition set_scores (sc : gmap string Z) (r : room) : room :=
  Room (id r) (players r) (status_of r) sc.
Definition set_status (s : status) (r : room) : room :=
  Room (id r) (players r) s (scores r).

(** The [game_over] branch of [game_action], after the relay. *)
Definition settle_game_over (roomId : string) (r : room) (sid : string)
  : outcome (room * list effect) :=
  match other_key (players r) sid with
  | Some winnerId =>
      if truthy winnerId then
        do winnerUser <- deref (get_player (players r) winnerId);
        let r := set_scores (<[winnerId := tally (scores r) winnerId + 1]> (scores r)) r in
        do p1Id <- deref (map fst (players r) !! 0%nat);
        do p2Id <- deref (map fst (players r) !! 1%nat);
        do p1 <- deref (get_player (players r) p1Id);
        do p2 <- deref (get_player (players r) p2Id);
        Ok (r, [db_add_score (userId winnerUser) 100;
                chat_winner (ToRoom roomId) (username winnerUser)
                            (username p1) (tally (scores r) p1Id)
                            (username p2) (tally (scores r) p2Id)])
      else Ok (r, [])
  | None => Ok (r, [])
  end.

Definition game_action (rooms : list (string * room)) (sid : string) (data : action)
  : outcome (list (string * room) * list effect) :=
  match findPlayerRoom rooms sid with
  | None => Ok (rooms, [])
  | Some (roomId, r) =>
      let relay := [emit_game_action (ToOthers roomId sid) data] in
      match type_of data with
      | game_over =>
          do (r', out) <- settle_game_over roomId r sid;
          Ok (put_room rooms roomId r', relay ++ out)
      | _ => Ok (rooms, relay)
      end
  end.

(** The [game_action] listener.  [data] is what came with the event:
    [None] when the client sent nothing, [undefined] or [null].  A socket
    that is in no room returns first; for one that is, the handler reads
    [data.type] after the relay, a TypeError on such a payload. *)
Definition on_game_action (rooms : list (string * room)) (sid : string)
    (data : option action) : outcome (list (string * room) * list effect) :=
  match data with
  | Some d => game_action rooms sid d
  | None =>
      match findPlayerRoom rooms sid with
      | Some _ => Throw
      | None => Ok (rooms, [])
      end
  end.

(** [rnd]: the draw for the seed. *)
Definition game_reset (rooms : list (string * room)) (sid : string) (rnd : Q)
  : list (string * room) * list effect :=
  match findPlayerRoom rooms sid with
  | None => (rooms, [])
  | Some (roomId, r) =>
      let r := set_status playing r in
      let seed := Qfloor (rnd * 2147483647) in
      (put_room rooms roomId r,
       [emit_game_reset (ToRoom roomId);
        emit_game_ready (ToRoom roomId) seed;
        chat_reset (ToRoom roomId)])
  end.

(** A store holding one duel room, both players seated, mid-game. *)
Definition one_duel : list (string * room) :=
  [("a1b2c3", {| id := "a1b2c3";
                 players := [("sock1", Player 7 "ann"); ("sock2", Player 9 "bob")];
                 status_of := playing;
                 scores := ∅ |})].

(** ** The other methods of RoomManager *)

(** [this.rooms.get(roomId)] *)
Fixpoint getRoom (rooms : list (string * room)) (roomId : string) : option room :=
  match rooms with
  | [] => None
  | (k, r) :: rest => if String.eqb k roomId then Some r else getRoom rest roomId
  end.

(** [this.rooms.set(roomId, roomData)]: a key that is there keeps its
    place and takes the new value, a new key goes to the end. *)
Fixpoint createRoom (rooms : list (string * room)) (roomId : string) (roomData : room)
  : list (string * room) :=
  match rooms with
  | [] => [(roomId, roomData)]
  | (k, r) :: rest =>
      if String.eqb k roomId then (k, roomData) :: rest
      else (k, r) :: createRoom rest roomId roomData
  end.

(** [this.rooms.delete(roomId)] *)
Definition deleteRoom (rooms : list (string * room)) (roomId : string)
  : list (string * room) :=
  List.filter (fun kr => negb (String.eqb (fst kr) roomId)) rooms.

(** [Array.from(this.rooms.values())] *)
Definition getAllRooms (rooms : list (string * room)) : list room := map snd rooms.

Definition set_players (ps : list (string * player)) (r : room) : room :=
  Room (id r) ps (status_of r) (scores r).

(** [room.players[socketId] = playerData] *)
Fixpoint set_player (ps : list (string * player)) (sid : string) (p : player)
  : list (string * player) :=
  match ps with
  | [] => [(sid, p)]
  | (k, q) :: ps' =>
      if String.eqb k sid then (k, p) :: ps' else (k, q) :: set_player ps' sid p
  end.

(** [delete room.players[socketId]] *)
Definition delete_player (ps : list (string * player)) (sid : string)
  : list (string * player) :=
  List.filter (fun kp => negb (String.eqb (fst kp) sid)) ps.

Definition addPlayer (rooms : list (string * room)) (roomId socketId : string)
    (playerData : player) : list (string * room) * bool :=
  match getRoom rooms roomId with
  | None => (rooms, false)
  | Some r =>
      (put_room rooms roomId (set_players (set_player (players r) socketId playerData) r),
       true)
  end.

Definition removePlayer (rooms : list (string * room)) (roomId socketId : string)
  : list (string * room) * option player :=
  match getRoom rooms roomId with
  | None => (rooms, None)
  | Some r =>
      match get_player (players r) socketId with
      | None => (rooms, None)
      | Some p =>
          (put_room rooms roomId (set_players (delete_player (players r) socketId) r),
           Some p)
      end
  end.

Definition getPlayerCount (rooms : list (string * room)) (roomId : string) : Z :=
  match getRoom rooms roomId with
  | Some r => Z.of_nat (length (players r))
  | None => 0
  end.

Definition isRoomEmpty (rooms : list (string * room)) (roomId : string) : bool :=
  getPlayerCount rooms roomId =? 0.

(** ** create_room, join_room, leave_room (socket.js) *)

Definition status_eqb (a b : status) : bool :=
  match a, b with
  | waiting, waiting | playing, playing => true
  | _, _ => false
  end.

Inductive channel : Type := lobby | room_channel (roomId : string).

Inductive refusal : Type := room_not_found | room_is_full | game_already_started.

(** What a lobby handler does besides the store: the calling socket's
    channels, and the emissions, each with its addressee in its name
    ([socket.emit] to the caller, [io.to(room)] to a room, [io.to('lobby')]
    for the room list). *)
Inductive lobby_effect : Type :=
  | socket_leave (ch : channel)
  | socket_join (ch : channel)
  | emit_room_created (roomId : string)
  | emit_room_error (why : refusal)
  | emit_room_joined (roomId : string)
  | emit_player_joined (roomId : string) (who : player)
  | emit_player_left (roomId : string)
  | chat_left (roomId : string) (uname : string)
  | emit_room_list (rooms : list room)
  | in_game (e : effect).

(** [sid], [me]: the socket's id and its handshake identity; [roomId]:
    the six characters cut from the uuid just drawn. *)
Definition create_room (rooms : list (string * room)) (sid : string) (me : player)
    (roomId : string) : list (string * room) * list lobby_effect :=
  let r := {| id := roomId; players := [(sid, me)]; status_of := waiting; scores := ∅ |} in
  let rooms := createRoom rooms roomId r in
  (rooms,
   [socket_leave lobby; socket_join (room_channel roomId);
    emit_room_created roomId; emit_room_list (getAllRooms rooms)]).

(** [rnd]: the draw for the seed, made when the room has become full. *)
Definition join_room (rooms : list (string * room)) (sid : string) (me : player)
    (roomId : string) (rnd : Q) : list (string * room) * list lobby_effect :=
  match getRoom rooms roomId with
  | None => (rooms, [emit_room_error room_not_found])
  | Some r =>
      if 2 <=? getPlayerCount rooms roomId then (rooms, [emit_room_error room_is_full])
      else if negb (status_eqb (status_of r) waiting)
      then (rooms, [emit_room_error game_already_started])
      else
        let rooms := fst (addPlayer rooms roomId sid me) in
        (rooms,
         [socket_leave lobby; socket_join (room_channel roomId);
          emit_room_joined roomId; emit_player_joined roomId me]
         ++ (if getPlayerCount rooms roomId =? 2
             then [in_game (emit_game_ready (ToRoom roomId) (Qfloor (rnd * 2147483647)))]
             else [])
         ++ [emit_room_list (getAllRooms rooms)])
  end.

(** [handleLeave], which serves [leave_room] and the room part of
    [disconnect].  [room] is the object the manager holds under [roomId]:
    it is read back after [removePlayer] has written to it. *)
Definition handleLeave (rooms : list (string * room)) (sid : string)
  : outcome (list (string * room) * list lobby_effect) :=
  match findPlayerRoom rooms sid with
  | None => Ok (rooms, [])
  | Some (roomId, r) =>
      do me <- deref (get_player (players r) sid);
      let rooms := fst (removePlayer rooms roomId sid) in
      let moved := [socket_leave (room_channel roomId); socket_join lobby] in
      if isRoomEmpty rooms roomId then
        let rooms := deleteRoom rooms roomId in
        Ok (rooms, moved ++ [emit_room_list (getAllRooms rooms)])
      else
        do r1 <- deref (getRoom rooms roomId);
        let rooms := put_room rooms roomId (set_scores ∅ (set_status waiting r1)) in
        Ok (rooms,
            moved ++ [emit_player_left roomId; chat_left roomId (username me);
                      emit_room_list (getAllRooms rooms)])
  end.

(** ** What reaches the duel server *)

Inductive request : Type :=
  | create_room_req (me : player) (roomId : string)
  | join_room_req (me : player) (roomId : string) (rnd : Q)
  | leave_room_req
  | game_action_req (data : option action)
  | game_reset_req (rnd : Q).

(** One event from the socket [sid]. *)
Definition serve (rooms : list (string * room)) (sid : string) (req : request)
  : outcome (list (string * room) * list lobby_effect) :=
  match req with
  | create_room_req me roomId => Ok (create_room rooms sid me roomId)
  | join_room_req me roomId rnd => Ok (join_room rooms sid me roomId rnd)
  | leave_room_req => handleLeave rooms sid
  | game_action_req data =>
      do (rooms', out) <- on_game_action rooms sid data;
      Ok (rooms', map in_game out)
  | game_reset_req rnd =>
      let (rooms', out) := game_reset rooms sid rnd in
      Ok (rooms', map in_game out)
  end.

Fixpoint serve_all (rooms : list (string * room)) (reqs : list (string * request))
  : outcome (list (string * room) * list lobby_effect) :=
  match reqs with
  | [] => Ok (rooms, [])
  | (sid, req) :: rest =>
      do (rooms1, out1) <- serve rooms sid req;
      do (rooms2, out2) <- serve_all rooms1 rest;
      Ok (rooms2, out1 ++ out2)
  end.

(** A game action that comes with a payload, as the clients of the
    game send it. *)
Definition with_payload (req : request) : Prop :=
  match req with
  | game_action_req None => False
  | _ => True
  end.

(** Every room holds one or two players, under distinct socket ids, and
    no two rooms share an id. *)
Definition seated (r : room) : Prop :=
  NoDup (map fst (players r)) /\ (1 <= length (players r) <= 2)%nat.

Definition tidy (rooms : list (string * room)) : Prop :=
  NoDup (map fst rooms) /\ Forall (fun kr => seated (snd kr)) rooms.

End Duel.

(** * Properties of the engine *)

Module TetrisFacts.
Import Tetris.

(** ** Indices *)

Lemma lookupZ_of_nat {A} (l : list A) (n : nat) : lookupZ l (Z.of_nat n) = l !! n.
Proof.
  unfold lookupZ. destruct (Z.ltb_spec (Z.of_nat n) 0); [lia|].
  now rewrite Nat2Z.id.
Qed.

Lemma lookupZ_Some {A} (l : list A) (i : Z) (a : A) :
  lookupZ l i = Some a -> 0 <= i < Z.of_nat (length l) /\ l !! Z.to_nat i = Some a.
Proof.
  unfold lookupZ. destruct (Z.ltb_spec i 0); [discriminate|].
  intros E. split; [|exact E]. apply lookup_lt_Some in E. lia.
Qed.

Lemma lookupZ_None {A} (l : list A) (i : Z) :
  lookupZ l i = None <-> i < 0 \/ Z.of_nat (length l) <= i.
Proof.
  unfold lookupZ. destruct (Z.ltb_spec i 0).
  - split; [now left | reflexivity].
  - rewrite lookup_ge_None. lia.
Qed.

(** [Math.floor(Math.random() * n)] is an index below [n]. *)
Lemma uniform_index (r2 : Q) (n : nat) :
  (0 <= r2)%Q -> (r2 < 1)%Q -> (0 < n)%nat ->
  0 <= Qfloor (r2 * inject_Z (Z.of_nat n)) < Z.of_nat n.
Proof.
  intros Hlo Hhi Hn.
  assert (Hnq : (0 < inject_Z (Z.of_nat n))%Q).
  { change 0%Q with (inject_Z 0). rewrite <- Zlt_Qlt. lia. }
  split.
  - change 0 with (Qfloor 0). apply Qfloor_resp_le.
    apply Qmult_le_0_compat; [exact Hlo | now apply Qlt_le_weak].
  - rewrite Zlt_Qlt. eapply Qle_lt_trans; [apply Qfloor_le|].
    rewrite <- (Qmult_1_l (inject_Z (Z.of_nat n))) at 2.
    now apply Qmult_lt_compat_r.
Qed.

(** [randomPiece] returns one of the seven shapes. *)
Lemma randomPiece_total (r : Q) :
  (0 <= r)%Q -> (r < 1)%Q -> exists p, randomPiece r = Ok p /\ In p PIECES.
Proof.
  intros Hlo Hhi. unfold randomPiece.
  destruct (uniform_index r (length PIECES) Hlo Hhi) as [H0 H1]; [cbn; lia|].
  unfold lookupZ. destruct (Z.ltb_spec (Qfloor (r * inject_Z (Z.of_nat (length PIECES)))) 0); [lia|].
  destruct (lookup_lt_is_Some_2 PIECES
              (Z.to_nat (Qfloor (r * inject_Z (Z.of_nat (length PIECES))))))
    as [p Hp]; [lia|].
  rewrite Hp. exists p. split; [now rewrite map_id|].
  apply list_elem_of_In. now apply list_elem_of_lookup_2 in Hp.
Qed.

(** ** The line-clear sweep *)

Lemma blank_not_full (row : list Z) : row <> [] -> row_full (blank row) = false.
Proof. destruct row; [congruence|]. reflexivity. Qed.

(** Rows that are not full are stepped over. *)
Lemma sweep_loop_skip (n : nat) : forall fuel b k,
  (n < fuel)%nat ->
  (forall i, (1 <= i <= n)%nat -> exists row, b !! i = Some row /\ row_full row = false) ->
  sweep_loop fuel b (Z.of_nat n) k = Ok (b, k).
Proof.
  induction n as [|n IH]; intros fuel b k Hf Hrows;
    (destruct fuel as [|fuel]; [lia|]); cbn [sweep_loop].
  - reflexivity.
  - destruct (Z.ltb_spec 0 (Z.of_nat (S n))); [|lia].
    rewrite lookupZ_of_nat.
    destruct (Hrows (S n)) as (row & -> & ->); [lia|].
    replace (Z.of_nat (S n) - 1) with (Z.of_nat n) by lia.
    apply IH; [lia|]. intros i Hi. apply Hrows. lia.
Qed.

(** C7. Each of the seven shapes of [PIECES] comes back to itself after
    four quarter turns in one direction, whichever way [dir] points. *)
Theorem four_turns_identity :
  Forall (fun p => forall dir : Z, rotate_times 4 dir p = Ok p) PIECES.
Proof.
  unfold PIECES.
  repeat (apply List.Forall_cons;
          [ intro dir; unfold rotate_times, _rotateMatrix;
            destruct (0 <? dir); vm_compute; reflexivity | ]).
  apply List.Forall_nil.
Qed.

(** C1 (the source does not do this). Two engines built with the same
    seed 42 hand out different first shapes when their [Math.random]
    streams differ: the seed reaches no draw. *)
Theorem same_seed_different_pieces :
  first_pieces 42 0 0 = Ok (Some [[0; 1; 0]; [1; 1; 1]; [0; 0; 0]],
                            Some [[0; 1; 0]; [1; 1; 1]; [0; 0; 0]])
  /\ first_pieces 42 (1 # 2) (1 # 2) = Ok (Some [[4; 4; 0]; [0; 4; 4]; [0; 0; 0]],
                                           Some [[4; 4; 0]; [0; 4; 4]; [0; 0; 0]])
  /\ forall seed seed' r1 r2, first_pieces seed r1 r2 = first_pieces seed' r1 r2.
Proof.
  split; [ | split ]; [ vm_compute; reflexivity | vm_compute; reflexivity | ].
  intros; reflexivity.
Qed.

(** The scan with [mid] still to visit below [p0], the blank rows [zs]
    already on top and the rows [kept] already visited. *)
Lemma sweep_loop_scan (mid : matrix) : forall zs p0 kept k fuel,
  Forall (fun r => row_full r = false) zs ->
  p0 <> [] ->
  Forall (fun r => r <> []) mid ->
  (2 * length mid + length zs + 2 <= fuel)%nat ->
  sweep_loop fuel (zs ++ p0 :: mid ++ kept) (Z.of_nat (length zs + length mid)) k =
  Ok (let gone := map blank (List.filter row_full mid) ++ zs in
      let keep := List.filter (fun row => negb (row_full row)) mid ++ kept in
      let n := Z.of_nat (length (List.filter row_full mid)) in
      if negb (length gone =? 0)%nat && row_full p0
      then (blank p0 :: gone ++ keep, k + n + 1)
      else (gone ++ p0 :: keep, k + n)).
Proof.
  induction mid as [|r mid IH] using rev_ind; intros zs p0 kept k fuel Hzs Hp0 Hmid Hfuel.
  - cbn [List.filter map app length]. rewrite Nat.add_0_r.
    destruct fuel as [|fuel]; [cbn in Hfuel; lia|]. cbn [sweep_loop].
    destruct zs as [|z zs].
    + cbn. now rewrite Z.add_0_r.
    + destruct (Z.ltb_spec 0 (Z.of_nat (length (z :: zs)))); [|cbn [length] in *; lia].
      rewrite lookupZ_of_nat, list_lookup_middle by reflexivity.
      rewrite Nat2Z.id, delete_middle by reflexivity.
      cbn [negb length Nat.eqb andb].
      destruct (row_full p0) eqn:Ep0.
      * replace (Z.of_nat (S (length zs)) + 1 - 1) with (Z.of_nat (S (length zs))) by lia.
        rewrite sweep_loop_skip.
        -- f_equal. f_equal. lia.
        -- cbn [length] in *. lia.
        -- intros i Hi. destruct i as [|i]; [lia|].
           change ((blank p0 :: (z :: zs) ++ kept) !! S i) with (((z :: zs) ++ kept) !! i).
           assert (Hlt : (i < length (z :: zs))%nat) by (cbn [length]; lia).
           destruct (lookup_lt_is_Some_2 (z :: zs) i Hlt) as [row Hrow].
           exists row. rewrite lookup_app_l by exact Hlt. split; [exact Hrow|].
           rewrite Forall_lookup in Hzs. exact (Hzs _ _ Hrow).
      * replace (Z.of_nat (S (length zs)) - 1) with (Z.of_nat (length zs)) by lia.
        rewrite sweep_loop_skip.
        -- f_equal. f_equal. lia.
        -- cbn [length] in *. lia.
        -- intros i Hi.
           assert (Hlt : (i < length (z :: zs))%nat) by (cbn [length]; lia).
           destruct (lookup_lt_is_Some_2 (z :: zs) i Hlt) as [row Hrow].
           exists row. rewrite lookup_app_l by exact Hlt. split; [exact Hrow|].
           rewrite Forall_lookup in Hzs. exact (Hzs _ _ Hrow).
  - apply Forall_app in Hmid as [Hmid Hr]. rewrite Forall_singleton in Hr.
    rewrite length_app in Hfuel |- *. cbn [length] in Hfuel |- *.
    destruct fuel as [|fuel]; [lia|]. cbn [sweep_loop].
    destruct (Z.ltb_spec 0 (Z.of_nat (length zs + (length mid + 1)))); [|lia].
    assert (Eb : zs ++ p0 :: (mid ++ [r]) ++ kept = (zs ++ p0 :: mid) ++ r :: kept)
      by (rewrite <- ?app_assoc; cbn [app]; rewrite <- ?app_assoc; reflexivity).
    assert (El : (length zs + (length mid + 1))%nat = length (zs ++ p0 :: mid))
      by (rewrite length_app; cbn [length]; lia).
    rewrite Eb, El, lookupZ_of_nat, list_lookup_middle by reflexivity.
    rewrite Nat2Z.id, delete_middle by reflexivity.
    rewrite !List.filter_app. cbn [List.filter].
    destruct (row_full r) eqn:Er; cbn [negb].
    + replace (Z.of_nat (length (zs ++ p0 :: mid)) + 1 - 1)
        with (Z.of_nat (length (blank r :: zs) + length mid))
        by (rewrite length_app; cbn [length]; lia).
      replace (blank r :: (zs ++ p0 :: mid) ++ kept)
        with ((blank r :: zs) ++ p0 :: mid ++ kept)
        by (cbn [app]; rewrite <- ?app_assoc; reflexivity).
      rewrite IH; [ | | assumption | assumption | cbn [length]; lia ].
      * cbv zeta. rewrite map_app. cbn [map]. rewrite <- ?app_assoc. cbn [app].
        rewrite !length_app. cbn [length].
        match goal with |- Ok (if ?c then _ else _) = _ => destruct c end;
          f_equal; f_equal; lia.
      * constructor; [now apply blank_not_full | assumption].
    + replace (Z.of_nat (length (zs ++ p0 :: mid)) - 1)
        with (Z.of_nat (length zs + length mid))
        by (rewrite length_app; cbn [length]; lia).
      replace ((zs ++ p0 :: mid) ++ r :: kept) with (zs ++ p0 :: mid ++ r :: kept)
        by (rewrite <- ?app_assoc; reflexivity).
      rewrite IH; [ | assumption | assumption | assumption | lia ].
      cbv zeta. rewrite ?app_nil_r, <- ?app_assoc. cbn [app].
      reflexivity.
Qed.

(** On a board with no empty row the sweep ends, and does what
    [sweep_result] tells. *)
Lemma sweep_total (b : matrix) :
  Forall (fun r => r <> []) b -> sweep b = Ok (sweep_result b).
Proof.
  intros Hb. unfold sweep, sweep_fuel. destruct b as [|top rest].
  - reflexivity.
  - apply Forall_cons in Hb as [Htop Hrest].
    replace (Z.of_nat (length (top :: rest)) - 1) with (Z.of_nat (length (@nil (list Z)) + length rest))
      by (cbn [length]; lia).
    change (top :: rest) with ([] ++ top :: rest) at 2.
    rewrite <- (app_nil_r rest) at 2.
    rewrite sweep_loop_scan; [ | constructor | assumption | assumption | cbn [length]; lia ].
    cbv zeta. unfold sweep_result. rewrite !app_nil_r, length_map, !Z.add_0_l.
    reflexivity.
Qed.

(** C3 (the source does not do this). With row 0 full and nothing else on
    the board the sweep returns the board as it was and counts no row: the
    scan stops above index 0. *)
Theorem full_row_0_survives :
  (exists top, top_row_full !! 0%nat = Some top /\ row_full top = true)
  /\ sweep top_row_full = Ok (top_row_full, 0).
Proof.
  split; [ eexists; split; reflexivity | vm_compute; reflexivity ].
Qed.

(** Whatever row 0 holds, it stays when no row below it is full. *)
Lemma sweep_row_0_alone (top : list Z) (rest : matrix) :
  Forall (fun r => r <> []) (top :: rest) ->
  List.filter row_full rest = [] ->
  sweep (top :: rest) = Ok (top :: rest, 0).
Proof.
  intros Hb Hnone. rewrite sweep_total by exact Hb.
  unfold sweep_result. rewrite Hnone. cbn.
  replace (List.filter (fun row => negb (row_full row)) rest) with rest; [reflexivity|].
  clear Hb. induction rest as [|r rest IH]; [reflexivity|].
  cbn in Hnone |- *. destruct (row_full r); [discriminate|].
  cbn. f_equal. now apply IH.
Qed.

(** C5. A sweep that clears [k > 0] rows adds [10 * k] to the score in
    one step: [onScore] is called once, with the new score, and
    [onLinesCleared] receives [floor(new / 100) - floor(old / 100)] units
    (no call when that is 0); a listener that is not registered receives
    nothing. *)
Theorem sweep_scores_once (g : game) (b : matrix) (k : Z) :
  sweep (board g) = Ok (b, k) ->
  0 < k ->
  exists g' evs,
    arenaSweep g = Ok (g', evs)
    /\ board g' = b
    /\ score g' = score g + 10 * k
    /\ score_updates evs = (if onScore g then [score g + 10 * k] else [])
    /\ attack_units evs =
       (if onLinesCleared g then score g' / 100 - score g / 100 else 0).
Proof.
  intros Hsweep Hpos. unfold arenaSweep. rewrite Hsweep.
  cbn [obind]. destruct (Z.ltb_spec 0 k); [|lia].
  eexists _, _. split; [reflexivity|].
  cbn [board score set_score set_board onScore onLinesCleared].
  assert (Hmono : score g / 100 <= (score g + k * 10) / 100)
    by (apply Z.div_le_mono; lia).
  replace (score g + 10 * k) with (score g + k * 10) by lia.
  split; [reflexivity|]. split; [reflexivity|].
  destruct (onScore g), (onLinesCleared g);
    destruct (Z.ltb_spec 0 ((score g + k * 10) / 100 - score g / 100));
    cbn; (split; [reflexivity | lia]).
Qed.

Lemma sweep_scores_once_witness :
  exists g' evs,
    arenaSweep before_clear = Ok (g', evs)
    /\ board g' = createBoard
    /\ score g' = score before_clear + 10 * 1
    /\ score_updates evs = (if onScore before_clear then [score before_clear + 10 * 1] else [])
    /\ attack_units evs =
       (if onLinesCleared before_clear then score g' / 100 - score before_clear / 100 else 0).
Proof.
  apply (sweep_scores_once before_clear createBoard 1).
  - vm_compute. reflexivity.
  - lia.
Defined.

(** The score going from 180 to 220 in one sweep: one update, one unit
    at the 100 threshold of the engine, and one garbage line at the 200
    threshold of the score callback. *)
Example sweep_from_180_to_220 :
  events_of (arenaSweep before_tetris) = [EvScore 220; EvLinesCleared 1]
  /\ scoreCallback true 200 180 220 = (220, [ShowScore 220; SendScore 220; SendGarbage 1]).
Proof. split; vm_compute; reflexivity. Qed.

(** The count the sweep returns is the number of rows it removed: the
    full rows below row 0, and row 0 if it is full and was not alone. *)
Lemma sweep_count (b : matrix) :
  Forall (fun r => r <> []) b ->
  exists b', sweep b = Ok (b', snd (sweep_result b)) /\ length b' = length b.
Proof.
  intros Hb. rewrite (sweep_total b Hb). exists (fst (sweep_result b)).
  split; [now destruct (sweep_result b)|].
  destruct b as [|top rest]; [reflexivity|]. unfold sweep_result.
  assert (Hlen : (length (List.filter row_full rest)
                  + length (List.filter (fun row => negb (row_full row)) rest)
                  = length rest)%nat).
  { clear. induction rest as [|r rest IH]; [reflexivity|].
    cbn [List.filter]. destruct (row_full r); cbn [negb length]; lia. }
  destruct (negb _ && row_full top); cbn [fst length];
    rewrite length_app, length_map; cbn [length]; lia.
Qed.

(** ** The callbacks of a locking drop *)

(** The sweep touches the board and the score only, and fires nothing
    but its own two callbacks. *)
Lemma arenaSweep_frame (g g1 : game) (evs : list event) :
  arenaSweep g = Ok (g1, evs) ->
  Forall sweep_event evs
  /\ piece g1 = piece g /\ nextPiece g1 = nextPiece g /\ pos g1 = pos g
  /\ gameOver g1 = gameOver g
  /\ onGameOver g1 = onGameOver g /\ onBoardUpdate g1 = onBoardUpdate g
  /\ onNextPiece g1 = onNextPiece g.
Proof.
  unfold arenaSweep. destruct (sweep (board g)) as [[b k]| | |]; cbn [obind]; try discriminate.
  destruct (0 <? k); intros [= <- <-]; cbn.
  - split; [|repeat split].
    apply Forall_app. split.
    + destruct (onScore g); cbn; repeat constructor.
    + destruct (0 <? _); [destruct (onLinesCleared g)|]; cbn; repeat constructor.
  - repeat split. constructor.
Qed.

(** What the sweep fires is settled by the number of rows it removed. *)
Lemma arenaSweep_events (g g1 : game) (evs : list event) :
  arenaSweep g = Ok (g1, evs) ->
  exists rows,
    sweep (board g) = Ok (board g1, rows)
    /\ score g1 = (if 0 <? rows then score g + rows * 10 else score g)
    /\ evs = (if 0 <? rows
              then fire (onScore g) (EvScore (score g1))
                   ++ (if 0 <? score g1 / 100 - score g / 100
                       then fire (onLinesCleared g)
                              (EvLinesCleared (score g1 / 100 - score g / 100))
                       else [])
              else []).
Proof.
  unfold arenaSweep. destruct (sweep (board g)) as [[b k]| | |]; cbn [obind]; try discriminate.
  destruct (0 <? k) eqn:Ek; intros [= <- <-]; exists k; rewrite Ek; cbn; auto.
Qed.

(** C4, as the source has it.  When [drop] locks the piece, it merges the
    piece where it stands and sweeps the board ([rows] is the number of
    rows the sweep removed); if the sweep removed at least one row the
    score callback comes first, with the new score,
    followed by the lines-cleared callback if the score crossed a
    multiple of 100, and if it removed none neither is fired; then comes
    next-piece, then game-over if the piece just spawned collides, and
    board-changed comes last; each is fired only if its listener is
    registered. *)
Theorem lock_event_order (r : Q) (g g' : game) (p : matrix) (evs : list event) :
  piece g = Some p ->
  collide (board g) p (Pos (px (pos g)) (py (pos g) + 1)) = true ->
  drop r g = Ok (g', evs) ->
  exists merged rows n q,
    merge (board g) p (pos g) = Ok merged
    /\ sweep merged = Ok (board g', rows)
    /\ (Forall (fun row => row <> []) merged -> sweep_result merged = (board g', rows))
    /\ score g' = (if 0 <? rows then score g + rows * 10 else score g)
    /\ nextPiece g' = Some n /\ piece g' = Some q
    /\ evs = (if 0 <? rows
              then fire (onScore g) (EvScore (score g'))
                   ++ (if 0 <? score g' / 100 - score g / 100
                       then fire (onLinesCleared g)
                              (EvLinesCleared (score g' / 100 - score g / 100))
                       else [])
              else [])
             ++ fire (onNextPiece g) (EvNextPiece n)
             ++ (if collide (board g') q spawn then fire (onGameOver g) EvGameOver else [])
             ++ fire (onBoardUpdate g) (EvBoardUpdate (board g')).
Proof.
  intros Hp Hhit. unfold drop.
  cbn [piece set_pos pos px py board]. rewrite Hp. cbn [deref obind]. rewrite Hhit.
  replace (Pos (px (pos g)) (py (pos g) + 1 - 1)) with (pos g)
    by (destruct (pos g); cbn [px py]; f_equal; lia).
  destruct (merge _ _ _) as [b| | |] eqn:Emerge; cbn [obind]; try discriminate.
  destruct (arenaSweep _) as [[g1 evs1]| | |] eqn:Esweep; cbn [obind]; try discriminate.
  pose proof (arenaSweep_frame _ _ _ Esweep)
    as (_ & Hpc & Hnx & Hps & Hgo & Hcb1 & Hcb2 & Hcb3).
  apply arenaSweep_events in Esweep as (rows & Hsweep & Hscore & ->).
  assert (Hres : Forall (fun row => row <> []) b -> sweep_result b = (board g1, rows)).
  { intros Hrows. cbn [board set_board] in Hsweep.
    rewrite (sweep_total b Hrows) in Hsweep. now injection Hsweep. }
  cbn in Hpc, Hnx, Hps, Hgo, Hcb1, Hcb2, Hcb3, Hsweep, Hscore.
  destruct (randomPiece r) as [n| | |]; cbn [obind]; try discriminate.
  cbn [piece set_piece set_nextPiece set_pos nextPiece].
  destruct (nextPiece g1) as [q|] eqn:Eq; cbn [deref obind]; try discriminate.
  cbn [board set_nextPiece set_piece].
  destruct (collide (board g1) q spawn) eqn:Espawn; cbn [obind]; intros [= <- <-];
    exists b, rows, n, q; cbn; rewrite ?Espawn, ?Hcb1, ?Hcb2, ?Hcb3;
    (split; [reflexivity | split; [exact Hsweep | split; [exact Hres |
       split; [exact Hscore | split; [reflexivity | split; reflexivity]]]]]).
Qed.

Lemma lock_event_order_witness :
  exists g',
    drop 0 clearing_lock
    = Ok (g', [EvScore 105; EvLinesCleared 1;
               EvNextPiece [[0; 1; 0]; [1; 1; 1]; [0; 0; 0]]; EvGameOver;
               EvBoardUpdate board_after_clearing_lock])
    /\ exists merged rows n q,
         merge (board clearing_lock) [[2; 2]; [2; 2]] (pos clearing_lock) = Ok merged
         /\ sweep merged = Ok (board g', rows)
         /\ (Forall (fun row => row <> []) merged ->
             sweep_result merged = (board g', rows))
         /\ score g' = (if 0 <? rows then score clearing_lock + rows * 10
                        else score clearing_lock)
         /\ nextPiece g' = Some n /\ piece g' = Some q
         /\ [EvScore 105; EvLinesCleared 1;
             EvNextPiece [[0; 1; 0]; [1; 1; 1]; [0; 0; 0]]; EvGameOver;
             EvBoardUpdate board_after_clearing_lock]
            = (if 0 <? rows
               then fire (onScore clearing_lock) (EvScore (score g'))
                    ++ (if 0 <? score g' / 100 - score clearing_lock / 100
                        then fire (onLinesCleared clearing_lock)
                               (EvLinesCleared (score g' / 100 - score clearing_lock / 100))
                        else [])
               else [])
              ++ fire (onNextPiece clearing_lock) (EvNextPiece n)
              ++ (if collide (board g') q spawn
                  then fire (onGameOver clearing_lock) EvGameOver else [])
              ++ fire (onBoardUpdate clearing_lock) (EvBoardUpdate (board g')).
Proof.
  eexists. split.
  - vm_compute. reflexivity.
  - apply (lock_event_order 0 clearing_lock _ [[2; 2]; [2; 2]]).
    + reflexivity.
    + vm_compute. reflexivity.
    + vm_compute. reflexivity.
Defined.

(** C4 as the design document words it fails: on [about_to_top_out] the
    game-over callback runs before the board callback. *)
Lemma game_over_precedes_board_update :
  events_of (drop 0 about_to_top_out) =
    [EvNextPiece [[0; 1; 0]; [1; 1; 1]; [0; 0; 0]]; EvGameOver;
     EvBoardUpdate board_after_top_out]
  /\ ~ documented_order (events_of (drop 0 about_to_top_out)).
Proof.
  assert (E : events_of (drop 0 about_to_top_out) =
              [EvNextPiece [[0; 1; 0]; [1; 1; 1]; [0; 0; 0]]; EvGameOver;
               EvBoardUpdate board_after_top_out])
    by (vm_compute; reflexivity).
  split; [exact E|]. rewrite E. intros (n & b & [H|H]); discriminate H.
Qed.

(** ** Collision and merge *)

Lemma cell_in_bounds (b : matrix) (r c v : Z) : cell b r c = Some v -> in_bounds b r c.
Proof.
  unfold cell, in_bounds. destruct (lookupZ b r) as [row|] eqn:E; [|discriminate].
  intros H. exists row. split; [reflexivity|]. apply lookupZ_Some in H. lia.
Qed.

Lemma cell_None_iff (b : matrix) (r c : Z) : cell b r c = None <-> ~ in_bounds b r c.
Proof.
  unfold cell, in_bounds. destruct (lookupZ b r) as [row|] eqn:E.
  - rewrite lookupZ_None. split.
    + intros H (row' & [= <-] & Hc). lia.
    + intros H. destruct (Z.ltb_spec c 0); [now left|].
      destruct (Z.leb_spec (Z.of_nat (length row)) c); [now right|].
      exfalso. apply H. exists row. split; [reflexivity | lia].
  - split; [|reflexivity]. intros _ (row & [=] & _).
Qed.

Lemma in_bounds_shape (b : matrix) (r c : Z) :
  in_bounds b r c <->
  exists n, lookupZ (map length b) r = Some n /\ 0 <= c < Z.of_nat n.
Proof.
  unfold in_bounds, lookupZ. destruct (r <? 0).
  - split; intros (x & [=] & _).
  - change (map length b) with (length <$> b). rewrite list_lookup_fmap. split.
    + intros (row & -> & Hc). now exists (length row).
    + destruct (b !! Z.to_nat r) as [row|]; cbn; intros (n & [= <-] & Hc).
      now exists row.
Qed.

Lemma in_bounds_same_shape (b b' : matrix) (r c : Z) :
  map length b' = map length b -> in_bounds b r c -> in_bounds b' r c.
Proof. intros E. rewrite !in_bounds_shape, E. trivial. Qed.

Section Scan.
Variable b : matrix.
Variable off : position.

Lemma collide_row_true (row : list Z) : forall y x,
  collide_row b off y x row = true <->
  exists i v, row !! i = Some v /\ v <> 0
              /\ blocked b (y + py off) (x + Z.of_nat i + px off) = true.
Proof.
  induction row as [|v0 row IH]; intros y x; cbn [collide_row].
  - split; [discriminate|]. intros (i & v & H & _). now rewrite lookup_nil in H.
  - rewrite orb_true_iff, andb_true_iff, negb_true_iff, Z.eqb_neq, IH. split.
    + intros [[Hv Hb]|(i & v & Hi & Hv & Hb)].
      * exists 0%nat, v0. rewrite Z.add_0_r. auto.
      * exists (S i), v. replace (x + Z.of_nat (S i)) with (x + 1 + Z.of_nat i) by lia. auto.
    + intros ([|i] & v & Hi & Hv & Hb).
      * injection Hi as ->. rewrite Z.add_0_r in Hb. auto.
      * right. exists i, v. replace (x + 1 + Z.of_nat i) with (x + Z.of_nat (S i)) by lia.
        auto.
Qed.

Lemma collide_rows_true (p : matrix) : forall y,
  collide_rows b off y p = true <->
  exists j i row v, p !! j = Some row /\ row !! i = Some v /\ v <> 0
    /\ blocked b (y + Z.of_nat j + py off) (Z.of_nat i + px off) = true.
Proof.
  induction p as [|row0 p IH]; intros y; cbn [collide_rows].
  - split; [discriminate|]. intros (j & i & row & v & H & _). now rewrite lookup_nil in H.
  - rewrite orb_true_iff, collide_row_true, IH. split.
    + intros [(i & v & Hi & Hv & Hb)|(j & i & row & v & Hj & Hi & Hv & Hb)].
      * exists 0%nat, i, row0, v. rewrite Z.add_0_r. auto.
      * exists (S j), i, row, v.
        replace (y + Z.of_nat (S j)) with (y + 1 + Z.of_nat j) by lia. auto.
    + intros ([|j] & i & row & v & Hj & Hi & Hv & Hb).
      * injection Hj as ->. left. exists i, v. rewrite Z.add_0_r in Hb. auto.
      * right. exists j, i, row, v.
        replace (y + 1 + Z.of_nat j) with (y + Z.of_nat (S j)) by lia. auto.
Qed.
End Scan.

(** [collide] answers [true] exactly when some nonzero cell of the piece
    lands on a cell that is missing or occupied. *)
Lemma collide_true (b : matrix) (p : matrix) (off : position) :
  collide b p off = true <->
  exists j i row v, p !! j = Some row /\ row !! i = Some v /\ v <> 0
    /\ blocked b (Z.of_nat j + py off) (Z.of_nat i + px off) = true.
Proof. unfold collide. now rewrite collide_rows_true. Qed.

Lemma write_in_bounds (b : matrix) (r c v : Z) :
  in_bounds b r c ->
  exists b', write b r c v = Ok b'
    /\ map length b' = map length b
    /\ cell b' r c = Some v
    /\ forall r' c', (r', c') <> (r, c) -> cell b' r' c' = cell b r' c'.
Proof.
  intros (row & Hr & Hc). unfold write. rewrite Hr.
  destruct (Z.leb_spec 0 c); [|lia]. destruct (Z.ltb_spec c (Z.of_nat (length row))); [|lia].
  cbn [andb]. eexists. split; [reflexivity|].
  apply lookupZ_Some in Hr as [Hr0 Hr].
  assert (Hrl : (Z.to_nat r < length b)%nat) by lia.
  split; [|split].
  - apply list_eq. intros i. change (map length ?l) with (length <$> l).
    rewrite !list_lookup_fmap.
    destruct (decide (i = Z.to_nat r)) as [->|Hne].
    + rewrite list_lookup_insert_eq by exact Hrl. rewrite Hr. cbn.
      now rewrite length_insert.
    + now rewrite list_lookup_insert_ne by congruence.
  - unfold cell, lookupZ. destruct (Z.ltb_spec r 0); [lia|].
    rewrite list_lookup_insert_eq by exact Hrl.
    destruct (Z.ltb_spec c 0); [lia|].
    apply list_lookup_insert_eq. lia.
  - intros r' c' Hne. unfold cell, lookupZ.
    destruct (Z.ltb_spec r' 0); [reflexivity|].
    destruct (decide (Z.to_nat r' = Z.to_nat r)) as [E|Hr'].
    + rewrite E, list_lookup_insert_eq, Hr by exact Hrl.
      destruct (Z.ltb_spec c' 0); [reflexivity|].
      apply list_lookup_insert_ne. intros E'.
      apply Hne. f_equal; lia.
    + now rewrite list_lookup_insert_ne by congruence.
Qed.

Section Merge.
Variable off : position.

Lemma merge_row_spec (row : list Z) : forall b y x,
  (forall i v, row !! i = Some v -> v <> 0 ->
     in_bounds b (y + py off) (x + Z.of_nat i + px off)) ->
  exists b', merge_row b off y x row = Ok b'
    /\ map length b' = map length b
    /\ (forall i v, row !! i = Some v -> v <> 0 ->
          cell b' (y + py off) (x + Z.of_nat i + px off) = Some v)
    /\ (forall r c,
          (forall i v, row !! i = Some v -> v <> 0 ->
             (r, c) <> (y + py off, x + Z.of_nat i + px off)) ->
          cell b' r c = cell b r c).
Proof.
  induction row as [|v0 row IH]; intros b y x Hin; cbn [merge_row].
  - exists b. repeat split; try reflexivity.
    intros i v H. now rewrite lookup_nil in H.
  - assert (Hrest : forall b1, map length b1 = map length b ->
              forall i v, row !! i = Some v -> v <> 0 ->
                in_bounds b1 (y + py off) (x + 1 + Z.of_nat i + px off)).
    { intros b1 E i v Hi Hv. apply (in_bounds_same_shape b); [exact E|].
      replace (x + 1 + Z.of_nat i) with (x + Z.of_nat (S i)) by lia.
      now apply (Hin (S i) v). }
    destruct (Z.eqb_spec v0 0) as [->|Hv0]; cbn [obind].
    + destruct (IH b y (x + 1) (Hrest b eq_refl)) as (b' & E & Hs & Ha & Hb).
      exists b'. split; [exact E|]. split; [exact Hs|]. split.
      * intros [|i] v Hi Hv.
        -- injection Hi as <-. congruence.
        -- replace (x + Z.of_nat (S i)) with (x + 1 + Z.of_nat i) by lia. now apply Ha.
      * intros r c Hrc. apply Hb. intros i v Hi Hv.
        replace (x + 1 + Z.of_nat i) with (x + Z.of_nat (S i)) by lia.
        now apply (Hrc (S i) v).
    + destruct (write_in_bounds b (y + py off) (x + px off) v0)
        as (b1 & -> & Hs1 & Hc1 & Ho1).
      { specialize (Hin 0%nat v0 eq_refl Hv0). now rewrite Z.add_0_r in Hin. }
      cbn [obind].
      destruct (IH b1 y (x + 1) (Hrest b1 Hs1)) as (b' & E & Hs & Ha & Hb).
      exists b'. split; [exact E|]. split; [congruence|]. split.
      * intros [|i] v Hi Hv.
        -- injection Hi as <-. rewrite Z.add_0_r, Hb; [exact Hc1|].
           intros i v' _ _ [= E']. lia.
        -- replace (x + Z.of_nat (S i)) with (x + 1 + Z.of_nat i) by lia. now apply Ha.
      * intros r c Hrc. rewrite Hb.
        -- apply Ho1. specialize (Hrc 0%nat v0 eq_refl Hv0).
           now rewrite Z.add_0_r in Hrc.
        -- intros i v Hi Hv.
           replace (x + 1 + Z.of_nat i) with (x + Z.of_nat (S i)) by lia.
           now apply (Hrc (S i) v).
Qed.

Lemma merge_rows_spec (p : matrix) : forall b y,
  (forall j i row v, p !! j = Some row -> row !! i = Some v -> v <> 0 ->
     in_bounds b (y + Z.of_nat j + py off) (Z.of_nat i + px off)) ->
  exists b', merge_rows b off y p = Ok b'
    /\ map length b' = map length b
    /\ (forall j i row v, p !! j = Some row -> row !! i = Some v -> v <> 0 ->
          cell b' (y + Z.of_nat j + py off) (Z.of_nat i + px off) = Some v)
    /\ (forall r c,
          (forall j i row v, p !! j = Some row -> row !! i = Some v -> v <> 0 ->
             (r, c) <> (y + Z.of_nat j + py off, Z.of_nat i + px off)) ->
          cell b' r c = cell b r c).
Proof.
  induction p as [|row0 p IH]; intros b y Hin; cbn [merge_rows].
  - exists b. repeat split; try reflexivity.
    intros j i row v H. now rewrite lookup_nil in H.
  - destruct (merge_row_spec row0 b y 0) as (b1 & -> & Hs1 & Ha1 & Hb1).
    { intros i v Hi Hv. specialize (Hin 0%nat i row0 v eq_refl Hi Hv).
      now rewrite Z.add_0_r in Hin. }
    cbn [obind].
    destruct (IH b1 (y + 1)) as (b' & E & Hs & Ha & Hb).
    { intros j i row v Hj Hi Hv. apply (in_bounds_same_shape b); [exact Hs1|].
      replace (y + 1 + Z.of_nat j) with (y + Z.of_nat (S j)) by lia.
      now apply (Hin (S j) i row v). }
    exists b'. split; [exact E|]. split; [congruence|]. split.
    + intros [|j] i row v Hj Hi Hv.
      * injection Hj as <-. rewrite Z.add_0_r, Hb; [now apply (Ha1 i v)|].
        intros j i' row' v' _ _ _ [= E' _]. lia.
      * replace (y + Z.of_nat (S j)) with (y + 1 + Z.of_nat j) by lia.
        now apply (Ha j i row v).
    + intros r c Hrc. rewrite Hb.
      * apply Hb1. intros i v Hi Hv.
        specialize (Hrc 0%nat i row0 v eq_refl Hi Hv). now rewrite Z.add_0_r in Hrc.
      * intros j i row v Hj Hi Hv.
        replace (y + 1 + Z.of_nat j) with (y + Z.of_nat (S j)) by lia.
        now apply (Hrc (S j) i row v).
Qed.
End Merge.

(** Where [collide] answered [false], [merge] returns a board of the
    same shape that holds every nonzero cell of the piece. *)
Lemma merge_where_free (b : matrix) (p : matrix) (off : position) :
  collide b p off = false ->
  exists b', merge b p off = Ok b'
    /\ map length b' = map length b
    /\ forall j i row v,
         p !! j = Some row -> row !! i = Some v -> v <> 0 ->
         in_bounds b (Z.of_nat j + py off) (Z.of_nat i + px off)
         /\ cell b' (Z.of_nat j + py off) (Z.of_nat i + px off) = Some v.
Proof.
  intros Hfree.
  assert (Hin : forall j i row v,
            p !! j = Some row -> row !! i = Some v -> v <> 0 ->
            in_bounds b (0 + Z.of_nat j + py off) (Z.of_nat i + px off)).
  { intros j i row v Hj Hi Hv. rewrite Z.add_0_l.
    destruct (cell b (Z.of_nat j + py off) (Z.of_nat i + px off)) as [w|] eqn:Ec.
    - now apply cell_in_bounds in Ec.
    - exfalso. apply not_true_iff_false in Hfree. apply Hfree, collide_true.
      exists j, i, row, v. repeat split; try assumption.
      unfold blocked. now rewrite Ec. }
  destruct (merge_rows_spec off p b 0 Hin) as (b' & E & Hs & Ha & _).
  exists b'. split; [exact E|]. split; [exact Hs|].
  intros j i row v Hj Hi Hv. split.
  - specialize (Hin j i row v Hj Hi Hv). now rewrite Z.add_0_l in Hin.
  - specialize (Ha j i row v Hj Hi Hv). now rewrite Z.add_0_l in Ha.
Qed.

(** ** A drop returns *)

Lemma same_shape_rows (b b' : matrix) :
  map length b' = map length b ->
  Forall (fun r => r <> []) b -> Forall (fun r => r <> []) b'.
Proof.
  revert b. induction b' as [|r' b' IH]; intros [|r b] E Hb; try discriminate; [constructor|].
  injection E as E1 E2. apply Forall_cons in Hb as [Hr Hb]. apply Forall_cons. split.
  - destruct r'; [destruct r; [congruence|discriminate]|discriminate].
  - now apply (IH b).
Qed.

(** From a state whose piece sits where it does not collide, on a board
    with no empty row, with a next piece queued and a proper draw, [drop]
    returns: either the piece moved down, or it locked. *)
Lemma drop_returns (r : Q) (g : game) (p q : matrix) :
  piece g = Some p -> nextPiece g = Some q ->
  collide (board g) p (pos g) = false ->
  Forall (fun row => row <> []) (board g) ->
  (0 <= r)%Q -> (r < 1)%Q ->
  exists g' evs, drop r g = Ok (g', evs).
Proof.
  intros Hp Hq Hfree Hrows Hlo Hhi. unfold drop.
  cbn [piece set_pos pos px py board]. rewrite Hp. cbn [deref obind].
  destruct (collide (board g) p (Pos (px (pos g)) (py (pos g) + 1)));
    [|cbn [obind]; eexists _, _; reflexivity].
  replace (Pos (px (pos g)) (py (pos g) + 1 - 1)) with (pos g)
    by (destruct (pos g); cbn; f_equal; lia).
  destruct (merge_where_free _ _ _ Hfree) as (b' & -> & Hshape & _). cbn [obind].
  pose proof (same_shape_rows _ _ Hshape Hrows) as Hrows'.
  unfold arenaSweep. cbn [board set_board]. rewrite (sweep_total b' Hrows').
  destruct (sweep_result b') as [b'' k]. cbn [obind].
  destruct (randomPiece_total r Hlo Hhi) as (n & -> & _).
  destruct (0 <? k); cbn [obind piece set_piece set_nextPiece set_pos nextPiece
                                set_board set_score];
    rewrite Hq; cbn [deref obind];
    match goal with |- context [if ?c then _ else _] => destruct c end;
    cbn [obind]; eexists _, _; reflexivity.
Qed.

(** ** Quarter turns of a square matrix *)

Lemma for_each_app {S : Type} (body : nat -> S -> outcome S) (l1 l2 : list nat) (s : S) :
  for_each body (l1 ++ l2) s = do s' <- for_each body l1 s; for_each body l2 s'.
Proof.
  revert s. induction l1 as [|i l1 IH]; intros s; cbn [for_each app obind].
  - reflexivity.
  - destruct (body i s); cbn [obind]; auto.
Qed.

Lemma lookup_tab_row (n : nat) (g : nat -> Z) (j : nat) :
  (j < n)%nat -> map g (seq 0 n) !! j = Some (g j).
Proof.
  intros Hj. change (map g (seq 0 n)) with (g <$> seq 0 n).
  rewrite list_lookup_fmap, lookup_seq_lt by exact Hj. reflexivity.
Qed.

Lemma lookup_tab (n : nat) (f : nat -> nat -> Z) (i : nat) :
  (i < n)%nat -> tab n f !! i = Some (map (fun j => f i j) (seq 0 n)).
Proof.
  intros Hi. unfold tab.
  change (map ?g (seq 0 n)) with (g <$> seq 0 n) at 1.
  rewrite list_lookup_fmap, lookup_seq_lt by exact Hi. reflexivity.
Qed.

Lemma length_tab (n : nat) (f : nat -> nat -> Z) : length (tab n f) = n.
Proof. unfold tab. now rewrite length_map, length_seq. Qed.

Lemma at2_tab (n : nat) (f : nat -> nat -> Z) (i j : nat) :
  (i < n)%nat -> (j < n)%nat -> at2 (tab n f) i j = Some (f i j).
Proof.
  intros Hi Hj. unfold at2. rewrite lookup_tab by exact Hi.
  now apply (lookup_tab_row n (fun j => f i j)).
Qed.

Lemma tab_ext (n : nat) (f g : nat -> nat -> Z) :
  (forall i j, (i < n)%nat -> (j < n)%nat -> f i j = g i j) -> tab n f = tab n g.
Proof.
  intros H. unfold tab. apply map_ext_in. intros i Hi. apply in_seq in Hi.
  apply map_ext_in. intros j Hj. apply in_seq in Hj. apply H; lia.
Qed.

Lemma square_tab (n : nat) (m : matrix) : square n m -> m = tab n (get m).
Proof.
  intros [Hlen Hrows]. apply list_eq. intros i.
  destruct (Nat.lt_ge_cases i n) as [Hi|Hi].
  - rewrite lookup_tab by exact Hi.
    destruct (lookup_lt_is_Some_2 m i) as [row Hrow]; [lia|].
    rewrite Hrow. f_equal. rewrite Forall_lookup in Hrows.
    specialize (Hrows i row Hrow). apply list_eq. intros j.
    destruct (Nat.lt_ge_cases j n) as [Hj|Hj].
    + rewrite (lookup_tab_row n (fun j => get m i j)) by exact Hj.
      unfold get, at2. rewrite Hrow.
      destruct (lookup_lt_is_Some_2 row j) as [v Hv]; [lia|]. now rewrite Hv.
    + rewrite !lookup_ge_None_2; [reflexivity | rewrite length_map, length_seq; lia | lia].
  - rewrite !lookup_ge_None_2; [reflexivity | rewrite length_tab; lia | lia].
Qed.

Lemma tab_square (n : nat) (f : nat -> nat -> Z) : square n (tab n f).
Proof.
  split; [apply length_tab|]. apply Forall_forall. intros row Hrow.
  unfold tab in Hrow. apply list_elem_of_In, in_map_iff in Hrow as (i & <- & _).
  now rewrite length_map, length_seq.
Qed.

Lemma set2_tab (n : nat) (f : nat -> nat -> Z) (x y : nat) (v : Z) :
  (x < n)%nat -> (y < n)%nat ->
  set2 (tab n f) x y v =
  tab n (fun i j => if (i =? x)%nat && (j =? y)%nat then v else f i j).
Proof.
  intros Hx Hy. unfold set2. apply list_eq. intros i.
  destruct (Nat.lt_ge_cases i n) as [Hi|Hi].
  - rewrite lookup_tab by exact Hi.
    destruct (decide (i = x)) as [->|Hne].
    + rewrite list_lookup_alter_eq, lookup_tab by exact Hx. cbn. f_equal.
      apply list_eq. intros j.
      destruct (Nat.lt_ge_cases j n) as [Hj|Hj].
      * rewrite (lookup_tab_row n _ j Hj). rewrite Nat.eqb_refl. cbn [andb].
        destruct (decide (j = y)) as [->|Hjy].
        -- rewrite Nat.eqb_refl. apply list_lookup_insert_eq.
           rewrite length_map, length_seq. exact Hy.
        -- rewrite list_lookup_insert_ne by congruence.
           rewrite (lookup_tab_row n _ j Hj).
           destruct (Nat.eqb_spec j y); [contradiction|reflexivity].
      * rewrite !lookup_ge_None_2; [reflexivity | | ];
          rewrite ?length_insert, length_map, length_seq; lia.
    + rewrite list_lookup_alter_ne, lookup_tab by congruence || exact Hi.
      f_equal. apply map_ext. intros j.
      destruct (Nat.eqb_spec i x); [contradiction|reflexivity].
  - rewrite !lookup_ge_None_2; [reflexivity | | ];
      rewrite ?length_alter, length_tab; lia.
Qed.

Lemma swap_cells_tab (n : nat) (f : nat -> nat -> Z) (x y : nat) :
  (x < n)%nat -> (y < n)%nat ->
  swap_cells (tab n f) x y =
  Ok (tab n (fun i j => if (i =? y)%nat && (j =? x)%nat then f x y
                        else if (i =? x)%nat && (j =? y)%nat then f y x
                        else f i j)).
Proof.
  intros Hx Hy. unfold swap_cells. rewrite !at2_tab by assumption.
  now rewrite !set2_tab by assumption.
Qed.

(** Case analysis on the index tests of a goal. *)
Ltac nat_cases :=
  repeat match goal with
    | |- context [(?a =? ?b)%nat] =>
        destruct (Nat.eqb_spec a b); subst; cbn [andb]; try lia
    | |- context [(?a <? ?b)%nat] =>
        destruct (Nat.ltb_spec a b); cbn [andb]; try lia
    end;
  try reflexivity.

(** The inner loop at row [y], after the columns before [k]. *)
Lemma transpose_inner_tab (n y : nat) (f : nat -> nat -> Z) (k : nat) :
  (k <= y)%nat -> (y < n)%nat ->
  for_each (fun x m => swap_cells m x y) (seq 0 k) (tab n f) =
  Ok (tab n (fun i j => if (i =? y)%nat && (j <? k)%nat then f j y
                        else if (j =? y)%nat && (i <? k)%nat then f y i
                        else f i j)).
Proof.
  induction k as [|k IH]; intros Hk Hy.
  - cbn [seq for_each]. f_equal. apply tab_ext. intros i j _ _.
    rewrite andb_false_r. now destruct (j =? y)%nat.
  - rewrite seq_S, for_each_app, IH by lia. cbn [obind Nat.add for_each].
    rewrite swap_cells_tab by lia. cbn [obind]. f_equal. apply tab_ext. intros i j Hi Hj.
    nat_cases.
Qed.

(** The outer loop, after the rows before [k]. *)
Lemma transpose_outer_tab (n : nat) (f : nat -> nat -> Z) (k : nat) :
  (k <= n)%nat ->
  for_each (fun y m1 => for_each (fun x m2 => swap_cells m2 x y) (seq 0 y) m1)
           (seq 0 k) (tab n f) =
  Ok (tab n (fun i j => if (i <? k)%nat && (j <? k)%nat then f j i else f i j)).
Proof.
  induction k as [|k IH]; intros Hk.
  - cbn [seq for_each]. f_equal.
  - rewrite seq_S, for_each_app, IH by lia. cbn [obind Nat.add for_each].
    rewrite transpose_inner_tab by lia. cbn [obind]. f_equal. apply tab_ext. intros i j Hi Hj.
    nat_cases.
Qed.

Lemma transpose_tab (n : nat) (f : nat -> nat -> Z) :
  transpose_in_place (tab n f) = Ok (tab n (fun i j => f j i)).
Proof.
  unfold transpose_in_place. rewrite length_tab, transpose_outer_tab by lia.
  f_equal. apply tab_ext. intros i j Hi Hj.
  destruct (Nat.ltb_spec i n), (Nat.ltb_spec j n); cbn [andb]; try lia; reflexivity.
Qed.

Lemma reverse_tab_row (n : nat) (g : nat -> Z) :
  reverse (map g (seq 0 n)) = map (fun j => g (n - 1 - j)%nat) (seq 0 n).
Proof.
  apply list_eq. intros j. destruct (Nat.lt_ge_cases j n) as [Hj|Hj].
  - rewrite reverse_lookup by (rewrite length_map, length_seq; exact Hj).
    rewrite length_map, length_seq.
    rewrite (lookup_tab_row n g) by lia.
    rewrite (lookup_tab_row n (fun j => g (n - 1 - j)%nat)) by exact Hj.
    replace (n - S j)%nat with (n - 1 - j)%nat by lia. reflexivity.
  - rewrite !lookup_ge_None_2; [reflexivity | | ];
      rewrite ?length_reverse, length_map, length_seq; lia.
Qed.

Lemma map_reverse_tab (n : nat) (f : nat -> nat -> Z) :
  map (@reverse Z) (tab n f) = tab n (fun i j => f i (n - 1 - j)%nat).
Proof.
  unfold tab. rewrite map_map. apply map_ext. intros i.
  apply (reverse_tab_row n (fun j => f i j)).
Qed.

Lemma reverse_tab (n : nat) (f : nat -> nat -> Z) :
  reverse (tab n f) = tab n (fun i j => f (n - 1 - i)%nat j).
Proof.
  apply list_eq. intros i. destruct (Nat.lt_ge_cases i n) as [Hi|Hi].
  - rewrite reverse_lookup by (rewrite length_tab; exact Hi).
    rewrite length_tab, !lookup_tab by lia.
    replace (n - S i)%nat with (n - 1 - i)%nat by lia. reflexivity.
  - rewrite !lookup_ge_None_2; [reflexivity | | ];
      rewrite ?length_reverse, length_tab; lia.
Qed.

Lemma rotate_tab (n : nat) (f : nat -> nat -> Z) (dir : Z) :
  _rotateMatrix (tab n f) dir =
  Ok (tab n (if 0 <? dir then fun i j => f (n - 1 - j)%nat i
             else fun i j => f j (n - 1 - i)%nat)).
Proof.
  unfold _rotateMatrix. rewrite transpose_tab. cbn [obind].
  destruct (0 <? dir); [now rewrite map_reverse_tab | now rewrite reverse_tab].
Qed.

(** A quarter turn of a square matrix returns a square matrix, and the
    opposite quarter turn brings the first one back. *)
Lemma rotate_back (n : nat) (m : matrix) (dir : Z) :
  square n m -> dir <> 0 ->
  exists r, _rotateMatrix m dir = Ok r /\ square n r /\ _rotateMatrix r (- dir) = Ok m.
Proof.
  intros Hsq Hdir. pose proof (square_tab n m Hsq) as E.
  set (f := get m) in E. clearbody f. subst m. rewrite rotate_tab.
  eexists. split; [reflexivity|]. split; [apply tab_square|].
  rewrite rotate_tab. f_equal. apply tab_ext. intros i j Hi Hj.
  destruct (Z.ltb_spec 0 dir), (Z.ltb_spec 0 (- dir)); try lia; f_equal; lia.
Qed.

(** Every shape of the table is square. *)
Lemma pieces_square : Forall (fun p => square (length p) p) PIECES.
Proof. repeat constructor. Qed.

(** ** The wall kick *)

Lemma set_pos_piece_eta (g : game) (p : matrix) :
  piece g = Some p ->
  set_pos (Pos (px (pos g)) (py (pos g))) (set_piece (Some p) g) = g.
Proof. destruct g as [? ? ? ? ? ? [x y] ? ? ? ? ? ? ?]. cbn. now intros ->. Qed.

Section Kick.
Variables (n : nat) (r p0 : matrix) (dir x0 : Z).
Hypothesis n_pos : (1 <= n)%nat.
Hypothesis r_width : width r = Ok (Z.of_nat n).
Hypothesis r_back : _rotateMatrix r (- dir) = Ok p0.

Lemma kick_spec (fuel : nat) : forall o g,
  kick_inv n x0 o (px (pos g)) ->
  Z.of_nat n + 2 - Z.abs o <= Z.of_nat fuel ->
  exists g', kick fuel dir x0 r o g = Ok g'
    /\ ((exists d, Z.abs d <= Z.of_nat n
           /\ g' = set_pos (Pos (x0 + d) (py (pos g))) g
           /\ collide (board g) r (Pos (x0 + d) (py (pos g))) = false)
        \/ g' = set_pos (Pos x0 (py (pos g))) (set_piece (Some p0) g)).
Proof.
  induction fuel as [|fuel IH]; intros o g Hinv Hfuel.
  - exfalso. unfold kick_inv in Hinv. lia.
  - cbn [kick]. destruct (collide (board g) r (pos g)) eqn:Ehit.
    + rewrite r_width. cbn [obind pos set_pos px py].
      set (o' := - (o + (if 0 <? o then 1 else -1))).
      destruct (Z.ltb_spec (Z.of_nat n) o') as [Hover|Hfits].
      * rewrite r_back. cbn [obind]. eexists. split; [reflexivity|]. now right.
      * destruct (IH o' (set_pos (Pos (px (pos g) + o) (py (pos g))) g))
          as (g' & E & Hres).
        { unfold kick_inv in *. cbn [pos set_pos px]. subst o'.
          destruct (Z.ltb_spec 0 o); lia. }
        { subst o'. unfold kick_inv in Hinv. destruct (Z.ltb_spec 0 o); lia. }
        exists g'. split; [exact E|]. exact Hres.
    + exists g. split; [reflexivity|]. left. exists (px (pos g) - x0). split; [|split].
      * unfold kick_inv in Hinv. lia.
      * replace (x0 + (px (pos g) - x0)) with (px (pos g)) by lia.
        now destruct g as [? ? ? ? ? ? [x y] ? ? ? ? ? ? ?].
      * replace (x0 + (px (pos g) - x0)) with (px (pos g)) by lia.
        now destruct (pos g).
Qed.
End Kick.

(** C6. With a square piece matrix and a direction other than 0,
    [rotate] returns, and either the piece is the rotated matrix, moved
    sideways by at most its width to a place where it does not collide, or
    the game is exactly as it was before the call. *)
Theorem rotate_kicks_or_reverts (g : game) (p0 : matrix) (n : nat) (dir : Z) :
  piece g = Some p0 ->
  square n p0 ->
  dir <> 0 ->
  exists g', rotate dir g = Ok g'
    /\ ((exists r d,
           _rotateMatrix p0 dir = Ok r
           /\ Z.abs d <= Z.of_nat n
           /\ g' = set_pos (Pos (px (pos g) + d) (py (pos g))) (set_piece (Some r) g)
           /\ collide (board g') r (pos g') = false)
        \/ g' = g).
Proof.
  intros Hp Hsq Hdir. unfold rotate. rewrite Hp. cbn [deref obind].
  destruct (rotate_back n p0 dir Hsq Hdir) as (r & Er & [Hlen Hrows] & Eback).
  rewrite Er. cbn [obind].
  destruct r as [|row r'].
  - cbn in Hlen. subst n. cbn. eexists. split; [reflexivity|]. left.
    exists [], 0. split; [reflexivity|]. split; [lia|]. split; [|reflexivity].
    rewrite Z.add_0_r. now destruct g as [? ? ? ? ? ? [x y] ? ? ? ? ? ? ?].
  - assert (Hw : width (row :: r') = Ok (Z.of_nat n)).
    { cbn. apply Forall_cons in Hrows as [-> _]. reflexivity. }
    assert (Hn : (1 <= n)%nat) by (cbn in Hlen; lia).
    destruct (kick_spec n (row :: r') p0 dir (px (pos g)) Hn Hw Eback
                (kick_fuel (row :: r')) 1 (set_piece (Some (row :: r')) g))
      as (g' & E & Hres).
    + left. cbn. lia.
    + unfold kick_fuel. cbn [hd]. apply Forall_cons in Hrows as [-> _]. lia.
    + exists g'. split; [exact E|]. destruct Hres as [(d & Hd & -> & Hfree) | -> ].
      * left. exists (row :: r'), d. cbn in Hfree |- *. auto.
      * right.
        transitivity (set_pos (Pos (px (pos g)) (py (pos g))) (set_piece (Some p0) g));
          [reflexivity | now apply set_pos_piece_eta].
Qed.

Lemma rotate_kicks_or_reverts_witness :
  exists g', rotate 1 about_to_top_out = Ok g'
    /\ ((exists r d,
           _rotateMatrix [[2; 2]; [2; 2]] 1 = Ok r
           /\ Z.abs d <= Z.of_nat 2
           /\ g' = set_pos (Pos (px (pos about_to_top_out) + d) (py (pos about_to_top_out)))
                           (set_piece (Some r) about_to_top_out)
           /\ collide (board g') r (pos g') = false)
        \/ g' = about_to_top_out).
Proof.
  apply (rotate_kicks_or_reverts about_to_top_out [[2; 2]; [2; 2]] 2 1).
  - reflexivity.
  - split; [reflexivity | repeat constructor].
  - discriminate.
Defined.

End TetrisFacts.

(** * Rounding to a double *)

Module DoubleFacts.

Lemma pow2_pos (e : Z) : (0 < 2 ^ e)%Q.
Proof. apply Qpower_0_lt. reflexivity. Qed.

Lemma pow2_succ (e : Z) : (2 ^ (e + 1) == 2 * 2 ^ e)%Q.
Proof. rewrite Qpower_plus by discriminate. change (2 ^ 1)%Q with 2%Q. ring. Qed.

Lemma pow2_Z (n : Z) : 0 <= n -> (2 ^ n == inject_Z (2 ^ n))%Q.
Proof. intros H. now rewrite Zpower_Qpower. Qed.

Lemma cross_lt (a b A B : Q) :
  (0 < b)%Q -> (0 < B)%Q -> (a * B < A * b)%Q -> (a / b < A / B)%Q.
Proof.
  intros Hb HB H. apply Qlt_shift_div_r; [exact Hb|].
  assert (E : (A / B * b == A * b / B)%Q) by (field; lra).
  rewrite E. apply Qlt_shift_div_l; assumption.
Qed.

Lemma binade_spec (x : Q) :
  (0 < x)%Q -> (2 ^ binade x <= x)%Q /\ (x < 2 ^ (binade x + 1))%Q.
Proof.
  intros Hx. destruct x as [a b]. unfold binade. cbn [Qnum Qden].
  assert (Ha : 0 < a) by (unfold Qlt in Hx; cbn in Hx; lia).
  set (la := Z.log2 a). set (lb := Z.log2 (Zpos b)).
  destruct (Z.log2_spec a Ha) as [Ha1 Ha2]. fold la in Ha1, Ha2.
  destruct (Z.log2_spec (Zpos b) eq_refl) as [Hb1 Hb2]. fold lb in Hb1, Hb2.
  assert (Hla : 0 <= la) by apply Z.log2_nonneg.
  assert (Hlb : 0 <= lb) by apply Z.log2_nonneg.
  rewrite Z.pow_succ_r in Ha2, Hb2 by assumption.
  assert (HA : (0 < inject_Z (2 ^ la))%Q).
  { rewrite <- pow2_Z by assumption. apply pow2_pos. }
  assert (HB : (0 < inject_Z (2 ^ lb))%Q).
  { rewrite <- pow2_Z by assumption. apply pow2_pos. }
  assert (Hbq : (0 < inject_Z (Zpos b))%Q) by reflexivity.
  assert (Ha1q : (inject_Z (2 ^ la) <= inject_Z a)%Q) by (rewrite <- Zle_Qle; exact Ha1).
  assert (Ha2q : (inject_Z a < 2 * inject_Z (2 ^ la))%Q).
  { change 2%Q with (inject_Z 2). rewrite <- inject_Z_mult, <- Zlt_Qlt. exact Ha2. }
  assert (Hb1q : (inject_Z (2 ^ lb) <= inject_Z (Zpos b))%Q)
    by (rewrite <- Zle_Qle; exact Hb1).
  assert (Hb2q : (inject_Z (Zpos b) < 2 * inject_Z (2 ^ lb))%Q).
  { change 2%Q with (inject_Z 2). rewrite <- inject_Z_mult, <- Zlt_Qlt. exact Hb2. }
  assert (E1 : (2 ^ (la - lb - 1) == inject_Z (2 ^ la) / (2 * inject_Z (2 ^ lb)))%Q).
  { replace (la - lb - 1) with (la - (lb + 1)) by lia.
    rewrite Qpower_minus by discriminate. now rewrite pow2_succ, !pow2_Z. }
  assert (E2 : (2 ^ (la - lb + 1) == 2 * inject_Z (2 ^ la) / inject_Z (2 ^ lb))%Q).
  { replace (la - lb + 1) with (la + 1 - lb) by lia.
    rewrite Qpower_minus by discriminate. now rewrite pow2_succ, !pow2_Z. }
  rewrite (Qmake_Qdiv a b) in *.
  generalize dependent (inject_Z (2 ^ la)). generalize dependent (inject_Z (2 ^ lb)).
  generalize dependent (inject_Z a). generalize dependent (inject_Z (Zpos b)).
  intros qb Hbq qa _ B HB Hb1q Hb2q A HA Ha1q Ha2q E1 E2.
  assert (Hlo : (2 ^ (la - lb - 1) < qa / qb)%Q).
  { rewrite E1. apply cross_lt; [lra | exact Hbq |].
    apply Qlt_le_trans with (A * (2 * B))%Q.
    - apply Qmult_lt_l; assumption.
    - apply Qmult_le_compat_r; lra. }
  assert (Hhi : (qa / qb < 2 ^ (la - lb + 1))%Q).
  { rewrite E2. apply cross_lt; [exact Hbq | exact HB |].
    apply Qlt_le_trans with (2 * A * B)%Q.
    - apply Qmult_lt_compat_r; assumption.
    - apply Qmult_le_l; lra. }
  destruct (Qle_bool (2 ^ (la - lb)) (qa / qb)) eqn:E.
  - apply Qle_bool_iff in E. split; assumption.
  - split.
    + apply Qlt_le_weak. exact Hlo.
    + replace (la - lb - 1 + 1) with (la - lb) by lia.
      apply Qnot_le_lt. intros H. apply Qle_bool_iff in H. congruence.
Qed.

Lemma rne_bounds (q : Q) : Qfloor q <= rne q <= Qfloor q + 1.
Proof.
  unfold rne. destruct (q - inject_Z (Qfloor q) ?= 1 # 2)%Q; [|lia|lia].
  destruct (Z.even (Qfloor q)); lia.
Qed.

Lemma rne_near (q : Q) : (inject_Z (rne q) <= q + (1 # 2))%Q.
Proof.
  pose proof (Qfloor_le q) as Hf. unfold rne.
  destruct (Qcompare_spec (q - inject_Z (Qfloor q)) (1 # 2)) as [E|E|E].
  - destruct (Z.even (Qfloor q)); [lra|]. rewrite inject_Z_plus. rewrite <- E.
    change (inject_Z 1) with 1%Q. lra.
  - lra.
  - rewrite inject_Z_plus. change (inject_Z 1) with 1%Q. lra.
Qed.

Lemma rne_le (q : Q) (M : Z) : (q <= inject_Z M)%Q -> rne q <= M.
Proof.
  intros H. pose proof (Qfloor_le q) as Hf. pose proof (Qlt_floor q) as Hc.
  assert (Hfm : Qfloor q <= M).
  { rewrite Zle_Qle. lra. }
  destruct (Z.eq_dec (Qfloor q) M) as [E|E].
  - unfold rne. rewrite E in *.
    destruct (Qcompare_spec (q - inject_Z M) (1 # 2)) as [E'|E'|E']; [lra|lia|lra].
  - pose proof (rne_bounds q). lia.
Qed.

Lemma rne_ge (q : Q) (M : Z) : (inject_Z M <= q)%Q -> M <= rne q.
Proof.
  intros H. pose proof (Qfloor_resp_le _ _ H) as Hf. rewrite Qfloor_Z in Hf.
  pose proof (rne_bounds q). lia.
Qed.

Section Nearest.

Variable x : Q.
Hypothesis Hx : (0 < x)%Q.

Let e : Z := binade x.
Let ulp : Q := (2 ^ (e - 52))%Q.

Lemma ulp_pos : (0 < ulp)%Q.
Proof. apply pow2_pos. Qed.

Lemma ulp_binade : (ulp * inject_Z (2 ^ 52) == 2 ^ e)%Q.
Proof.
  unfold ulp. rewrite <- pow2_Z by lia. rewrite <- Qpower_plus by discriminate.
  now replace (e - 52 + 52) with e by lia.
Qed.

Lemma nearest_eq : (nearest x == inject_Z (rne (x / ulp)) * ulp)%Q.
Proof. reflexivity. Qed.

Lemma nearest_binade : (2 ^ e <= nearest x)%Q.
Proof.
  rewrite nearest_eq. pose proof ulp_pos as Hu. pose proof ulp_binade as Hb.
  destruct (binade_spec x Hx) as [Hlo _]. fold e in Hlo.
  assert (Hq : (inject_Z (2 ^ 52) <= x / ulp)%Q).
  { apply Qle_shift_div_l; [exact Hu|]. rewrite Qmult_comm, Hb. exact Hlo. }
  apply rne_ge in Hq. rewrite Zle_Qle in Hq. rewrite <- Hb.
  rewrite (Qmult_comm ulp). apply Qmult_le_compat_r; [exact Hq | lra].
Qed.

Lemma nearest_pos : (0 < nearest x)%Q.
Proof.
  apply Qlt_le_trans with (2 ^ e)%Q; [apply pow2_pos | apply nearest_binade].
Qed.

Lemma nearest_above : (nearest x <= x * (1 + (1 # 2 ^ 53)))%Q.
Proof.
  rewrite nearest_eq. pose proof ulp_pos as Hu. pose proof ulp_binade as Hb.
  destruct (binade_spec x Hx) as [Hlo _]. fold e in Hlo. rewrite <- Hb in Hlo.
  pose proof (rne_near (x / ulp)) as Hn.
  apply Qle_trans with ((x / ulp + (1 # 2)) * ulp)%Q.
  - apply Qmult_le_compat_r; [exact Hn | lra].
  - assert (E : ((x / ulp + (1 # 2)) * ulp == x + (1 # 2) * ulp)%Q) by (field; lra).
    rewrite E. change (inject_Z (2 ^ 52)) with (2 ^ 52 # 1)%Q in Hlo.
    assert (E' : ((1 # 2) * ulp == ulp * (2 ^ 52 # 1) * (1 # 2 ^ 53))%Q)
      by (change (2 ^ 52 # 1)%Q with (inject_Z (2 ^ 52));
          change (1 # 2 ^ 53)%Q with ((1 # 2) * / inject_Z (2 ^ 52))%Q; field; discriminate).
    rewrite E'.
    assert (H : (ulp * (2 ^ 52 # 1) * (1 # 2 ^ 53) <= x * (1 # 2 ^ 53))%Q)
      by (apply Qmult_le_compat_r; [exact Hlo | discriminate]).
    lra.
Qed.

Lemma nearest_le_int (N : Z) :
  N < 2 ^ 53 -> (x <= inject_Z N)%Q -> (nearest x <= inject_Z N)%Q.
Proof.
  intros HN HxN. rewrite nearest_eq. pose proof ulp_pos as Hu.
  destruct (binade_spec x Hx) as [Hlo _]. fold e in Hlo.
  assert (He : e < 53).
  { apply (Qpower_lt_compat_l_inv 2); [|reflexivity].
    apply Qle_lt_trans with x; [exact Hlo|]. apply Qle_lt_trans with (inject_Z N); [exact HxN|].
    rewrite pow2_Z by lia. now rewrite <- Zlt_Qlt. }
  assert (Hk : (ulp * inject_Z (2 ^ (52 - e)) == 1)%Q).
  { unfold ulp. rewrite <- pow2_Z by lia. rewrite <- Qpower_plus by discriminate.
    now replace (e - 52 + (52 - e)) with 0 by lia. }
  assert (Hq : (x / ulp <= inject_Z (N * 2 ^ (52 - e)))%Q).
  { apply Qle_shift_div_r; [exact Hu|]. rewrite inject_Z_mult.
    rewrite <- Qmult_assoc, (Qmult_comm _ ulp), Hk. lra. }
  apply rne_le in Hq. rewrite Zle_Qle, inject_Z_mult in Hq.
  apply Qle_trans with (inject_Z N * inject_Z (2 ^ (52 - e)) * ulp)%Q.
  - apply Qmult_le_compat_r; [exact Hq | lra].
  - rewrite <- Qmult_assoc, (Qmult_comm _ ulp), Hk. lra.
Qed.

End Nearest.

Lemma double_pos (x : Q) : (0 < x)%Q -> (0 < double x)%Q.
Proof.
  intros Hx. unfold double. destruct x as [[|a|a] b]; cbn [Qnum].
  - discriminate.
  - now apply nearest_pos.
  - discriminate.
Qed.

Lemma double_nonneg (x : Q) : (0 <= x)%Q -> (0 <= double x)%Q.
Proof.
  intros Hx. unfold double. destruct x as [[|a|a] b]; cbn [Qnum].
  - discriminate.
  - apply Qlt_le_weak, nearest_pos. reflexivity.
  - exfalso. now apply Hx.
Qed.

Lemma double_nonpos (x : Q) : (x <= 0)%Q -> (double x <= 0)%Q.
Proof.
  intros Hx. unfold double. destruct x as [[|a|a] b]; cbn [Qnum].
  - discriminate.
  - exfalso. now apply Hx.
  - assert (H : (0 < nearest (- (Z.neg a # b)))%Q) by (apply nearest_pos; reflexivity).
    lra.
Qed.

(** A value that is not above an integer a double holds is not rounded
    above it. *)
Lemma double_le_int (x : Q) (N : Z) :
  0 <= N < 2 ^ 53 -> (x <= inject_Z N)%Q -> (double x <= inject_Z N)%Q.
Proof.
  intros HN Hx. destruct (Qlt_le_dec 0 x) as [Hpos|Hneg].
  - unfold double. destruct x as [[|a|a] b]; cbn [Qnum]; try discriminate.
    apply nearest_le_int; [reflexivity | lia | exact Hx].
  - apply Qle_trans with 0%Q; [now apply double_nonpos|].
    change 0%Q with (inject_Z 0). rewrite <- Zle_Qle. lia.
Qed.

(** Rounding takes a value at most [n * (1 - 2^-53)] to one below [n]. *)
Lemma double_below (x n : Q) :
  (0 <= x)%Q -> (0 < n)%Q -> (x <= n * (1 - (1 # 2 ^ 53)))%Q -> (double x < n)%Q.
Proof.
  intros Hx Hn Hle. destruct (Qlt_le_dec 0 x) as [Hpos|Hneg].
  - assert (H : (double x <= x * (1 + (1 # 2 ^ 53)))%Q).
    { unfold double. destruct x as [[|a|a] b]; cbn [Qnum]; try discriminate.
      apply nearest_above. reflexivity. }
    apply Qle_lt_trans with (x * (1 + (1 # 2 ^ 53)))%Q; [exact H|].
    apply Qle_lt_trans with (n * (1 - (1 # 2 ^ 53)) * (1 + (1 # 2 ^ 53)))%Q.
    + apply Qmult_le_compat_r; [exact Hle | discriminate].
    + rewrite <- Qmult_assoc. rewrite <- (Qmult_1_r n) at 2.
      apply Qmult_lt_l; [exact Hn | reflexivity].
  - apply Qle_lt_trans with 0%Q; [now apply double_nonpos | exact Hn].
Qed.

(** [double] against the binary64 operations of the library: the literal
    0.7, a product that is rounded up to an integer, and a difference
    that loses its last bits. *)
Example double_seven_tenths :
  (double (7 # 10) == 3152519739159347 # 4503599627370496)%Q.
Proof. apply Qeq_bool_iff. vm_compute. reflexivity. Qed.

Example double_product_binary64 :
  (double ((3002399751580331 # 4503599627370496) * 3)
   == SF2Q (SFmul 53 1024 (S754_finite false 3002399751580331 (-52))
                          (S754_finite false 3 0)))%Q
  /\ (double ((3002399751580331 # 4503599627370496) * 3) == 2)%Q.
Proof. split; apply Qeq_bool_iff; vm_compute; reflexivity. Qed.

Example double_difference_binary64 :
  (double ((5404319552844595 # 18014398509481984) - 1000)
   == SF2Q (SFsub 53 1024 (S754_finite false 5404319552844595 (-54))
                          (S754_finite false 1000 0)))%Q.
Proof. apply Qeq_bool_iff. vm_compute. reflexivity. Qed.

(** [Math.floor(Math.random() * n)] is an index below [n]. *)
Lemma double_index (r : Q) (n : nat) :
  unit_double r -> (0 < n)%nat ->
  0 <= Qfloor (double (r * inject_Z (Z.of_nat n))) < Z.of_nat n.
Proof.
  intros [Hlo Hhi] Hn.
  assert (Hnq : (0 < inject_Z (Z.of_nat n))%Q).
  { change 0%Q with (inject_Z 0). rewrite <- Zlt_Qlt. lia. }
  assert (H0 : (0 <= r * inject_Z (Z.of_nat n))%Q).
  { apply Qmult_le_0_compat; [exact Hlo | lra]. }
  pose proof (double_nonneg _ H0) as Hd0.
  assert (Hd1 : (double (r * inject_Z (Z.of_nat n)) < inject_Z (Z.of_nat n))%Q).
  { apply double_below; [exact H0 | exact Hnq |].
    rewrite (Qmult_comm (inject_Z (Z.of_nat n))). apply Qmult_le_compat_r; lra. }
  split.
  - apply Qfloor_resp_le in Hd0. exact Hd0.
  - rewrite Zlt_Qlt. eapply Qle_lt_trans; [apply Qfloor_le | exact Hd1].
Qed.

End DoubleFacts.

(** * Properties of the battle rooms *)

Module BattleFacts.
Import Battle.

Lemma lookupZ_of_nat_list {A} (l : list A) (n : nat) : lookupZ l (Z.of_nat n) = l !! n.
Proof. apply TetrisFacts.lookupZ_of_nat. Qed.

(** ** Roster lookups *)

Lemma get_player_update_eq (f : player -> player) (sid : string) (ps : list (string * player)) :
  get_player (update_player f sid ps) sid = option_map f (get_player ps sid).
Proof.
  induction ps as [|[k p] ps IH]; cbn; [reflexivity|].
  destruct (String.eqb_spec k sid) as [->|Hne]; cbn.
  - now rewrite String.eqb_refl.
  - destruct (String.eqb_spec k sid); [contradiction|exact IH].
Qed.

Lemma get_player_update_ne (f : player -> player) (sid w : string) (ps : list (string * player)) :
  w <> sid -> get_player (update_player f sid ps) w = get_player ps w.
Proof.
  intros Hne. induction ps as [|[k p] ps IH]; cbn; [reflexivity|].
  destruct (String.eqb_spec k sid) as [->|Hk]; cbn.
  - destruct (String.eqb_spec sid w); [congruence|exact IH].
  - destruct (String.eqb_spec k w); [reflexivity|exact IH].
Qed.

Lemma map_fst_update (f : player -> player) (sid : string) (ps : list (string * player)) :
  map fst (update_player f sid ps) = map fst ps.
Proof.
  unfold update_player. rewrite map_map. apply map_ext. intros [k p]. cbn.
  now destruct (String.eqb k sid).
Qed.

Lemma update_player_absent (f : player -> player) (sid : string) (ps : list (string * player)) :
  sid ∉ map fst ps -> update_player f sid ps = ps.
Proof.
  induction ps as [|[k p] ps IH]; cbn; [reflexivity|]. intros Hnot.
  apply not_elem_of_cons in Hnot as [Hne Hnot].
  destruct (String.eqb_spec k sid); [congruence|]. f_equal. now apply IH.
Qed.

(** The entry of [sid], with what stands before and after it. *)
Lemma get_player_split (ps : list (string * player)) (sid : string) (me : player) :
  get_player ps sid = Some me ->
  exists ps1 ps2, ps = ps1 ++ (sid, me) :: ps2.
Proof.
  induction ps as [|[k p] ps IH]; cbn; [discriminate|].
  destruct (String.eqb_spec k sid) as [->|Hne].
  - intros [= ->]. now exists [], ps.
  - intros H. destruct (IH H) as (ps1 & ps2 & ->). now exists ((k, p) :: ps1), ps2.
Qed.

Lemma update_player_split (f : player -> player) (sid : string) (me : player)
    (ps1 ps2 : list (string * player)) :
  NoDup (map fst (ps1 ++ (sid, me) :: ps2)) ->
  update_player f sid (ps1 ++ (sid, me) :: ps2) = ps1 ++ (sid, f me) :: ps2.
Proof.
  rewrite map_app. cbn [map fst]. intros Hnd.
  apply NoDup_app in Hnd as (_ & Hdisj & Hnd2). apply NoDup_cons in Hnd2 as [Hnot2 _].
  unfold update_player at 1. rewrite map_app. cbn [map fst snd].
  rewrite String.eqb_refl. f_equal; [|f_equal].
  - apply (update_player_absent f sid ps1). intros Hin.
    apply (Hdisj sid Hin). now left.
  - now apply (update_player_absent f sid ps2).
Qed.

(** ** The crowning of the last survivor *)

Lemma crown_split (ps : list (string * player)) :
  Exists (fun kp => alive (snd kp) = true) ps ->
  exists qs1 w pw qs2,
    ps = qs1 ++ (w, pw) :: qs2
    /\ alive pw = true
    /\ crown_first_alive ps = qs1 ++ (w, crowned pw) :: qs2.
Proof.
  induction ps as [|[k p] ps IH]; intros Hex.
  - now apply Exists_nil in Hex.
  - cbn [crown_first_alive]. destruct (alive p) eqn:Ea.
    + exists [], k, p, ps. auto.
    + apply Exists_cons in Hex as [Hex|Hex]; [cbn in Hex; congruence|].
      destruct (IH Hex) as (qs1 & w & pw & qs2 & -> & Hw & ->).
      exists ((k, p) :: qs1), w, pw, qs2. auto.
Qed.

Lemma crown_keeps_dead (ps : list (string * player)) (k : string) (p : player) :
  get_player ps k = Some p -> alive p = false ->
  get_player (crown_first_alive ps) k = Some p.
Proof.
  induction ps as [|[k0 p0] ps IH]; cbn; [discriminate|].
  destruct (alive p0) eqn:Ea; cbn; destruct (String.eqb_spec k0 k) as [->|Hne]; auto.
  intros [= ->]. congruence.
Qed.

Lemma get_player_middle (ps1 ps2 : list (string * player)) (k : string) (p : player) :
  NoDup (map fst (ps1 ++ (k, p) :: ps2)) ->
  get_player (ps1 ++ (k, p) :: ps2) k = Some p.
Proof.
  rewrite map_app. cbn [map fst]. intros Hnd.
  apply NoDup_app in Hnd as (_ & Hdisj & _).
  induction ps1 as [|[k0 p0] ps1 IH]; cbn.
  - now rewrite String.eqb_refl.
  - destruct (String.eqb_spec k0 k) as [->|Hne].
    + exfalso. apply (Hdisj k); now left.
    + apply IH. intros x Hx. apply Hdisj. now right.
Qed.

(** ** The invariant of a match *)

Lemma ranks_from_step (a m : nat) :
  (1 <= a <= m)%nat -> ranks_from (a - 1) m = Some (Z.of_nat a) :: ranks_from a m.
Proof.
  intros Ha. unfold ranks_from.
  replace (S (a - 1)) with a by lia. replace (m - (a - 1))%nat with (S (m - a)) by lia.
  reflexivity.
Qed.

Lemma ranks_from_no_None (a m : nat) : None ∉ ranks_from a m.
Proof.
  unfold ranks_from. intros Hin.
  apply list_elem_of_In, in_map_iff in Hin as (i & [=] & _).
Qed.

Lemma ranks_split (r : room) (ps1 ps2 : list (string * player)) (k : string) (p : player) :
  players r = ps1 ++ (k, p) :: ps2 ->
  ranks r = map (fun kp => rank (snd kp)) ps1 ++ rank p :: map (fun kp => rank (snd kp)) ps2.
Proof. unfold ranks. intros ->. now rewrite map_app. Qed.

(** A roster whose ranks hold a [None] has a player still alive. *)
Lemma alive_of_None (ps : list (string * player)) :
  Forall (fun kp => alive (snd kp) = true <-> rank (snd kp) = None) ps ->
  None ∈ map (fun kp => rank (snd kp)) ps ->
  Exists (fun kp => alive (snd kp) = true) ps.
Proof.
  intros Hall Hin. apply list_elem_of_In, in_map_iff in Hin as (kp & Hrank & Hkp).
  apply Exists_exists. exists kp. split; [now apply list_elem_of_In|].
  rewrite Forall_forall in Hall. apply (Hall kp); [now apply list_elem_of_In | exact Hrank].
Qed.

Lemma inv_start (r0 : room) (rnd : Q) :
  NoDup (map fst (players r0)) ->
  (2 <= length (players r0))%nat ->
  match_inv (length (players r0)) (start_room r0 rnd).
Proof.
  intros Hnd Hlen. unfold match_inv, start_room. cbn. split; [|split].
  - rewrite map_map. cbn. exact Hnd.
  - apply Forall_forall. intros kp Hkp.
    apply list_elem_of_In, in_map_iff in Hkp as (kp0 & <- & _). cbn. tauto.
  - exists (length (players r0)). split; [reflexivity|]. split; [lia|].
    unfold ranks, ranks_from. cbn. rewrite Nat.sub_diag, map_map. cbn. rewrite app_nil_r.
    clear Hnd Hlen. induction (players r0) as [|kp ps IH]; cbn; [constructor|].
    now apply Permutation_cons.
Qed.

(** A report from a player who is not on the roster, or not alive any
    more, changes nothing. *)
Lemma report_ignored (roomId : string) (r : room) (sid : string) :
  (forall me, get_player (players r) sid = Some me -> alive me = false) ->
  report roomId r sid = r.
Proof.
  intros H. unfold report. destruct (get_player (players r) sid) as [me|]; [|reflexivity].
  cbn. now rewrite (H me eq_refl).
Qed.

(** The elimination of a player who is alive. *)
Lemma report_step (m : nat) (roomId : string) (r : room) (sid : string) (me : player) :
  match_inv m r ->
  get_player (players r) sid = Some me ->
  alive me = true ->
  match_inv m (report roomId r sid)
  /\ get_player (players (report roomId r sid)) sid = Some (eliminate (alivePlayers r) me)
  /\ alivePlayers (report roomId r sid) = alivePlayers r - 1
  /\ (alivePlayers (report roomId r sid) <= 1 ->
      status_of (report roomId r sid) = finished
      /\ exists w pw, w <> sid /\ get_player (players r) w = Some pw /\ alive pw = true
           /\ get_player (players (report roomId r sid)) w = Some (crowned pw)).
Proof.
  intros (Hnd & Hall & Hst) Hget Halive.
  destruct (get_player_split _ _ _ Hget) as (ps1 & ps2 & Eps).
  assert (Hme : rank me = None).
  { rewrite Forall_forall in Hall. apply (Hall (sid, me)); [|exact Halive].
    rewrite Eps. apply elem_of_app. right. now left. }
  pose proof (ranks_split r ps1 ps2 sid me Eps) as Eranks. rewrite Hme in Eranks.
  destruct (status_of r) eqn:Est; [contradiction| |].
  2:{ exfalso. apply (ranks_from_no_None 0 m).
      eapply elem_of_Permutation_proper; [symmetry; exact Hst|].
      rewrite Eranks. apply elem_of_app. right. now left. }
  destruct Hst as (a & Ea & Hbounds & Hperm).
  destruct a as [|a]; [lia|].
  rewrite Eranks in Hperm. cbn [replicate app] in Hperm.
  rewrite <- Permutation_middle in Hperm. apply Permutation_cons_inv in Hperm.
  set (n := alivePlayers r) in *.
  set (r1 := set_alivePlayers (n - 1)
               (set_players (update_player (eliminate n) sid (players r)) r)).
  assert (Eps1 : players r1 = ps1 ++ (sid, eliminate n me) :: ps2).
  { cbn. rewrite Eps. apply update_player_split. now rewrite <- Eps. }
  assert (Hnd1 : NoDup (map fst (players r1))).
  { cbn. now rewrite map_fst_update. }
  assert (Hall1 : Forall (fun kp => alive (snd kp) = true <-> rank (snd kp) = None)
                         (players r1)).
  { rewrite Eps1. rewrite Eps in Hall. apply Forall_app in Hall as [H1 H2].
    apply Forall_cons in H2 as [_ H2]. apply Forall_app. split; [exact H1|].
    apply Forall_cons. split; [|exact H2]. cbn. split; discriminate. }
  assert (Hperm1 : Permutation (ranks r1) (replicate a None ++ ranks_from a m)).
  { rewrite (ranks_split r1 _ _ _ _ Eps1). cbn [rank eliminate].
    rewrite <- Permutation_middle, Hperm, Permutation_middle.
    pose proof (ranks_from_step (S a) m) as Hs.
    replace (S a - 1)%nat with a in Hs by lia. rewrite Hs by lia.
    subst n. rewrite Ea. reflexivity. }
  assert (Erep : report roomId r sid = fst (checkGameEnd r1 roomId)).
  { unfold report. rewrite Hget. cbn [room_game_action]. rewrite Halive.
    fold n. fold r1. now destruct (checkGameEnd r1 roomId). }
  rewrite Erep. unfold checkGameEnd.
  change (alivePlayers r1) with (n - 1). change (status_of r1) with (status_of r).
  rewrite Est. cbn [status_eqb]. rewrite andb_true_r.
  destruct (Z.leb_spec (n - 1) 1) as [Hlast|Hmore]; cbn [fst].
  - assert (a = 1)%nat by lia. subst a. cbn [replicate app] in Hperm1.
    destruct (crown_split (players r1)) as (qs1 & w & pw & qs2 & Eqs & Hpw & Ecrown).
    { apply alive_of_None; [exact Hall1|].
      eapply elem_of_Permutation_proper; [exact Hperm1|]. now left. }
    assert (Hpwr : rank pw = None).
    { rewrite Forall_forall in Hall1. apply (Hall1 (w, pw)); [|exact Hpw].
      rewrite Eqs. apply elem_of_app. right. now left. }
    assert (Hgw1 : get_player (players r1) w = Some pw).
    { rewrite Eqs. apply get_player_middle. now rewrite <- Eqs. }
    assert (Hgs1 : get_player (players r1) sid = Some (eliminate n me)).
    { cbn. now rewrite get_player_update_eq, Hget. }
    assert (Hw : w <> sid).
    { intros ->. rewrite Hgs1 in Hgw1. injection Hgw1 as <-. discriminate. }
    cbn [players set_players set_status status_of alivePlayers].
    rewrite Ecrown. split; [|split; [|split]].
    + unfold match_inv. cbn [players set_players set_status status_of]. split; [|split].
      * rewrite map_app. cbn [map fst]. rewrite Eqs, map_app in Hnd1. exact Hnd1.
      * rewrite Eqs in Hall1. apply Forall_app in Hall1 as [H1 H2].
        apply Forall_cons in H2 as [_ H2]. apply Forall_app. split; [exact H1|].
        apply Forall_cons. split; [|exact H2]. cbn. split; discriminate.
      * unfold ranks. cbn [players set_players]. rewrite map_app. cbn [map snd rank crowned].
        rewrite (ranks_split r1 _ _ _ _ Eqs), Hpwr in Hperm1.
        rewrite <- Permutation_middle in Hperm1. apply Permutation_cons_inv in Hperm1.
        rewrite <- Permutation_middle, Hperm1.
        pose proof (ranks_from_step 1 m) as Hs. cbn [Nat.sub] in Hs.
        rewrite Hs by lia. reflexivity.
    + rewrite <- Ecrown. now apply crown_keeps_dead.
    + reflexivity.
    + intros _. split; [reflexivity|]. exists w, pw. repeat split; try assumption.
      * cbn in Hgw1. now rewrite get_player_update_ne in Hgw1.
      * apply get_player_middle. rewrite map_app. cbn [map fst].
        rewrite Eqs, map_app in Hnd1. exact Hnd1.
  - split; [|split; [|split]].
    + unfold match_inv. split; [exact Hnd1|]. split; [exact Hall1|].
      change (status_of r1) with (status_of r). rewrite Est.
      exists a. split; [cbn; lia|]. split; [lia|exact Hperm1].
    + cbn. now rewrite get_player_update_eq, Hget.
    + reflexivity.
    + cbn [alivePlayers set_alivePlayers r1]. lia.
Qed.

Lemma inv_report (m : nat) (roomId : string) (r : room) (sid : string) :
  match_inv m r -> match_inv m (report roomId r sid).
Proof.
  intros Hinv. destruct (get_player (players r) sid) as [me|] eqn:Hget.
  - destruct (alive me) eqn:Ha.
    + now apply (report_step m roomId r sid me).
    + rewrite report_ignored; [exact Hinv|]. intros me' E. congruence.
  - rewrite report_ignored; [exact Hinv|]. intros me' E. congruence.
Qed.

Lemma inv_play (m : nat) (roomId : string) (reports : list string) : forall r,
  match_inv m r -> match_inv m (play roomId r reports).
Proof.
  induction reports as [|sid reports IH]; intros r Hinv; cbn; [exact Hinv|].
  apply IH. now apply inv_report.
Qed.

(** ** The handlers on the store *)

(** The [multi_game_action] handler, given a game-over action, does to
    the first room that holds the socket what [report] tells. *)
Lemma handler_reports (roomId : string) (r : room) (rest : list (string * room))
    (sid : string) (me : player) (r1 r2 : Q) :
  get_player (players r) sid = Some me ->
  exists out,
    multi_game_action_on ((roomId, r) :: rest) sid AGameOver r1 r2
    = Ok ((roomId, report roomId r sid) :: rest, out).
Proof.
  intros Hget. cbn [multi_game_action_on]. unfold report. rewrite Hget.
  cbn [room_game_action]. destruct (alive me).
  - destruct (checkGameEnd _ roomId). cbn [obind]. eexists. reflexivity.
  - cbn [obind]. eexists. reflexivity.
Qed.


(** ** Completion *)

Lemma crown_alive (ps : list (string * player)) (k : string) (p : player) :
  get_player (crown_first_alive ps) k = Some p -> alive p = true ->
  get_player ps k = Some p.
Proof.
  induction ps as [|[k0 p0] ps IH]; cbn; [discriminate|].
  destruct (alive p0) eqn:Ea; cbn; destruct (String.eqb_spec k0 k) as [->|Hne]; auto.
  intros [= <-]. discriminate.
Qed.

(** Who is alive after a report was alive before it, and is not the one
    who reported. *)
Lemma alive_after_report (roomId : string) (r : room) (sid k : string) (p : player) :
  get_player (players (report roomId r sid)) k = Some p -> alive p = true ->
  get_player (players r) k = Some p /\ k <> sid.
Proof.
  unfold report. destruct (get_player (players r) sid) as [me|] eqn:Hget.
  - cbn [room_game_action]. destruct (alive me) eqn:Hme.
    + set (r1 := set_alivePlayers _ _).
      assert (Hr1 : forall q, get_player (players r1) k = Some q -> alive q = true ->
                      get_player (players r) k = Some q /\ k <> sid).
      { cbn. intros q Hq Ha. destruct (String.eqb_spec k sid) as [->|Hne].
        - rewrite get_player_update_eq, Hget in Hq. injection Hq as <-. discriminate.
        - now rewrite get_player_update_ne in Hq. }
      unfold checkGameEnd. destruct (_ && _); cbn.
      * intros Hk Ha. apply Hr1; [|exact Ha]. now apply crown_alive.
      * apply Hr1.
    + intros Hk Ha. split; [exact Hk|]. intros ->. congruence.
  - intros Hk Ha. split; [exact Hk|]. intros ->. congruence.
Qed.

(** Once every player still alive has a report in the list, the list
    brings the room to [finished]. *)
Lemma match_completes (m : nat) (roomId : string) (reports : list string) : forall r,
  match_inv m r ->
  (forall k p, get_player (players r) k = Some p -> alive p = true -> k ∈ reports) ->
  status_of (play roomId r reports) = finished.
Proof.
  induction reports as [|sid reports IH]; intros r Hinv Hcover; cbn [play fold_left].
  - destruct Hinv as (Hnd & Hall & Hst). destruct (status_of r); [contradiction| |reflexivity].
    destruct Hst as (a & _ & Ha & Hperm). exfalso.
    assert (Hnone : None ∈ ranks r).
    { eapply elem_of_Permutation_proper; [exact Hperm|].
      destruct a as [|a]; [lia|]. now left. }
    apply alive_of_None in Hnone; [|exact Hall].
    apply Exists_exists in Hnone as ([k p] & Hin & Hp).
    apply list_elem_of_In, in_split in Hin as (ps1 & ps2 & Eps).
    apply (not_elem_of_nil k), (Hcover k p); [|exact Hp].
    rewrite Eps. apply get_player_middle. now rewrite <- Eps.
  - apply IH; [now apply inv_report|].
    intros k p Hk Hp. destruct (alive_after_report _ _ _ _ _ Hk Hp) as [Hk0 Hne].
    specialize (Hcover k p Hk0 Hp). apply elem_of_cons in Hcover as [->|Hin]; [contradiction|].
    exact Hin.
Qed.

(** C2. In a battle room started with [m >= 2] players, after any run of
    game-over reports: a player who reports while alive is marked dead
    with the alive-count of that moment as rank, and the count goes down
    by one; when that brings it to 1 or less the room finishes and the
    one player still alive takes rank 1; and whenever the room has
    finished, the ranks on the roster are exactly 1, ..., [m], each once. *)
Theorem elimination_ranks (r0 : room) (rnd : Q) (roomId : string) (reports : list string) :
  NoDup (map fst (players r0)) ->
  (2 <= length (players r0))%nat ->
  let m := length (players r0) in
  let before := play roomId (start_room r0 rnd) reports in
  (forall sid me,
     get_player (players before) sid = Some me -> alive me = true ->
     let after := report roomId before sid in
     (exists me', get_player (players after) sid = Some me'
                  /\ alive me' = false /\ rank me' = Some (alivePlayers before))
     /\ alivePlayers after = alivePlayers before - 1
     /\ (alivePlayers after <= 1 ->
         status_of after = finished
         /\ exists w pw pw',
              w <> sid /\ get_player (players before) w = Some pw /\ alive pw = true
              /\ get_player (players after) w = Some pw'
              /\ alive pw' = false /\ rank pw' = Some 1))
  /\ (status_of before = finished ->
      Permutation (ranks before) (map (fun i => Some (Z.of_nat i)) (seq 1 m))).
Proof.
  intros Hnd Hlen m before.
  assert (Hinv : match_inv m before) by (apply inv_play, inv_start; assumption).
  split.
  - intros sid me Hget Ha after.
    destruct (report_step m roomId before sid me Hinv Hget Ha) as (_ & Hsid & Hcount & Hlast).
    split; [|split].
    + exists (eliminate (alivePlayers before) me). auto.
    + exact Hcount.
    + intros Hle. destruct (Hlast Hle) as (Hfin & w & pw & Hw & Hgw & Hpw & Hgw').
      split; [exact Hfin|]. exists w, pw, (crowned pw). auto 10.
  - intros Hfin. destruct Hinv as (_ & _ & Hst). rewrite Hfin in Hst.
    unfold ranks_from in Hst. now rewrite Nat.sub_0_r in Hst.
Qed.

Lemma elimination_ranks_witness :
  let m := 3%nat in
  let before := play "M1A2B3" (start_room lobby_of_three (1 # 3)) ["sockB"; "sockC"] in
  (forall sid me,
     get_player (players before) sid = Some me -> alive me = true ->
     let after := report "M1A2B3" before sid in
     (exists me', get_player (players after) sid = Some me'
                  /\ alive me' = false /\ rank me' = Some (alivePlayers before))
     /\ alivePlayers after = alivePlayers before - 1
     /\ (alivePlayers after <= 1 ->
         status_of after = finished
         /\ exists w pw pw',
              w <> sid /\ get_player (players before) w = Some pw /\ alive pw = true
              /\ get_player (players after) w = Some pw'
              /\ alive pw' = false /\ rank pw' = Some 1))
  /\ (status_of before = finished ->
      Permutation (ranks before) (map (fun i => Some (Z.of_nat i)) (seq 1 m))).
Proof.
  apply (elimination_ranks lobby_of_three (1 # 3) "M1A2B3" ["sockB"; "sockC"]).
  - apply (bool_decide_unpack _). vm_compute. exact I.
  - cbn. lia.
Defined.

(** The scenario of the design document: B out first, then C; A wins. *)
Example scenario_rankings :
  let r := play "M1A2B3" (start_room lobby_of_three (1 # 3)) ["sockB"; "sockC"] in
  status_of r = finished
  /\ map (fun kp => (username (snd kp), rank (snd kp))) (players r)
     = [("A", Some 1); ("B", Some 3); ("C", Some 2)].
Proof. vm_compute. split; reflexivity. Qed.

(** ** Attack targets *)

Lemma totalScore_cons (kp : string * player) (l : list (string * player)) :
  totalScore (kp :: l) = score (snd kp) + 1 + totalScore l.
Proof.
  unfold totalScore. cbn [fold_left].
  assert (H : forall (l : list (string * player)) (a : Z),
             fold_left (fun sum kp0 => sum + score (snd kp0) + 1) l a
             = a + fold_left (fun sum kp0 => sum + score (snd kp0) + 1) l 0).
  { clear. induction l as [|x l IH]; intros a; cbn [fold_left]; [lia|].
    rewrite (IH (a + _ + 1)), (IH (0 + _ + 1)). lia. }
  rewrite H. lia.
Qed.

Lemma totalScore_pos (l : list (string * player)) :
  Forall (fun kp => 0 <= score (snd kp)) l -> l <> [] -> 0 < totalScore l.
Proof.
  intros Hall Hne. destruct l as [|kp l]; [congruence|]. clear Hne.
  revert kp Hall. induction l as [|kp' l IH]; intros kp Hall;
    apply Forall_cons in Hall as [Hkp Hall]; rewrite totalScore_cons.
  - cbn. lia.
  - specialize (IH kp' Hall). lia.
Qed.

Lemma total_magnitude_cons (kp : string * player) (l : list (string * player)) :
  total_magnitude (kp :: l) = Z.abs (score (snd kp)) + 1 + total_magnitude l.
Proof.
  unfold total_magnitude. cbn [fold_left].
  assert (H : forall (l : list (string * player)) (a : Z),
             fold_left (fun sum kp0 => sum + Z.abs (score (snd kp0)) + 1) l a
             = a + fold_left (fun sum kp0 => sum + Z.abs (score (snd kp0)) + 1) l 0).
  { clear. induction l as [|x l IH]; intros a; cbn [fold_left]; [lia|].
    rewrite (IH (a + _ + 1)), (IH (0 + _ + 1)). lia. }
  rewrite H. lia.
Qed.

Lemma totalScore_le_magnitude (l : list (string * player)) :
  totalScore l <= total_magnitude l.
Proof.
  induction l as [|kp l IH]; [reflexivity|].
  rewrite totalScore_cons, total_magnitude_cons. lia.
Qed.

Lemma totalScore_nonneg (l : list (string * player)) :
  Forall (fun kp => 0 <= score (snd kp)) l -> 0 <= totalScore l.
Proof.
  induction 1 as [|kp l Hkp _ IH]; [reflexivity|]. rewrite totalScore_cons. lia.
Qed.

(** The walk stops at the first candidate that brings the remainder to 0
    or below, and runs off the list when there is none. *)
Lemma weighted_walk_spec (ts : list (string * player)) : forall rand,
  match weighted_walk ts rand with
  | Some k =>
      exists i kp, ts !! i = Some kp /\ fst kp = k
        /\ (remainder ts rand i <= 0)%Q
        /\ forall i', (i' < i)%nat -> ~ (remainder ts rand i' <= 0)%Q
  | None => forall i, (i < length ts)%nat -> ~ (remainder ts rand i <= 0)%Q
  end.
Proof.
  induction ts as [|[k p] ts IH]; intros rand; cbn [weighted_walk].
  - intros i Hi. cbn in Hi. lia.
  - destruct (Qle_bool (double (rand - inject_Z (score p + 1))) 0) eqn:E.
    + exists 0%nat, (k, p). split; [reflexivity|]. split; [reflexivity|]. split.
      * cbn [remainder]. now apply Qle_bool_iff in E.
      * intros i' Hi'. lia.
    + assert (E0 : ~ (remainder ((k, p) :: ts) rand 0 <= 0)%Q).
      { cbn [remainder]. intros H. apply Qle_bool_iff in H. congruence. }
      specialize (IH (double (rand - inject_Z (score p + 1)))).
      destruct (weighted_walk ts (double (rand - inject_Z (score p + 1)))).
      * destruct IH as (i & kp & Hi & Hk & Hle & Hbefore).
        exists (S i), kp. split; [exact Hi|]. split; [exact Hk|]. split.
        -- exact Hle.
        -- intros [|i'] Hi'; [exact E0|]. cbn [remainder]. apply Hbefore. lia.
      * intros [|i] Hi; [exact E0|]. cbn [remainder]. apply IH. cbn in Hi. lia.
Qed.

(** With weights that are all positive and a value that is not above
    their sum, the walk meets a remainder that is 0 or below. *)
Lemma walk_ends (ts : list (string * player)) : forall rand,
  Forall (fun kp => 0 <= score (snd kp)) ts ->
  totalScore ts < 2 ^ 53 ->
  ts <> [] ->
  (rand <= inject_Z (totalScore ts))%Q ->
  exists i, (i < length ts)%nat /\ (remainder ts rand i <= 0)%Q.
Proof.
  induction ts as [|[k p] ts IH]; intros rand Hall Htot Hne Hrand; [congruence|].
  apply Forall_cons in Hall as [Hp Hall]. cbn [snd] in Hp.
  rewrite totalScore_cons in Htot, Hrand. cbn [snd] in Htot, Hrand.
  pose proof (totalScore_nonneg ts Hall) as Hts.
  assert (Hnext : (double (rand - inject_Z (score p + 1)) <= inject_Z (totalScore ts))%Q).
  { apply DoubleFacts.double_le_int; [lia|].
    rewrite inject_Z_plus in Hrand. lra. }
  destruct ts as [|kp ts].
  - exists 0%nat. split; [cbn; lia|]. cbn [remainder]. exact Hnext.
  - destruct (IH (double (rand - inject_Z (score p + 1))) Hall) as (i & Hi & Hle);
      [lia | congruence | exact Hnext |].
    exists (S i). split; [cbn [length] in *; lia | exact Hle].
Qed.

Lemma get_player_In (ps : list (string * player)) (k : string) (p : player) :
  NoDup (map fst ps) -> (k, p) ∈ ps -> get_player ps k = Some p.
Proof.
  intros Hnd Hin. apply list_elem_of_In, in_split in Hin as (ps1 & ps2 & ->).
  now apply get_player_middle.
Qed.

Lemma targets_of_spec (r : room) (sid k : string) (p : player) :
  (k, p) ∈ targets_of r sid <-> (k, p) ∈ players r /\ k <> sid /\ alive p = true.
Proof.
  unfold targets_of. rewrite !list_elem_of_In, filter_In. cbn.
  rewrite andb_true_iff, negb_true_iff. split.
  - intros (Hin & Hk & Ha). repeat split; try assumption.
    intros ->. now rewrite String.eqb_refl in Hk.
  - intros (Hin & Hk & Ha). repeat split; try assumption.
    now destruct (String.eqb_spec k sid).
Qed.

(** A target that was selected receives the garbage, and the room hears
    of the attack. *)
Lemma selected_target_served (roomId : string) (r : room) (sid : string) (me : player)
    (lines : Z) (r1 r2 : Q) (t : string) (pt : player) :
  NoDup (map fst (players r)) ->
  Forall (fun kp => truthy (fst kp) = true) (players r) ->
  (t, pt) ∈ targets_of r sid ->
  selectAttackTarget r sid r1 r2 = Ok (Some t) ->
  room_game_action roomId r sid me (AGarbage lines) r1 r2 =
  Ok (r, [(ToSocket t, multi_receive_garbage sid (username me) lines);
          (ToRoom roomId, multi_attack_event (username me) (username pt) lines)]).
Proof.
  intros Hnd Hall Hin Hsel. apply targets_of_spec in Hin as (Hin & _ & _).
  cbn [room_game_action]. rewrite Hsel. cbn [obind].
  rewrite Forall_forall in Hall. pose proof (Hall _ Hin) as Ht. cbn [fst] in Ht.
  rewrite Ht. now rewrite (get_player_In _ _ _ Hnd Hin).
Qed.

(** The last candidate, as the fallback reads it. *)
Lemma last_key (ts : list (string * player)) :
  ts <> [] ->
  exists kp, last ts = Some kp /\ key_at ts (Z.of_nat (length ts) - 1) = Ok (fst kp).
Proof.
  intros Hne. destruct (last ts) as [kp|] eqn:El.
  - exists kp. split; [reflexivity|]. unfold key_at.
    replace (Z.of_nat (length ts) - 1) with (Z.of_nat (pred (length ts)))
      by (destruct ts; [congruence | cbn [length]; lia]).
    rewrite (lookupZ_of_nat_list ts), <- last_lookup, El. reflexivity.
  - apply last_None in El. contradiction.
Qed.

(** With a candidate and a draw that is a double below 1, a candidate is
    selected. *)
Lemma select_candidate (r : room) (sid : string) (r1 r2 : Q) :
  targets_of r sid <> [] -> unit_double r2 ->
  exists kp, kp ∈ targets_of r sid
             /\ selectAttackTarget r sid r1 r2 = Ok (Some (fst kp)).
Proof.
  intros Hne Hr2. unfold selectAttackTarget. set (ts := targets_of r sid) in *.
  replace (length ts =? 0)%nat with false by (destruct ts; [congruence | reflexivity]).
  destruct (Qlt_bool r1 (double (7 # 10))).
  - destruct (DoubleFacts.double_index r2 (length ts) Hr2) as [Hi0 Hi1].
    { destruct ts; [congruence | cbn [length]; lia]. }
    unfold key_at, lookupZ.
    destruct (Z.ltb_spec (Qfloor (double (r2 * inject_Z (Z.of_nat (length ts))))) 0);
      [lia|].
    destruct (lookup_lt_is_Some_2 ts
                (Z.to_nat (Qfloor (double (r2 * inject_Z (Z.of_nat (length ts)))))))
      as [kp Hkp]; [lia|].
    rewrite Hkp. cbn [obind]. exists kp. split; [|reflexivity].
    now apply list_elem_of_lookup_2 in Hkp.
  - pose proof (weighted_walk_spec ts (double (r2 * inject_Z (totalScore ts)))) as Hwalk.
    destruct (weighted_walk ts (double (r2 * inject_Z (totalScore ts)))) as [k|].
    + destruct Hwalk as (i & kp & Hi & <- & _). exists kp. split; [|reflexivity].
      now apply list_elem_of_lookup_2 in Hi.
    + destruct (last_key ts Hne) as (kp & Hlast & ->). cbn [obind].
      exists kp. split; [|reflexivity].
      apply last_Some in Hlast as [l' ->]. apply elem_of_app. right. now left.
Qed.

(** Scores are what the clients report ([player.score = data.value]), so
    a weight [score + 1] can be 0: after B and C have each reported -1,
    an attack of A has two candidates of weight 0, the weights add up to
    0, no value lies in [0, 0), and the weighted branch selects B for
    every draw. *)
Lemma reported_scores_give_zero_weights :
  exists rB rC outB outC,
    room_game_action "M1A2B3" three_playing "sockB" (Player 2 "B" 0 true None None)
      (AScore (-1)) 0 0 = Ok (rB, outB)
    /\ room_game_action "M1A2B3" rB "sockC" (Player 3 "C" 0 true None None)
         (AScore (-1)) 0 0 = Ok (rC, outC)
    /\ status_of rC = playing
    /\ map fst (targets_of rC "sockA") = ["sockB"; "sockC"]
    /\ Forall (fun kp => score (snd kp) + 1 = 0) (targets_of rC "sockA")
    /\ totalScore (targets_of rC "sockA") = 0
    /\ forall r2 : Q, selectAttackTarget rC "sockA" (9 # 10) r2 = Ok (Some "sockB").
Proof.
  eexists _, _, _, _. split; [reflexivity|]. split; [reflexivity|].
  split; [reflexivity|]. split; [reflexivity|].
  split; [repeat constructor|]. split; [reflexivity|].
  intros [n d]. unfold selectAttackTarget. cbn [targets_of].
  change (targets_of _ "sockA")
    with [("sockB", Player 2 "B" (-1) true None None);
          ("sockC", Player 3 "C" (-1) true None None)].
  cbn [length Nat.eqb totalScore fold_left snd score]. 
  change (Qlt_bool (9 # 10) (double (7 # 10))) with false. cbn iota.
  assert (E : double ((n # d) * inject_Z (0 + -1 + 1 + -1 + 1)) = 0%Q).
  { unfold double. cbn [Qnum Qmult inject_Z]. now rewrite Z.mul_0_r. }
  rewrite E. reflexivity.
Qed.

(** C8, as the source has it.  For a garbage action of [sid] in any
    room: the candidates are the roster entries other than [sid] that
    are alive; with none, nothing is selected and nothing is emitted;
    with some, and a draw that is a double in [0, 1), exactly one of them
    is selected, it alone receives the garbage, and the room is told.
    On the weighted branch (the first draw is not below the double 0.7)
    the value drawn is the double nearest to the second draw times the
    sum of the weights [score + 1]; the candidate selected is the first,
    in roster order, at which the weights taken off that value, one
    after the other, bring it to 0 or below, and the last candidate when
    there is no such one.  When no candidate has a negative score every
    weight is positive, the value drawn lies in [0, totalScore), and
    there is such a candidate.  The scores are integers whose magnitudes
    add up to less than 2^53, so that the weights are summed without
    rounding. *)
Theorem attack_routing (roomId : string) (r : room) (sid : string) (me : player)
    (lines : Z) (r1 r2 : Q) :
  NoDup (map fst (players r)) ->
  Forall (fun kp => truthy (fst kp) = true) (players r) ->
  let ts := targets_of r sid in
  let go := room_game_action roomId r sid me (AGarbage lines) r1 r2 in
  let rand := double (r2 * inject_Z (totalScore ts)) in
  (forall k p, (k, p) ∈ ts <-> (k, p) ∈ players r /\ k <> sid /\ alive p = true)
  /\ (ts = [] -> selectAttackTarget r sid r1 r2 = Ok None /\ go = Ok (r, []))
  /\ (ts <> [] -> unit_double r2 ->
      exists t pt,
        (t, pt) ∈ ts
        /\ selectAttackTarget r sid r1 r2 = Ok (Some t)
        /\ go = Ok (r, [(ToSocket t, multi_receive_garbage sid (username me) lines);
                        (ToRoom roomId,
                         multi_attack_event (username me) (username pt) lines)]))
  /\ (ts <> [] -> total_magnitude ts < 2 ^ 53 -> (double (7 # 10) <= r1)%Q ->
      (forall i kp,
         ts !! i = Some kp ->
         (remainder ts rand i <= 0)%Q ->
         (forall i', (i' < i)%nat -> ~ (remainder ts rand i' <= 0)%Q) ->
         selectAttackTarget r sid r1 r2 = Ok (Some (fst kp)))
      /\ ((forall i, (i < length ts)%nat -> ~ (remainder ts rand i <= 0)%Q) ->
          exists kp, last ts = Some kp
                     /\ selectAttackTarget r sid r1 r2 = Ok (Some (fst kp))))
  /\ (ts <> [] -> total_magnitude ts < 2 ^ 53 ->
      Forall (fun kp => 0 <= score (snd kp)) ts -> unit_double r2 ->
      Forall (fun kp => 0 < score (snd kp) + 1) ts
      /\ (0 <= rand)%Q /\ (rand < inject_Z (totalScore ts))%Q
      /\ exists i, (i < length ts)%nat /\ (remainder ts rand i <= 0)%Q).
Proof.
  intros Hnd Hall ts go rand.
  assert (Hlen : ts <> [] -> (length ts =? 0)%nat = false).
  { intros Hne. destruct ts; [congruence|reflexivity]. }
  assert (Hweighted : (double (7 # 10) <= r1)%Q -> Qlt_bool r1 (double (7 # 10)) = false).
  { intros H. unfold Qlt_bool. apply Qle_bool_iff in H. now rewrite H. }
  split; [|split; [|split; [|split]]].
  - intros k p. apply targets_of_spec.
  - intros Hnil. unfold go. cbn [room_game_action]. unfold selectAttackTarget.
    fold ts. rewrite Hnil. cbn. auto.
  - intros Hne Hr2.
    destruct (select_candidate r sid r1 r2 Hne Hr2) as ([t pt] & Hin & Hsel).
    exists t, pt. split; [exact Hin|]. split; [exact Hsel|].
    now apply selected_target_served.
  - intros Hne _ Hr1. split.
    + intros i kp Hi Hle Hmin. unfold selectAttackTarget. fold ts.
      rewrite (Hlen Hne), (Hweighted Hr1). fold rand.
      pose proof (weighted_walk_spec ts rand) as Hwalk.
      destruct (weighted_walk ts rand) as [k|].
      * destruct Hwalk as (i0 & kp0 & Hi0 & <- & Hle0 & Hmin0).
        destruct (Nat.lt_trichotomy i i0) as [Hlt|[->|Hgt]].
        -- exfalso. now apply (Hmin0 i).
        -- congruence.
        -- exfalso. now apply (Hmin i0).
      * exfalso. apply (Hwalk i); [|exact Hle]. now apply lookup_lt_Some in Hi.
    + intros Hnone. unfold selectAttackTarget. fold ts.
      rewrite (Hlen Hne), (Hweighted Hr1). fold rand.
      pose proof (weighted_walk_spec ts rand) as Hwalk.
      destruct (weighted_walk ts rand) as [k|].
      * exfalso. destruct Hwalk as (i0 & kp0 & Hi0 & _ & Hle0 & _).
        apply (Hnone i0); [|exact Hle0]. now apply lookup_lt_Some in Hi0.
      * destruct (last_key ts Hne) as (kp & Hlast & ->). now exists kp.
  - intros Hne Hsmall Hscores [Hlo Hhi].
    assert (Htot : totalScore ts < 2 ^ 53)
      by (pose proof (totalScore_le_magnitude ts); lia).
    assert (Hpos : (0 < inject_Z (totalScore ts))%Q).
    { change 0%Q with (inject_Z 0). rewrite <- Zlt_Qlt. now apply totalScore_pos. }
    assert (H0 : (0 <= r2 * inject_Z (totalScore ts))%Q).
    { apply Qmult_le_0_compat; [exact Hlo | lra]. }
    assert (Hbelow : (rand < inject_Z (totalScore ts))%Q).
    { apply DoubleFacts.double_below; [exact H0 | exact Hpos |].
      rewrite (Qmult_comm (inject_Z (totalScore ts))). apply Qmult_le_compat_r; lra. }
    split; [|split; [|split]].
    + eapply Forall_impl; [exact Hscores|]. cbn. intros kp Hkp. lia.
    + now apply DoubleFacts.double_nonneg.
    + exact Hbelow.
    + apply walk_ends; [exact Hscores | exact Htot | exact Hne | lra].
Qed.

Lemma attack_routing_witness :
  (exists t pt,
     (t, pt) ∈ targets_of (four_playing 20 0 50) "sockA"
     /\ selectAttackTarget (four_playing 20 0 50) "sockA" (9 # 10) (1 # 2) = Ok (Some t)
     /\ room_game_action "M4D5E6" (four_playing 20 0 50) "sockA"
          (Player 1 "A" 0 true None None) (AGarbage 2) (9 # 10) (1 # 2)
        = Ok (four_playing 20 0 50,
              [(ToSocket t, multi_receive_garbage "sockA" "A" 2);
               (ToRoom "M4D5E6", multi_attack_event "A" (username pt) 2)]))
  /\ selectAttackTarget (four_playing 20 0 50) "sockA" (9 # 10) (1 # 2) = Ok (Some "sockD")
  /\ (Forall (fun kp => 0 < score (snd kp) + 1) (targets_of (four_playing 20 0 50) "sockA")
      /\ (0 <= double ((1 # 2) * inject_Z (totalScore (targets_of (four_playing 20 0 50) "sockA"))))%Q
      /\ (double ((1 # 2) * inject_Z (totalScore (targets_of (four_playing 20 0 50) "sockA")))
          < inject_Z (totalScore (targets_of (four_playing 20 0 50) "sockA")))%Q
      /\ exists i, (i < length (targets_of (four_playing 20 0 50) "sockA"))%nat
                   /\ (remainder (targets_of (four_playing 20 0 50) "sockA")
                         (double ((1 # 2) * inject_Z (totalScore
                                    (targets_of (four_playing 20 0 50) "sockA")))) i <= 0)%Q)
  /\ (exists kp, last (targets_of (four_playing (-5) 0 0) "sockA") = Some kp
                 /\ selectAttackTarget (four_playing (-5) 0 0) "sockA" (9 # 10) (1 # 2)
                    = Ok (Some (fst kp))).
Proof.
  assert (Hnd : forall b c d, NoDup (map fst (players (four_playing b c d))))
    by (intros b c d; apply (bool_decide_unpack _); vm_compute; exact I).
  assert (Hall : forall b c d,
            Forall (fun kp => truthy (fst kp) = true) (players (four_playing b c d)))
    by (intros b c d; repeat constructor).
  assert (Hne : forall b c d, targets_of (four_playing b c d) "sockA" <> [])
    by (intros b c d; vm_compute; discriminate).
  assert (Hr1 : (double (7 # 10) <= 9 # 10)%Q) by (vm_compute; discriminate).
  assert (Hr2 : unit_double (1 # 2)) by (split; vm_compute; discriminate).
  pose proof (attack_routing "M4D5E6" (four_playing 20 0 50) "sockA"
                (Player 1 "A" 0 true None None) 2 (9 # 10) (1 # 2)
                (Hnd 20 0 50) (Hall 20 0 50))
    as (_ & _ & Hsome & Hweighted & Hscored).
  pose proof (attack_routing "M4D5E6" (four_playing (-5) 0 0) "sockA"
                (Player 1 "A" 0 true None None) 2 (9 # 10) (1 # 2)
                (Hnd (-5) 0 0) (Hall (-5) 0 0))
    as (_ & _ & _ & Hspoofed & _).
  split; [|split; [|split]].
  - apply Hsome; [apply Hne | exact Hr2].
  - destruct (Hweighted (Hne 20 0 50)) as (Hfirst & _);
      [vm_compute; reflexivity | exact Hr1 |].
    apply (Hfirst 2%nat ("sockD", Player 4 "D" 50 true None None)).
    + reflexivity.
    + vm_compute. discriminate.
    + intros i' Hi' H. destruct i' as [|[|i']]; [| |lia]; vm_compute in H; now apply H.
  - apply Hscored; [apply Hne | vm_compute; reflexivity | repeat constructor; cbn; lia
                   | exact Hr2].
  - destruct (Hspoofed (Hne (-5) 0 0)) as (_ & Hlast);
      [vm_compute; reflexivity | exact Hr1 |].
    apply Hlast. intros i Hi H.
    destruct i as [|[|[|i]]]; [| | |cbn in Hi; lia]; vm_compute in H; now apply H.
Defined.

(** At the draw 3002399751580331 / 2^52 and three candidates of weight 1
    the product is rounded to 2, and the second candidate is selected. *)
Example rounded_product_selects_second :
  selectAttackTarget (four_playing 0 0 0) "sockA" (9 # 10)
    (3002399751580331 # 4503599627370496) = Ok (Some "sockC").
Proof. vm_compute. reflexivity. Qed.

End BattleFacts.

(** * Properties of the duel rooms *)

Module DuelFacts.
Import Duel.

Lemma findPlayerRoom_In (rooms : list (string * room)) (sid k : string) (r : room) :
  findPlayerRoom rooms sid = Some (k, r) -> (k, r) ∈ rooms.
Proof.
  induction rooms as [|[k0 r0] rooms IH]; cbn; [discriminate|].
  destruct (get_player (players r0) sid).
  - intros [= -> ->]. now left.
  - intros H. right. now apply IH.
Qed.

(** A store through the room that [findPlayerRoom] returned is read back
    by the next [findPlayerRoom]. *)
Lemma find_put (rooms : list (string * room)) (sid roomId : string) (r r' : room) :
  NoDup (map fst rooms) ->
  findPlayerRoom rooms sid = Some (roomId, r) ->
  players r' = players r ->
  findPlayerRoom (put_room rooms roomId r') sid = Some (roomId, r').
Proof.
  intros Hnd Hfind Hps. induction rooms as [|[k0 r0] rooms IH]; cbn in *; [discriminate|].
  apply NoDup_cons in Hnd as [Hk0 Hnd].
  destruct (get_player (players r0) sid) eqn:Hg.
  - injection Hfind as -> ->. rewrite String.eqb_refl. cbn. now rewrite Hps, Hg.
  - destruct (String.eqb_spec k0 roomId) as [->|Hne].
    + exfalso. apply Hk0. apply findPlayerRoom_In in Hfind.
      apply list_elem_of_In. apply in_map_iff. exists (roomId, r).
      split; [reflexivity | now apply list_elem_of_In].
    + cbn. rewrite Hg. now apply IH.
Qed.

(** C9. In a duel room holding the two players [a] and [b], a game-over
    report from one of them, whatever else the message carries, names the
    other as winner: the winner's user gets the database update, the
    winner's tally in the room goes up by one, and roster and status are
    untouched.  A reset asked by either player afterwards sets the status
    to [playing] and emits, to the room, the reset event followed by a
    ready event carrying the seed just drawn; the room is then found in
    status [playing]. *)
Theorem duel_over_then_reset (rooms : list (string * room)) (roomId : string) (r : room)
    (a b : string) (pa pb : player) (sid : string) (data : action) (rnd : Q) :
  NoDup (map fst rooms) ->
  findPlayerRoom rooms a = Some (roomId, r) ->
  findPlayerRoom rooms b = Some (roomId, r) ->
  players r = [(a, pa); (b, pb)] ->
  a <> b -> truthy a = true -> truthy b = true ->
  sid = a \/ sid = b ->
  type_of data = game_over ->
  let winnerId := if String.eqb sid a then b else a in
  let winnerUser := if String.eqb sid a then pb else pa in
  exists r' out,
    game_action rooms sid data = Ok (put_room rooms roomId r', out)
    /\ players r' = players r /\ status_of r' = status_of r
    /\ scores r' = <[winnerId := tally (scores r) winnerId + 1]> (scores r)
    /\ tally (scores r') winnerId = tally (scores r) winnerId + 1
    /\ out = [emit_game_action (ToOthers roomId sid) data;
              db_add_score (userId winnerUser) 100;
              chat_winner (ToRoom roomId) (username winnerUser)
                          (username pa) (tally (scores r') a)
                          (username pb) (tally (scores r') b)]
    /\ forall requester, requester = a \/ requester = b ->
         exists rooms'',
           game_reset (put_room rooms roomId r') requester rnd =
             (rooms'',
              [emit_game_reset (ToRoom roomId);
               emit_game_ready (ToRoom roomId) (Qfloor (rnd * 2147483647));
               chat_reset (ToRoom roomId)])
           /\ findPlayerRoom rooms'' requester = Some (roomId, set_status playing r')
           /\ status_of (set_status playing r') = playing.
Proof.
  intros Hnd Hfa Hfb Hps Hab Hta Htb Hsid Htype winnerId winnerUser.
  assert (Eab : String.eqb a b = false) by now apply String.eqb_neq.
  assert (Eba : String.eqb b a = false) by (apply String.eqb_neq; congruence).
  set (r' := set_scores (<[winnerId := tally (scores r) winnerId + 1]> (scores r)) r).
  assert (Hfs : findPlayerRoom rooms sid = Some (roomId, r))
    by (destruct Hsid as [-> | ->]; assumption).
  assert (Hsettle : settle_game_over roomId r sid =
            Ok (r', [db_add_score (userId winnerUser) 100;
                     chat_winner (ToRoom roomId) (username winnerUser)
                                 (username pa) (tally (scores r') a)
                                 (username pb) (tally (scores r') b)])).
  { unfold settle_game_over, other_key. rewrite Hps. subst r' winnerId winnerUser.
    destruct Hsid as [-> | ->]; cbn [map fst find];
      rewrite ?String.eqb_refl, ?Eab, ?Eba; cbn [negb];
      rewrite ?Hta, ?Htb; cbn [get_player players set_scores];
      rewrite ?Hps; cbn [get_player map fst lookup list_lookup deref obind];
      rewrite ?String.eqb_refl, ?Eab, ?Eba; cbn [deref obind];
      rewrite ?String.eqb_refl, ?Eab, ?Eba; reflexivity. }
  exists r'. eexists. split.
  - unfold game_action. rewrite Hfs, Htype, Hsettle. cbn [obind app]. reflexivity.
  - split; [reflexivity|]. split; [reflexivity|]. split; [reflexivity|]. split.
    + unfold tally at 1. cbn [scores r' set_scores]. now rewrite lookup_insert_eq.
    + split; [reflexivity|]. intros requester Hreq.
      assert (Hfr : findPlayerRoom (put_room rooms roomId r') requester = Some (roomId, r')).
      { apply (find_put rooms requester roomId r r' Hnd); [|reflexivity].
        destruct Hreq as [-> | ->]; assumption. }
      eexists. unfold game_reset. rewrite Hfr. split; [reflexivity|]. split; [|reflexivity].
      apply (find_put _ requester roomId r' _); [| exact Hfr | reflexivity].
      clear -Hnd. induction rooms as [|[k0 r0] rooms IH]; cbn; [constructor|].
      apply NoDup_cons in Hnd as [Hk0 Hnd].
      destruct (String.eqb_spec k0 roomId); cbn; apply NoDup_cons; split; auto.
      intros Hin. apply Hk0. clear -Hin.
      induction rooms as [|[k1 r1] rooms IH]; cbn in *; [exact Hin|].
      destruct (String.eqb k1 roomId); cbn in *; [exact Hin|].
      apply elem_of_cons in Hin as [->|Hin]; [now left | right; now apply IH].
Qed.

Lemma duel_over_then_reset_witness :
  exists r' out,
    game_action one_duel "sock2" (Action game_over 0) = Ok (put_room one_duel "a1b2c3" r', out)
    /\ tally (scores r') "sock1" = 1
    /\ exists rooms'',
         game_reset (put_room one_duel "a1b2c3" r') "sock1" (1 # 2) =
           (rooms'',
            [emit_game_reset (ToRoom "a1b2c3");
             emit_game_ready (ToRoom "a1b2c3") 1073741823;
             chat_reset (ToRoom "a1b2c3")])
         /\ findPlayerRoom rooms'' "sock1" = Some ("a1b2c3", set_status playing r').
Proof.
  destruct (duel_over_then_reset one_duel "a1b2c3"
              {| id := "a1b2c3";
                 players := [("sock1", Player 7 "ann"); ("sock2", Player 9 "bob")];
                 status_of := playing;
                 scores := ∅ |}
              "sock1" "sock2" (Player 7 "ann") (Player 9 "bob")
              "sock2" (Action game_over 0) (1 # 2))
    as (r' & out & Hact & _ & _ & _ & Htally & _ & Hreset).
  - apply (bool_decide_unpack _). vm_compute. exact I.
  - reflexivity.
  - reflexivity.
  - reflexivity.
  - discriminate.
  - reflexivity.
  - reflexivity.
  - now right.
  - reflexivity.
  - exists r', out. split; [exact Hact|]. split; [exact Htally|].
    destruct (Hreset "sock1") as (rooms'' & Hr & Hf & _); [now left|].
    exists rooms''. split; [exact Hr | exact Hf].
Defined.

End DuelFacts.

(** * The engine between calls *)

Module EngineFacts.
Import Tetris.
Import TetrisFacts.

(** ** Grids *)

Lemma in_bounds_grid (b : matrix) (r c : Z) :
  grid b -> (in_bounds b r c <-> 0 <= r < ROWS /\ 0 <= c < COLS).
Proof.
  intros [Hlen Hrows]. unfold in_bounds. split.
  - intros (row & Hrow & Hc). apply lookupZ_Some in Hrow as [Hr Hrow].
    rewrite Forall_lookup in Hrows. rewrite (Hrows _ _ Hrow) in Hc.
    rewrite Hlen in Hr. unfold ROWS, COLS in *. lia.
  - intros [Hr Hc]. unfold lookupZ. destruct (Z.ltb_spec r 0); [lia|].
    destruct (lookup_lt_is_Some_2 b (Z.to_nat r)) as [row Hrow].
    { rewrite Hlen. unfold ROWS in *. lia. }
    exists row. split; [exact Hrow|]. rewrite Forall_lookup in Hrows.
    rewrite (Hrows _ _ Hrow). unfold COLS in *. lia.
Qed.

Lemma grid_rows (b : matrix) : grid b -> Forall (fun r => r <> []) b.
Proof.
  intros [_ Hrows]. eapply Forall_impl; [exact Hrows|].
  intros row Hrow E. rewrite E in Hrow. vm_compute in Hrow. discriminate Hrow.
Qed.

Lemma grid_same_shape (b b' : matrix) :
  map length b' = map length b -> grid b -> grid b'.
Proof.
  intros E [Hlen Hrows]. split.
  - rewrite <- Hlen, <- (length_map length b'), E. apply length_map.
  - apply Forall_forall. intros row Hrow.
    assert (Hin : length row ∈ map length b).
    { rewrite <- E. apply list_elem_of_In, in_map. now apply list_elem_of_In. }
    apply list_elem_of_In, in_map_iff in Hin as (row0 & <- & Hrow0).
    rewrite Forall_forall in Hrows. apply Hrows. now apply list_elem_of_In.
Qed.

Lemma fits_grid (b b' : matrix) (p : matrix) (off : position) :
  grid b -> grid b' -> fits b p off -> fits b' p off.
Proof.
  intros Hb Hb' Hfits j i row v Hj Hi Hv.
  apply (in_bounds_grid b' _ _ Hb'), (in_bounds_grid b _ _ Hb).
  now apply (Hfits j i row v).
Qed.

Lemma free_fits (b : matrix) (p : matrix) (off : position) :
  collide b p off = false -> fits b p off.
Proof.
  intros Hfree j i row v Hj Hi Hv.
  destruct (merge_where_free b p off Hfree) as (b' & _ & _ & H).
  now destruct (H j i row v Hj Hi Hv).
Qed.

Lemma fits_merge (b : matrix) (p : matrix) (off : position) :
  fits b p off -> exists b', merge b p off = Ok b' /\ map length b' = map length b.
Proof.
  intros Hfits.
  destruct (merge_rows_spec off p b 0) as (b' & E & Hs & _).
  - intros j i row v Hj Hi Hv. rewrite Z.add_0_l. now apply (Hfits j i row v).
  - now exists b'.
Qed.

(** The sweep keeps the number of rows and their width. *)
Lemma sweep_result_grid (b : matrix) : grid b -> grid (fst (sweep_result b)).
Proof.
  intros Hb. destruct (sweep_count b (grid_rows b Hb)) as (b' & E & Hlen).
  rewrite (sweep_total b (grid_rows b Hb)) in E.
  assert (Eb : fst (sweep_result b) = b') by (injection E as E; now rewrite E).
  rewrite Eb. destruct Hb as [Hb Hrows]. split; [congruence|].
  rewrite <- Eb. clear E Eb Hlen Hb b'. destruct b as [|top rest]; [constructor|].
  apply Forall_cons in Hrows as [Htop Hrest]. unfold sweep_result.
  assert (Hgone : Forall (fun row => length row = Z.to_nat COLS)
                         (map blank (List.filter row_full rest))).
  { apply Forall_forall. intros row Hrow.
    apply list_elem_of_In, in_map_iff in Hrow as (row0 & <- & Hin).
    apply filter_In in Hin as [Hin _]. unfold blank. rewrite length_replicate.
    rewrite Forall_forall in Hrest. apply Hrest. now apply list_elem_of_In. }
  assert (Hkept : Forall (fun row => length row = Z.to_nat COLS)
                         (List.filter (fun row => negb (row_full row)) rest)).
  { apply Forall_forall. intros row Hrow.
    apply list_elem_of_In, filter_In in Hrow as [Hin _].
    rewrite Forall_forall in Hrest. apply Hrest. now apply list_elem_of_In. }
  destruct (negb _ && row_full top); cbn [fst].
  - apply Forall_cons. split; [unfold blank; now rewrite length_replicate|].
    apply Forall_app. now split.
  - apply Forall_app. split; [exact Hgone|]. apply Forall_cons. now split.
Qed.

(** ** Orientations *)


Ltac fields :=
  cbn [piece nextPiece board pos score gameOver set_gameOver set_pos set_nextPiece
       set_piece set_board set_score set_dropCounter px py].
Ltac in_list := repeat (first [left; reflexivity | right]).

Lemma orientations_ok : Forall orientation_ok orientations.
Proof.
  let l := eval vm_compute in orientations in
  assert (E : orientations = l) by (vm_compute; reflexivity).
  rewrite E at 1.
  repeat (apply List.Forall_cons;
    [ split; [split; [reflexivity | repeat constructor] |];
      split; [cbn; lia |];
      split; [reflexivity |];
      split; (eexists; split; [vm_compute; reflexivity | rewrite E; in_list])
    | ]).
  apply List.Forall_nil.
Qed.

Lemma orientation_facts (p : matrix) : In p orientations -> orientation_ok p.
Proof. intros H. pose proof orientations_ok as Hall. rewrite List.Forall_forall in Hall. auto. Qed.

Lemma pieces_orientations (q : matrix) : In q PIECES -> In q orientations.
Proof.
  intros Hq. unfold orientations. apply in_flat_map. exists q. split; [exact Hq | now left].
Qed.

Lemma rotate_matrix_sign (p : matrix) (dir : Z) :
  _rotateMatrix p dir = _rotateMatrix p (if 0 <? dir then 1 else -1).
Proof. unfold _rotateMatrix. now destruct (0 <? dir). Qed.

Lemma orientation_turned (p : matrix) (dir : Z) :
  In p orientations -> exists m, _rotateMatrix p dir = Ok m /\ In m orientations.
Proof.
  intros Hp. destruct (orientation_facts p Hp) as (_ & _ & _ & Hcw & Hccw).
  rewrite rotate_matrix_sign. now destruct (0 <? dir).
Qed.

Lemma spawn_fits (b : matrix) (q : matrix) :
  grid b -> In q orientations -> fits b q spawn.
Proof.
  intros Hb Hq j i row v Hj Hi Hv.
  destruct (orientation_facts q Hq) as ([_ Hrows] & Hn & _).
  apply (in_bounds_grid b _ _ Hb). cbn [spawn px py].
  pose proof (lookup_lt_Some _ _ _ Hj) as Hjn.
  pose proof (lookup_lt_Some _ _ _ Hi) as Hin.
  rewrite Forall_lookup in Hrows. rewrite (Hrows _ _ Hj) in Hin.
  unfold ROWS, COLS. lia.
Qed.

(** A cell that is not 0, from the boolean test. *)
Lemma has_cell_spec (p : matrix) :
  has_cell p = true ->
  exists j i row v, p !! j = Some row /\ row !! i = Some v /\ v <> 0.
Proof.
  unfold has_cell. intros H. apply existsb_exists in H as (row & Hrow & H).
  apply existsb_exists in H as (v & Hv & H).
  apply list_elem_of_In, list_elem_of_lookup_1 in Hrow as [j Hj].
  apply list_elem_of_In, list_elem_of_lookup_1 in Hv as [i Hi].
  exists j, i, row, v. repeat split; try assumption.
  apply negb_true_iff, Z.eqb_neq in H. exact H.
Qed.

(** What [rotate] returns on a square piece. *)
Lemma rotate_result (g : game) (p0 : matrix) (n : nat) (dir : Z) :
  piece g = Some p0 -> square n p0 -> dir <> 0 ->
  exists g' r,
    _rotateMatrix p0 dir = Ok r /\ rotate dir g = Ok g'
    /\ ((exists d, Z.abs d <= Z.of_nat n
           /\ g' = set_pos (Pos (px (pos g) + d) (py (pos g))) (set_piece (Some r) g)
           /\ collide (board g) r (Pos (px (pos g) + d) (py (pos g))) = false)
        \/ g' = g).
Proof.
  intros Hp Hsq Hdir. unfold rotate. rewrite Hp. cbn [deref obind].
  destruct (rotate_back n p0 dir Hsq Hdir) as (r & Er & [Hlen Hrows] & Eback).
  rewrite Er. cbn [obind]. destruct r as [|row r'].
  - cbn in Hlen. subst n. cbn. eexists _, []. split; [reflexivity|]. split; [reflexivity|].
    left. exists 0. split; [lia|]. rewrite Z.add_0_r. split; [|reflexivity].
    now destruct g as [? ? ? ? ? ? [x y] ? ? ? ? ? ? ?].
  - assert (Hw : width (row :: r') = Ok (Z.of_nat n)).
    { cbn. apply Forall_cons in Hrows as [-> _]. reflexivity. }
    assert (Hn : (1 <= n)%nat) by (cbn in Hlen; lia).
    destruct (kick_spec n (row :: r') p0 dir (px (pos g)) Hn Hw Eback
                (kick_fuel (row :: r')) 1 (set_piece (Some (row :: r')) g))
      as (g' & E & Hres).
    + left. cbn. lia.
    + unfold kick_fuel. cbn [hd]. apply Forall_cons in Hrows as [-> _]. lia.
    + exists g', (row :: r'). split; [reflexivity|]. split; [exact E|].
      destruct Hres as [(d & Hd & -> & Hfree) | -> ].
      * left. exists d. cbn in Hfree |- *. auto.
      * right.
        transitivity (set_pos (Pos (px (pos g)) (py (pos g))) (set_piece (Some p0) g));
          [reflexivity | now apply set_pos_piece_eta].
Qed.

Lemma move_ready (dir : Z) (g : game) :
  ready g -> exists g', move dir g = Ok g' /\ ready g'.
Proof.
  intros (Hb & p & q & Hp & Hpo & Hq & Hqo & Hfits). unfold move.
  cbn [piece set_pos pos board px py]. rewrite Hp. cbn [deref obind].
  destruct (collide (board g) p _) eqn:Ehit; eexists; (split; [reflexivity|]);
    split; try exact Hb; exists p, q; cbn [piece nextPiece set_pos board pos];
    repeat split; try assumption.
  - replace (Pos (px (pos g) + dir - dir) (py (pos g))) with (pos g); [exact Hfits|].
    destruct (pos g); cbn; f_equal; lia.
  - now apply free_fits.
Qed.

Lemma rotate_ready (dir : Z) (g : game) :
  ready g -> dir <> 0 -> exists g', rotate dir g = Ok g' /\ ready g'.
Proof.
  intros Hready Hdir. pose proof Hready as (Hb & p & q & Hp & Hpo & Hq & Hqo & Hfits).
  destruct (orientation_facts p Hpo) as (Hsq & _).
  destruct (rotate_result g p (length p) dir Hp Hsq Hdir) as (g' & r & Er & E & Hres).
  exists g'. split; [exact E|].
  destruct Hres as [(d & _ & -> & Hfree) | -> ]; [|exact Hready].
  split; [exact Hb|]. exists r, q. cbn [piece nextPiece set_pos set_piece board pos].
  repeat split; try assumption.
  - destruct (orientation_turned p dir Hpo) as (m & Em & Hm). congruence.
  - now apply free_fits.
Qed.

Lemma drop_ready (r : Q) (g : game) :
  ready g -> unit_draw r -> exists g' evs, drop r g = Ok (g', evs) /\ ready g'.
Proof.
  intros (Hb & p & q & Hp & Hpo & Hq & Hqo & Hfits) [Hlo Hhi]. unfold drop.
  cbn [piece set_pos pos px py board]. rewrite Hp. cbn [deref obind].
  destruct (collide (board g) p (Pos (px (pos g)) (py (pos g) + 1))) eqn:Ehit.
  - replace (Pos (px (pos g)) (py (pos g) + 1 - 1)) with (pos g)
      by (destruct (pos g); cbn; f_equal; lia).
    destruct (fits_merge _ _ _ Hfits) as (b' & -> & Hshape). cbn [obind].
    pose proof (grid_same_shape _ _ Hshape Hb) as Hb'.
    unfold arenaSweep. cbn [board set_board]. rewrite (sweep_total b' (grid_rows b' Hb')).
    pose proof (sweep_result_grid b' Hb') as Hb''.
    destruct (sweep_result b') as [b'' k]. cbn [fst] in Hb''. cbn [obind].
    destruct (randomPiece_total r Hlo Hhi) as (n & -> & Hn).
    assert (Hspawn : fits b'' q spawn) by (apply spawn_fits; [|apply pieces_orientations]; assumption).
    destruct (0 <? k); cbn [obind piece set_piece set_nextPiece set_pos nextPiece
                                  set_board set_score];
      rewrite Hq; cbn [deref obind];
      match goal with |- context [if ?c then _ else _] => destruct c end;
      cbn [obind]; eexists _, _; (split; [reflexivity|]);
      (split; [exact Hb''|]); exists q, n;
      cbn [piece nextPiece board pos set_gameOver set_pos set_nextPiece set_piece
           set_board set_score set_dropCounter];
      repeat split; try assumption; now apply pieces_orientations.
  - cbn [obind]. eexists _, _. split; [reflexivity|]. split; [exact Hb|].
    exists p, q. cbn [piece nextPiece board pos set_pos set_dropCounter].
    repeat split; try assumption. now apply free_fits.
Qed.


Lemma lowered_0 (g : game) :
  set_score (score g + 2 * Z.of_nat 0)
    (set_pos (Pos (px (pos g)) (py (pos g) + Z.of_nat 0)) g) = g.
Proof.
  destruct g as [? ? ? ? ? ? [x y] ? ? ? ? ? ? ?]. cbn.
  now rewrite !Z.add_0_r.
Qed.

(** The fall of [hardDrop]: [k] rows down, to the first place from which
    the row below is not free. *)
Lemma fall_spec (p : matrix) (fuel : nat) : forall g,
  piece g = Some p ->
  has_cell p = true ->
  (Z.to_nat (Z.of_nat (length (board g)) - py (pos g)) < fuel)%nat ->
  exists k : nat,
    fall fuel g = Ok (set_score (score g + 2 * Z.of_nat k)
                        (set_pos (Pos (px (pos g)) (py (pos g) + Z.of_nat k)) g))
    /\ collide (board g) p (Pos (px (pos g)) (py (pos g) + Z.of_nat k + 1)) = true
    /\ forall k', (k' < k)%nat ->
         collide (board g) p (Pos (px (pos g)) (py (pos g) + Z.of_nat k' + 1)) = false.
Proof.
  induction fuel as [|fuel IH]; intros g Hp Hcell Hfuel; [lia|].
  cbn [fall]. rewrite Hp. cbn [deref obind].
  destruct (collide (board g) p (Pos (px (pos g)) (py (pos g) + 1))) eqn:Ehit.
  - exists 0%nat. rewrite lowered_0. split; [reflexivity|]. split.
    + now rewrite Z.add_0_r.
    + intros k' Hk'. lia.
  - assert (Hroom : py (pos g) + 1 < Z.of_nat (length (board g))).
    { destruct (has_cell_spec p Hcell) as (j & i & row & v & Hj & Hi & Hv).
      pose proof (free_fits _ _ _ Ehit j i row v Hj Hi Hv) as (brow & Hbrow & _).
      apply lookupZ_Some in Hbrow as [Hr _]. cbn [py] in Hr. lia. }
    destruct (IH (set_score (score g + 2)
                    (set_pos (Pos (px (pos g)) (py (pos g) + 1)) g)))
      as (k & E & Hstop & Hfree).
    + exact Hp.
    + exact Hcell.
    + cbn [board set_score set_pos pos py]. lia.
    + cbn [board pos set_score set_pos px py] in Hstop, Hfree.
      exists (S k). rewrite E. split; [|split].
      * f_equal. unfold set_score, set_pos.
        cbn [isRemote board score gameOver piece nextPiece pos dropCounter
             dropInterval onGameOver onScore onBoardUpdate onNextPiece
             onLinesCleared px py].
        f_equal; [lia | f_equal; lia].
      * rewrite <- Hstop. do 2 f_equal. lia.
      * intros [|k'] Hk'.
        -- now rewrite Z.add_0_r.
        -- rewrite <- (Hfree k') by lia. do 2 f_equal. lia.
Qed.

Lemma fall_ready (g : game) :
  ready g -> exists g1, fall (fall_fuel g) g = Ok g1 /\ ready g1.
Proof.
  intros Hready. pose proof Hready as (Hb & p & q & Hp & Hpo & Hq & Hqo & Hfits).
  destruct (orientation_facts p Hpo) as (_ & _ & Hcell & _).
  destruct (fall_spec p (fall_fuel g) g Hp Hcell) as (k & E & _ & Hfree).
  { unfold fall_fuel. lia. }
  eexists. split; [exact E|]. split; [exact Hb|]. exists p, q. fields.
  repeat split; try assumption.
  destruct k as [|k].
  - replace (Pos (px (pos g)) (py (pos g) + Z.of_nat 0)) with (pos g); [exact Hfits|].
    destruct (pos g); cbn; f_equal; lia.
  - apply free_fits. rewrite <- (Hfree k) by lia. do 2 f_equal. lia.
Qed.


(** ** Garbage *)

Lemma garbage_row_spec (r : Q) :
  unit_draw r ->
  exists h : nat, (h < 10)%nat /\ Z.of_nat h = Qfloor (r * inject_Z COLS)
    /\ garbage_row r = Ok (<[h := 0]> (replicate 10 8)).
Proof.
  intros [Hlo Hhi]. unfold garbage_row.
  destruct (uniform_index r 10 Hlo Hhi) as [H0 H1]; [lia|].
  change (inject_Z (Z.of_nat 10)) with (inject_Z COLS) in *.
  destruct (Z.leb_spec 0 (Qfloor (r * inject_Z COLS))); [|lia].
  destruct (Z.ltb_spec (Qfloor (r * inject_Z COLS)) COLS); [|unfold COLS in *; lia].
  exists (Z.to_nat (Qfloor (r * inject_Z COLS))). split; [lia|]. split; [lia|]. reflexivity.
Qed.

Lemma garbage_row_width (h : nat) : length (<[h := 0]> (replicate 10 8)) = 10%nat.
Proof. now rewrite length_insert, length_replicate. Qed.

(** The rows pushed by [n] rounds, from the draw [i] on. *)
Lemma garbage_loop_spec (draws : nat -> Q) (n : nat) : forall i b,
  (forall k, unit_draw (draws k)) ->
  b <> [] ->
  garbage_loop n i draws b =
  Ok (skipn n (b ++ map (fun k => <[Z.to_nat (Qfloor (draws k * inject_Z COLS)) := 0]>
                                   (replicate 10 8)) (seq i n))).
Proof.
  induction n as [|n IH]; intros i b Hdraws Hb; cbn [garbage_loop seq map].
  - now rewrite app_nil_r.
  - destruct (garbage_row_spec (draws i) (Hdraws i)) as (h & Hh & Eh & ->). cbn [obind].
    rewrite IH by (assumption || (destruct b; [congruence | now destruct b])).
    f_equal. destruct b as [|row0 b]; [congruence|]. cbn [tail app].
    rewrite <- Eh, Nat2Z.id, <- app_assoc. reflexivity.
Qed.

Lemma addGarbage_ready (lines : Z) (draws : nat -> Q) (g : game) :
  ready g -> (forall k, unit_draw (draws k)) ->
  exists g', addGarbage lines draws g = Ok g' /\ ready g'.
Proof.
  intros (Hb & p & q & Hp & Hpo & Hq & Hqo & Hfits) Hdraws. unfold addGarbage.
  assert (Hne : board g <> []) by (destruct Hb as [Hlen _]; now destruct (board g)).
  rewrite garbage_loop_spec by assumption. cbn [obind].
  eexists. split; [reflexivity|].
  assert (Hb' : grid (skipn (Z.to_nat lines)
                   (board g ++ map (fun k => <[Z.to_nat (Qfloor (draws k * inject_Z COLS)) := 0]>
                                               (replicate 10 8))
                                   (seq 0 (Z.to_nat lines))))).
  { destruct Hb as [Hlen Hrows]. split.
    - rewrite length_drop, length_app, length_map, length_seq. lia.
    - apply Forall_drop, Forall_app. split; [exact Hrows|].
      apply Forall_forall. intros row Hrow.
      apply list_elem_of_In, in_map_iff in Hrow as (k & <- & _). apply garbage_row_width. }
  split; [exact Hb'|]. exists p, q. fields. repeat split; try assumption.
  now apply (fits_grid (board g)).
Qed.

(** ** What each operation changes *)

Lemma sweep_result_count (b : matrix) : 0 <= snd (sweep_result b).
Proof.
  destruct b as [|top rest]; [reflexivity|]. unfold sweep_result.
  destruct (negb _ && row_full top); cbn [snd]; lia.
Qed.

Lemma pos_eta (g : game) : Pos (px (pos g)) (py (pos g)) = pos g.
Proof. now destruct (pos g). Qed.

(** The two ways of [drop]: the row below is free and the piece goes
    down, or it is not and the piece locks. *)
Lemma drop_moves (r : Q) (g : game) (p : matrix) :
  piece g = Some p ->
  collide (board g) p (Pos (px (pos g)) (py (pos g) + 1)) = false ->
  drop r g = Ok (set_dropCounter 0%Q (set_pos (Pos (px (pos g)) (py (pos g) + 1)) g), []).
Proof.
  intros Hp Hfree. unfold drop. cbn [piece set_pos pos px py board].
  rewrite Hp. cbn [deref obind]. now rewrite Hfree.
Qed.

Lemma drop_locks (r : Q) (g : game) (p q : matrix) :
  grid (board g) -> piece g = Some p -> nextPiece g = Some q ->
  fits (board g) p (pos g) -> unit_draw r ->
  collide (board g) p (Pos (px (pos g)) (py (pos g) + 1)) = true ->
  exists b1 n g' evs,
    merge (board g) p (pos g) = Ok b1
    /\ randomPiece r = Ok n /\ In n PIECES
    /\ drop r g = Ok (g', evs)
    /\ board g' = fst (sweep_result b1)
    /\ score g' = score g + 10 * snd (sweep_result b1)
    /\ piece g' = Some q /\ nextPiece g' = Some n /\ pos g' = spawn
    /\ gameOver g' = gameOver g || collide (fst (sweep_result b1)) q spawn.
Proof.
  intros Hb Hp Hq Hfits [Hlo Hhi] Ehit. unfold drop.
  cbn [piece set_pos pos px py board]. rewrite Hp. cbn [deref obind]. rewrite Ehit.
  replace (Pos (px (pos g)) (py (pos g) + 1 - 1)) with (pos g)
    by (destruct (pos g); cbn; f_equal; lia).
  destruct (fits_merge _ _ _ Hfits) as (b' & E & Hshape). rewrite E. cbn [obind].
  pose proof (grid_same_shape _ _ Hshape Hb) as Hb'.
  unfold arenaSweep. cbn [board set_board]. rewrite (sweep_total b' (grid_rows b' Hb')).
  pose proof (sweep_result_count b') as Hk.
  destruct (randomPiece_total r Hlo Hhi) as (n & En & Hn). rewrite En.
  exists b', n.
  destruct (sweep_result b') as [b'' k]. cbn [fst snd] in *. cbn [obind].
  destruct (Z.ltb_spec 0 k); cbn [obind piece set_piece set_nextPiece set_pos nextPiece
                                set_board set_score];
    rewrite Hq; cbn [deref obind];
    match goal with |- context [if ?c then _ else _] => destruct c eqn:Eover end;
    cbn [obind]; eexists _, _;
    (split; [reflexivity|]); (split; [reflexivity|]); (split; [exact Hn|]);
    (split; [reflexivity|]);
    cbn [piece nextPiece board pos score gameOver set_gameOver set_pos set_nextPiece
         set_piece set_board set_score set_dropCounter];
    cbn [board set_board set_score set_piece set_nextPiece] in Eover;
    rewrite ?Eover, ?orb_true_r, ?orb_false_r;
    repeat split; lia.
Qed.

Lemma move_facts (dir : Z) (g : game) (p : matrix) :
  piece g = Some p ->
  exists x, move dir g = Ok (set_pos (Pos x (py (pos g))) g)
    /\ (x = px (pos g)
        \/ x = px (pos g) + dir /\ collide (board g) p (Pos x (py (pos g))) = false).
Proof.
  intros Hp. unfold move. cbn [piece set_pos pos board px py]. rewrite Hp.
  cbn [deref obind].
  destruct (collide (board g) p _) eqn:Ehit.
  - exists (px (pos g)). split; [|now left].
    f_equal. unfold set_pos. cbn.
    replace (px (pos g) + dir - dir) with (px (pos g)) by lia. reflexivity.
  - exists (px (pos g) + dir). split; [reflexivity|]. right. now split.
Qed.

(** ** The invariants of a game in play *)

Lemma clear_set_pos (g : game) (p : matrix) (x y : Z) :
  piece g = Some p -> collide (board g) p (Pos x y) = false ->
  clear (set_pos (Pos x y) g).
Proof. intros Hp Hfree _ p' Hp'. cbn in *. congruence. Qed.

Lemma move_keeps (dir : Z) (g : game) :
  ready g ->
  exists g', move dir g = Ok g' /\ ready g' /\ score g' = score g
    /\ gameOver g' = gameOver g /\ (clear g -> clear g').
Proof.
  intros Hready. destruct (move_ready dir g Hready) as (g' & E & Hready').
  exists g'. split; [exact E|]. split; [exact Hready'|].
  destruct Hready as (_ & p & _ & Hp & _).
  destruct (move_facts dir g p Hp) as (x & E' & Hx). rewrite E' in E.
  injection E as <-. fields. split; [reflexivity|]. split; [reflexivity|].
  destruct Hx as [-> | [-> Hfree]].
  - rewrite pos_eta. intros Hc. destruct g; exact Hc.
  - intros _. now apply (clear_set_pos g p).
Qed.

Lemma rotate_keeps (dir : Z) (g : game) :
  ready g -> dir <> 0 ->
  exists g', rotate dir g = Ok g' /\ ready g' /\ score g' = score g
    /\ gameOver g' = gameOver g /\ (clear g -> clear g').
Proof.
  intros Hready Hdir. destruct (rotate_ready dir g Hready Hdir) as (g' & E & Hready').
  exists g'. split; [exact E|]. split; [exact Hready'|].
  destruct Hready as (_ & p & _ & Hp & Hpo & _).
  destruct (orientation_facts p Hpo) as (Hsq & _).
  destruct (rotate_result g p (length p) dir Hp Hsq Hdir) as (g2 & r & _ & E2 & Hres).
  rewrite E2 in E. injection E as <-.
  destruct Hres as [(d & _ & -> & Hfree) | -> ]; [|repeat split; trivial].
  fields. split; [reflexivity|]. split; [reflexivity|].
  intros _ _ p' Hp'. cbn in Hp'. injection Hp' as <-. exact Hfree.
Qed.

Lemma drop_keeps (r : Q) (g : game) :
  ready g -> unit_draw r ->
  exists g' evs, drop r g = Ok (g', evs) /\ ready g' /\ score g <= score g'
    /\ (gameOver g = true -> gameOver g' = true) /\ clear g'.
Proof.
  intros Hready Hr. destruct (drop_ready r g Hready Hr) as (g' & evs & E & Hready').
  exists g', evs. split; [exact E|]. split; [exact Hready'|].
  destruct Hready as (Hb & p & q & Hp & _ & Hq & _ & Hfits).
  destruct (collide (board g) p (Pos (px (pos g)) (py (pos g) + 1))) eqn:Ehit.
  - destruct (drop_locks r g p q Hb Hp Hq Hfits Hr Ehit)
      as (b1 & n & g2 & evs2 & _ & _ & _ & E2 & Hbd & Hsc & Hpc & _ & Hpos & Hover).
    rewrite E2 in E. injection E as <- <-.
    pose proof (sweep_result_count b1). split; [lia|]. split.
    + intros Ho. now rewrite Hover, Ho.
    + intros Hgo p' Hp'. rewrite Hover in Hgo. apply orb_false_iff in Hgo as [_ Hgo].
      rewrite Hbd, Hpos. congruence.
  - rewrite (drop_moves r g p Hp Ehit) in E. injection E as <- <-. fields.
    split; [lia|]. split; [trivial|].
    intros _ p' Hp'. cbn in Hp'. cbn [board pos set_dropCounter set_pos]. congruence.
Qed.

Lemma fall_keeps (g : game) :
  ready g ->
  exists (k : nat) g1, fall (fall_fuel g) g = Ok g1 /\ ready g1
    /\ score g1 = score g + 2 * Z.of_nat k
    /\ gameOver g1 = gameOver g.
Proof.
  intros Hready. destruct (fall_ready g Hready) as (g1 & E & Hready1).
  destruct Hready as (_ & p & _ & Hp & Hpo & _).
  destruct (orientation_facts p Hpo) as (_ & _ & Hcell & _).
  destruct (fall_spec p (fall_fuel g) g Hp Hcell) as (k & E2 & _).
  { unfold fall_fuel. lia. }
  rewrite E2 in E. injection E as <-. exists k. eexists. split; [exact E2|].
  split; [exact Hready1|]. now fields.
Qed.

Lemma hardDrop_keeps (r : Q) (g : game) :
  ready g -> unit_draw r ->
  exists g' evs, hardDrop r g = Ok (g', evs) /\ ready g' /\ score g <= score g'
    /\ (gameOver g = true -> gameOver g' = true) /\ clear g'.
Proof.
  intros Hready Hr. unfold hardDrop.
  destruct (fall_keeps g Hready) as (k & g1 & -> & Hready1 & Hsc & Hgo). cbn [obind].
  destruct (drop_keeps r g1 Hready1 Hr) as (g' & evs & -> & Hready' & Hsc' & Hgo' & Hc).
  exists g', evs. split; [reflexivity|]. split; [exact Hready'|].
  split; [lia|]. split; [|exact Hc]. rewrite <- Hgo. exact Hgo'.
Qed.

Ltac settle :=
  repeat match goal with |- _ /\ _ => split end;
  intros; try assumption; try reflexivity; try lia; try congruence;
  try (split; reflexivity); auto.

Lemma session_eta (s : session) : Session (the_game s) (lastTime s) = s.
Proof. now destruct s. Qed.

(** One input to a ready game: it returns, the game is ready again, the
    score did not go down, a game that was over stays so; a key or a
    frame keeps the piece clear, and changes nothing once the game is
    over. *)
Lemma step_keeps (i : input) (s : session) :
  ready (the_game s) -> proper i ->
  exists s' evs, step i s = Ok (s', evs) /\ ready (the_game s')
    /\ score (the_game s) <= score (the_game s')
    /\ (gameOver (the_game s) = true -> gameOver (the_game s') = true)
    /\ (local i = true -> clear (the_game s) -> clear (the_game s'))
    /\ (local i = true -> gameOver (the_game s) = true -> s' = s /\ evs = []).
Proof.
  intros Hready Hi.
  destruct i as [code ignore r | time r | lines draws]; cbn [step proper local] in *.
  - unfold keydown. destruct (gameOver (the_game s)) eqn:Ego.
    { cbn [obind deref]. rewrite session_eta. eexists _, _. split; [reflexivity|].
      settle. }
    destruct ignore.
    { cbn [obind deref]. rewrite session_eta. eexists _, _. split; [reflexivity|].
      settle. }
    destruct (_ || _).
    { destruct (move_keeps (-1) _ Hready) as (g' & -> & Hg' & Hsc & Hgo & Hc).
      cbn [obind deref]. eexists _, _. split; [reflexivity|]. cbn [the_game].
      settle. }
    destruct (_ || _).
    { destruct (move_keeps 1 _ Hready) as (g' & -> & Hg' & Hsc & Hgo & Hc).
      cbn [obind deref]. eexists _, _. split; [reflexivity|]. cbn [the_game].
      settle. }
    destruct (_ || _).
    { destruct (drop_keeps r _ Hready Hi) as (g' & evs & -> & Hg' & Hsc & Hgo & Hc).
      cbn [obind deref]. eexists _, _. split; [reflexivity|]. cbn [the_game].
      settle. }
    destruct (_ || _).
    { destruct (rotate_keeps 1 _ Hready) as (g' & -> & Hg' & Hsc & Hgo & Hc); [discriminate|].
      cbn [obind deref]. eexists _, _. split; [reflexivity|]. cbn [the_game].
      settle. }
    destruct (String.eqb code "Space").
    { destruct (hardDrop_keeps r _ Hready Hi) as (g' & evs & -> & Hg' & Hsc & Hgo & Hc).
      cbn [obind deref]. eexists _, _. split; [reflexivity|]. cbn [the_game].
      settle. }
    cbn [obind deref]. rewrite session_eta. eexists _, _. split; [reflexivity|].
    settle.
  - unfold loop. destruct (gameOver (the_game s)) eqn:Ego.
    { cbn [obind]. eexists _, _. split; [reflexivity|]. settle. }
    set (g1 := set_dropCounter _ _).
    assert (Hg1 : ready g1) by exact Hready.
    destruct (Qlt_bool (dropInterval g1) (dropCounter g1)).
    + destruct (drop_keeps r g1 Hg1 Hi) as (g' & evs & -> & Hg' & Hsc & Hgo & Hc).
      cbn [obind]. eexists _, _. split; [reflexivity|]. cbn [the_game].
      settle.
    + cbn [obind]. eexists _, _. split; [reflexivity|]. cbn [the_game].
      settle.
  - destruct (addGarbage_ready lines draws _ Hready Hi) as (g' & E & Hg').
    rewrite E. cbn [obind]. eexists _, _. split; [reflexivity|]. cbn [the_game].
    unfold addGarbage in E. destruct (garbage_loop _ _ _ _); try discriminate.
    cbn [obind] in E. injection E as <-. fields.
    settle.
Qed.

Lemma run_keeps (inputs : list input) : forall s,
  ready (the_game s) -> Forall proper inputs ->
  exists s' evs, run inputs s = Ok (s', evs) /\ ready (the_game s')
    /\ score (the_game s) <= score (the_game s')
    /\ (gameOver (the_game s) = true -> gameOver (the_game s') = true)
    /\ (Forall (fun i => local i = true) inputs ->
        clear (the_game s) -> clear (the_game s')).
Proof.
  induction inputs as [|i rest IH]; intros s Hready Hproper; cbn [run].
  - eexists _, _. split; [reflexivity|]. settle.
  - apply Forall_cons in Hproper as [Hi Hrest].
    destruct (step_keeps i s Hready Hi) as (s1 & evs1 & -> & Hr1 & Hs1 & Hg1 & Hc1 & _).
    cbn [obind].
    destruct (IH s1 Hr1 Hrest) as (s2 & evs2 & -> & Hr2 & Hs2 & Hg2 & Hc2).
    cbn [obind]. eexists _, _. split; [reflexivity|].
    split; [exact Hr2|]. split; [lia|]. split; [auto|].
    intros Hloc Hc. apply Forall_cons in Hloc as [Hl Hloc]. auto.
Qed.

Lemma pieces_spawn_clear (p : matrix) :
  In p PIECES ->
  collide createBoard p spawn = false /\ collide createBoard p (Pos 3 1) = false.
Proof.
  intros Hp. unfold PIECES in Hp. cbn [In] in Hp.
  repeat (destruct Hp as [<- | Hp]; [split; vm_compute; reflexivity|]).
  destruct Hp.
Qed.

Lemma createBoard_grid : grid createBoard.
Proof. split; [reflexivity | repeat constructor]. Qed.

Lemma reset_facts (r1 r2 : Q) (g : game) :
  unit_draw r1 -> unit_draw r2 ->
  exists n p g',
    randomPiece r1 = Ok n /\ randomPiece r2 = Ok p /\ In n PIECES /\ In p PIECES
    /\ reset r1 r2 g
       = Ok (g', fire (onScore g) (EvScore 0) ++ fire (onNextPiece g) (EvNextPiece n))
    /\ board g' = createBoard /\ score g' = 0 /\ gameOver g' = false
    /\ nextPiece g' = Some n /\ piece g' = Some p /\ pos g' = spawn
    /\ dropCounter g' = 0%Q /\ dropInterval g' = 1000%Q /\ isRemote g' = isRemote g.
Proof.
  intros [Hlo1 Hhi1] [Hlo2 Hhi2]. unfold reset.
  destruct (randomPiece_total r1 Hlo1 Hhi1) as (n & En & Hn).
  destruct (randomPiece_total r2 Hlo2 Hhi2) as (p & Ep & Hp).
  exists n, p. rewrite En, Ep. cbn [obind]. eexists.
  repeat (split; [reflexivity || assumption|]). reflexivity.
Qed.

Lemma fresh_ready (g : game) (n p : matrix) :
  board g = createBoard -> nextPiece g = Some n -> piece g = Some p -> pos g = spawn ->
  In n PIECES -> In p PIECES -> gameOver g = false ->
  ready g /\ clear g.
Proof.
  intros Hb Hn Hp Hpos Hnin Hpin Hgo. split.
  - split; [rewrite Hb; exact createBoard_grid|]. exists p, n.
    repeat split; try assumption; [now apply pieces_orientations|].
    rewrite Hb, Hpos. apply free_fits. now apply pieces_spawn_clear.
  - intros _ p' Hp'. rewrite Hb, Hpos. apply pieces_spawn_clear. congruence.
Qed.

Lemma opening_ready : ready (the_game opening) /\ clear (the_game opening).
Proof.
  apply (fresh_ready _ [[4; 4; 0]; [0; 4; 4]; [0; 0; 0]] [[2; 2]; [2; 2]]);
    try (vm_compute; reflexivity); unfold PIECES; in_list.
Qed.

Lemma unit_half : unit_draw (1 # 2).
Proof. split; [discriminate | reflexivity]. Qed.

Lemma proper_sample :
  Forall proper [KeyDown "ArrowUp" false (1 # 2); KeyDown "KeyA" false (1 # 2);
                 Frame 1200 (1 # 2); KeyDown "Space" false (1 # 2)].
Proof. repeat constructor; discriminate. Qed.

(** ** Where the merge happens *)

(** On a position that fits, [merge] returns a board of the same shape
    that holds every nonzero cell of the piece. *)
Lemma merge_where_fits (b : matrix) (p : matrix) (off : position) :
  fits b p off ->
  exists b', merge b p off = Ok b'
    /\ map length b' = map length b
    /\ forall j i row v,
         p !! j = Some row -> row !! i = Some v -> v <> 0 ->
         cell b' (Z.of_nat j + py off) (Z.of_nat i + px off) = Some v.
Proof.
  intros Hfits.
  destruct (merge_rows_spec off p b 0) as (b' & E & Hs & Ha & _).
  - intros j i row v Hj Hi Hv. rewrite Z.add_0_l. now apply (Hfits j i row v).
  - exists b'. split; [exact E|]. split; [exact Hs|].
    intros j i row v Hj Hi Hv. specialize (Ha j i row v Hj Hi Hv).
    now rewrite Z.add_0_l in Ha.
Qed.

Lemma soft_drops_proper : Forall proper soft_drops.
Proof. apply Forall_replicate. split; [discriminate | reflexivity]. Qed.

Lemma soft_drops_then_garbage_proper : Forall proper soft_drops_then_garbage.
Proof.
  apply Forall_app. split; [exact soft_drops_proper|].
  constructor; [|constructor]. intros k. split; [discriminate | reflexivity].
Qed.

(** C10 as the design document words it fails: the position [merge] is
    given was free of collision when the piece got there, not when it
    locks.  After eighteen soft drops the O piece stands on the floor;
    one line of garbage lifts filled cells into it; [collide] answers
    [true] at its position, and the next [drop] merges it there, storing
    a 2 over the 8 of the garbage. *)
Lemma garbage_lifts_cells_into_piece :
  exists s evs merged g' evs',
    run soft_drops_then_garbage opening = Ok (s, evs)
    /\ gameOver (the_game s) = false
    /\ piece (the_game s) = Some [[2; 2]; [2; 2]]
    /\ pos (the_game s) = Pos 3 18
    /\ cell (board (the_game s)) 19 3 = Some 8
    /\ collide (board (the_game s)) [[2; 2]; [2; 2]] (Pos 3 18) = true
    /\ merge (board (the_game s)) [[2; 2]; [2; 2]] (Pos 3 18) = Ok merged
    /\ cell merged 19 3 = Some 2
    /\ drop 0 (the_game s) = Ok (g', evs')
    /\ board g' = merged.
Proof.
  eexists _, _, _, _, _. split; [vm_compute; reflexivity|].
  split; [reflexivity|]. split; [reflexivity|]. split; [reflexivity|].
  split; [vm_compute; reflexivity|]. split; [vm_compute; reflexivity|].
  split; [vm_compute; reflexivity|]. split; [vm_compute; reflexivity|].
  split; [vm_compute; reflexivity | reflexivity].
Qed.

(** C10, as the source has it.  [collide] answers [true] as soon as a
    nonzero cell of the piece would land outside the board (a row or a
    column that does not exist, on either side).  [merge] is called by
    [drop], at the position of the piece, when the piece cannot go
    down.  In every state a game reaches from one that [reset] has set
    up, through keys, frames and garbage, every nonzero cell of the
    piece lies on the board at that position: the merge returns, keeps
    the shape of the board, stores each of those cells in a cell that
    exists, and the drop that locks the piece hands the merged board to
    the sweep.  As long as no garbage arrives and the game is not over,
    [collide] answers [false] at that position. *)
Theorem merge_stays_on_board (b p : matrix) (off : position)
    (inputs : list input) (s : session) (r : Q) :
  (forall j i row v,
     p !! j = Some row -> row !! i = Some v -> v <> 0 ->
     ~ in_bounds b (Z.of_nat j + py off) (Z.of_nat i + px off) ->
     collide b p off = true)
  /\ (ready (the_game s) -> Forall proper inputs -> unit_draw r ->
      exists s' evs q,
        run inputs s = Ok (s', evs)
        /\ piece (the_game s') = Some q
        /\ (exists merged,
              merge (board (the_game s')) q (pos (the_game s')) = Ok merged
              /\ map length merged = map length (board (the_game s'))
              /\ (forall j i row v,
                    q !! j = Some row -> row !! i = Some v -> v <> 0 ->
                    in_bounds (board (the_game s'))
                      (Z.of_nat j + py (pos (the_game s')))
                      (Z.of_nat i + px (pos (the_game s')))
                    /\ cell merged (Z.of_nat j + py (pos (the_game s')))
                         (Z.of_nat i + px (pos (the_game s'))) = Some v)
              /\ (collide (board (the_game s')) q
                    (Pos (px (pos (the_game s'))) (py (pos (the_game s')) + 1)) = true ->
                  exists g' evs',
                    drop r (the_game s') = Ok (g', evs')
                    /\ board g' = fst (sweep_result merged)))
        /\ (Forall (fun i => local i = true) inputs -> clear (the_game s) ->
            gameOver (the_game s') = false ->
            collide (board (the_game s')) q (pos (the_game s')) = false)).
Proof.
  split.
  - intros j i row v Hj Hi Hv Hout. apply collide_true.
    exists j, i, row, v. repeat split; try assumption.
    unfold blocked. apply cell_None_iff in Hout. now rewrite Hout.
  - intros Hready Hproper Hr.
    destruct (run_keeps inputs s Hready Hproper)
      as (s' & evs & Hrun & Hready' & _ & _ & Hclear).
    destruct Hready' as (Hgrid & q & n & Hq & _ & Hn & _ & Hfits).
    exists s', evs, q. split; [exact Hrun|]. split; [exact Hq|]. split.
    + destruct (merge_where_fits _ _ _ Hfits) as (merged & Hmerge & Hshape & Hcells).
      exists merged. split; [exact Hmerge|]. split; [exact Hshape|]. split.
      * intros j i row v Hj Hi Hv. split; [now apply (Hfits j i row v) | now apply (Hcells j i row v)].
      * intros Hhit.
        destruct (drop_locks r (the_game s') q n Hgrid Hq Hn Hfits Hr Hhit)
          as (b1 & n' & g' & evs' & Hmerge' & _ & _ & Hdrop & Hboard & _).
        exists g', evs'. split; [exact Hdrop|]. congruence.
    + intros Hlocal Hc Hgo. now apply (Hclear Hlocal Hc Hgo).
Qed.

Lemma merge_stays_on_board_witness :
  collide createBoard [[2; 2]; [2; 2]] (Pos 9 0) = true
  /\ (exists s' evs q,
        run soft_drops opening = Ok (s', evs)
        /\ piece (the_game s') = Some q
        /\ (exists merged,
              merge (board (the_game s')) q (pos (the_game s')) = Ok merged
              /\ map length merged = map length (board (the_game s'))
              /\ (forall j i row v,
                    q !! j = Some row -> row !! i = Some v -> v <> 0 ->
                    in_bounds (board (the_game s'))
                      (Z.of_nat j + py (pos (the_game s')))
                      (Z.of_nat i + px (pos (the_game s')))
                    /\ cell merged (Z.of_nat j + py (pos (the_game s')))
                         (Z.of_nat i + px (pos (the_game s'))) = Some v)
              /\ (collide (board (the_game s')) q
                    (Pos (px (pos (the_game s'))) (py (pos (the_game s')) + 1)) = true ->
                  exists g' evs',
                    drop (1 # 2) (the_game s') = Ok (g', evs')
                    /\ board g' = fst (sweep_result merged)))
        /\ (Forall (fun i => local i = true) soft_drops -> clear (the_game opening) ->
            gameOver (the_game s') = false ->
            collide (board (the_game s')) q (pos (the_game s')) = false))
  /\ (exists s' evs q,
        run soft_drops_then_garbage opening = Ok (s', evs)
        /\ piece (the_game s') = Some q
        /\ (exists merged,
              merge (board (the_game s')) q (pos (the_game s')) = Ok merged
              /\ map length merged = map length (board (the_game s'))
              /\ (forall j i row v,
                    q !! j = Some row -> row !! i = Some v -> v <> 0 ->
                    in_bounds (board (the_game s'))
                      (Z.of_nat j + py (pos (the_game s')))
                      (Z.of_nat i + px (pos (the_game s')))
                    /\ cell merged (Z.of_nat j + py (pos (the_game s')))
                         (Z.of_nat i + px (pos (the_game s'))) = Some v)
              /\ (collide (board (the_game s')) q
                    (Pos (px (pos (the_game s'))) (py (pos (the_game s')) + 1)) = true ->
                  exists g' evs',
                    drop (1 # 2) (the_game s') = Ok (g', evs')
                    /\ board g' = fst (sweep_result merged)))
        /\ (Forall (fun i => local i = true) soft_drops_then_garbage ->
            clear (the_game opening) ->
            gameOver (the_game s') = false ->
            collide (board (the_game s')) q (pos (the_game s')) = false)).
Proof.
  split; [|split].
  - apply (proj1 (merge_stays_on_board createBoard [[2; 2]; [2; 2]] (Pos 9 0)
                    soft_drops opening (1 # 2)) 0%nat 1%nat [2; 2] 2);
      try reflexivity; [lia|].
    intros (row & Hrow & Hc). vm_compute in Hrow. injection Hrow as <-.
    cbn in Hc. lia.
  - apply (proj2 (merge_stays_on_board createBoard [[2; 2]; [2; 2]] (Pos 9 0)
                    soft_drops opening (1 # 2))).
    + apply opening_ready.
    + exact soft_drops_proper.
    + exact unit_half.
  - apply (proj2 (merge_stays_on_board createBoard [[2; 2]; [2; 2]] (Pos 9 0)
                    soft_drops_then_garbage opening (1 # 2))).
    + apply opening_ready.
    + exact soft_drops_then_garbage_proper.
    + exact unit_half.
Defined.

(** ** A game in play *)



(** X2. [reset] with draws in [0, 1) succeeds from any state: the board
    is empty, the score 0, the game not over; the first draw gives the
    preview and the second the active shape, both from the table; the
    shape sits at (3, 0), where it overlaps nothing; the score callback
    (with 0) and then the next-piece callback are fired when registered. *)
Theorem reset_deals (r1 r2 : Q) (g : game) :
  unit_draw r1 -> unit_draw r2 ->
  exists n p g',
    randomPiece r1 = Ok n /\ randomPiece r2 = Ok p
    /\ reset r1 r2 g
       = Ok (g', fire (onScore g) (EvScore 0) ++ fire (onNextPiece g) (EvNextPiece n))
    /\ board g' = createBoard /\ score g' = 0 /\ gameOver g' = false
    /\ nextPiece g' = Some n /\ piece g' = Some p /\ pos g' = spawn
    /\ collide (board g') p (pos g') = false
    /\ ready g'.
Proof.
  intros H1 H2.
  destruct (reset_facts r1 r2 g H1 H2)
    as (n & p & g' & En & Ep & Hn & Hp & E & Hb & Hs & Hgo & Hnx & Hpc & Hpos & _).
  exists n, p, g'. repeat (split; [assumption|]).
  destruct (fresh_ready g' n p Hb Hnx Hpc Hpos Hn Hp Hgo) as [Hr Hc].
  split; [now apply Hc | exact Hr].
Qed.

Lemma reset_deals_witness :
  exists n p g',
    randomPiece (1 # 2) = Ok n /\ randomPiece (1 # 7) = Ok p
    /\ reset (1 # 2) (1 # 7) topped_out
       = Ok (g', fire (onScore topped_out) (EvScore 0)
                 ++ fire (onNextPiece topped_out) (EvNextPiece n))
    /\ board g' = createBoard /\ score g' = 0 /\ gameOver g' = false
    /\ nextPiece g' = Some n /\ piece g' = Some p /\ pos g' = spawn
    /\ collide (board g') p (pos g') = false
    /\ ready g'.
Proof. apply reset_deals; split; (discriminate || reflexivity). Defined.

(** X3. [start] on a local game is [reset] followed by the first frame:
    it returns with the next frame requested, an empty board, score 0,
    the game not over and the piece overlapping nothing, whatever the
    state before; on a remote game it does nothing at all. *)
Theorem start_begins (r1 r2 r3 : Q) (s : session) :
  unit_draw r1 -> unit_draw r2 -> unit_draw r3 ->
  if isRemote (the_game s) then start r1 r2 r3 s = Ok (s, [], false)
  else exists s' evs,
    start r1 r2 r3 s = Ok (s', evs, true)
    /\ board (the_game s') = createBoard /\ score (the_game s') = 0
    /\ gameOver (the_game s') = false
    /\ ready (the_game s') /\ clear (the_game s').
Proof.
  intros H1 H2 H3. unfold start. destruct (isRemote (the_game s)); [reflexivity|].
  destruct (reset_facts r1 r2 (the_game s) H1 H2)
    as (n & p & g' & En & Ep & Hn & Hp & E & Hb & Hs & Hgo & Hnx & Hpc & Hpos & _).
  rewrite E. cbn [obind]. unfold loop. cbn [the_game lastTime]. rewrite Hgo.
  set (g1 := set_dropCounter _ g').
  destruct (fresh_ready g' n p Hb Hnx Hpc Hpos Hn Hp Hgo) as [Hr Hc].
  destruct (Qlt_bool (dropInterval g1) (dropCounter g1)).
  - assert (Hfree : collide (board g1) p (Pos (px (pos g1)) (py (pos g1) + 1)) = false).
    { subst g1. cbn [board pos set_dropCounter]. rewrite Hb, Hpos.
      now apply pieces_spawn_clear. }
    rewrite (drop_moves r3 g1 p Hpc Hfree). cbn [obind].
    eexists _, _. split; [reflexivity|]. cbn [the_game]. fields.
    cbn [board score gameOver set_dropCounter set_pos].
    do 3 (split; [assumption|]). split.
    + split; [exact (proj1 Hr)|]. exists p, n. fields.
      cbn [piece nextPiece board pos set_dropCounter set_pos].
      repeat split; try assumption; [now apply pieces_orientations|].
      now apply free_fits.
    + intros _ p' Hp'. cbn in Hp'. cbn [board pos set_dropCounter set_pos].
      congruence.
  - cbn [obind]. eexists _, _. split; [reflexivity|]. cbn [the_game].
    subst g1. cbn [board score gameOver set_dropCounter].
    do 3 (split; [assumption|]). split; [exact Hr | exact Hc].
Qed.

Lemma start_begins_witness :
  exists s' evs,
    start (1 # 2) (1 # 2) (1 # 2) (Session topped_out 0) = Ok (s', evs, true)
    /\ board (the_game s') = createBoard /\ score (the_game s') = 0
    /\ gameOver (the_game s') = false
    /\ ready (the_game s') /\ clear (the_game s').
Proof.
  exact (start_begins (1 # 2) (1 # 2) (1 # 2) (Session topped_out 0)
           unit_half unit_half unit_half).
Defined.

(** X4. [hardDrop] takes the piece straight down to the lowest row it can
    reach ([k] rows: each of them free, the next one not), pays 2 points a
    row, and locks it there: the board is the merge at that place followed
    by the sweep, the score gains 10 a row cleared, and the queued shape
    becomes the active one at (3, 0). *)
Theorem hardDrop_lands (r : Q) (g : game) (p : matrix) :
  ready g -> piece g = Some p -> unit_draw r ->
  exists (k : nat) b1 g' evs,
    (forall k', (k' < k)%nat ->
       collide (board g) p (Pos (px (pos g)) (py (pos g) + Z.of_nat k' + 1)) = false)
    /\ collide (board g) p (Pos (px (pos g)) (py (pos g) + Z.of_nat k + 1)) = true
    /\ merge (board g) p (Pos (px (pos g)) (py (pos g) + Z.of_nat k)) = Ok b1
    /\ hardDrop r g = Ok (g', evs)
    /\ board g' = fst (sweep_result b1)
    /\ score g' = score g + 2 * Z.of_nat k + 10 * snd (sweep_result b1)
    /\ piece g' = nextPiece g /\ pos g' = spawn.
Proof.
  intros Hready Hp Hr. unfold hardDrop.
  destruct (fall_ready g Hready) as (g1 & E & Hready1).
  pose proof Hready as (_ & p0 & q & Hp0 & Hpo & Hq & _).
  assert (p0 = p) as -> by congruence.
  destruct (orientation_facts p Hpo) as (_ & _ & Hcell & _).
  destruct (fall_spec p (fall_fuel g) g Hp Hcell) as (k & E2 & Hstop & Hfree).
  { unfold fall_fuel. lia. }
  rewrite E2 in E. injection E as <-. rewrite E2. cbn [obind].
  destruct Hready1 as (Hb1 & p1 & q1 & Hp1 & _ & Hq1 & _ & Hfits1).
  cbn [piece nextPiece set_score set_pos] in Hp1, Hq1.
  assert (p1 = p) as -> by congruence. assert (q1 = q) as -> by congruence.
  match type of Hfits1 with fits _ _ (pos ?x) => set (g1 := x) in * end.
  destruct (drop_locks r g1 p q Hb1 Hp1 Hq1 Hfits1 Hr)
    as (b1 & n & g' & evs & Em & _ & _ & Ed & Hbd & Hsc & Hpc & _ & Hpos & _).
  { exact Hstop. }
  exists k, b1, g', evs. split; [exact Hfree|]. split; [exact Hstop|].
  split; [exact Em|]. split; [exact Ed|]. split; [exact Hbd|].
  split; [|split; [congruence | exact Hpos]].
  rewrite Hsc. subst g1. cbn [score set_score set_pos]. lia.
Qed.

Lemma hardDrop_lands_witness :
  exists (k : nat) b1 g' evs,
    (forall k', (k' < k)%nat ->
       collide (board (the_game opening)) [[2; 2]; [2; 2]]
               (Pos (px (pos (the_game opening)))
                    (py (pos (the_game opening)) + Z.of_nat k' + 1)) = false)
    /\ collide (board (the_game opening)) [[2; 2]; [2; 2]]
               (Pos (px (pos (the_game opening)))
                    (py (pos (the_game opening)) + Z.of_nat k + 1)) = true
    /\ merge (board (the_game opening)) [[2; 2]; [2; 2]]
             (Pos (px (pos (the_game opening)))
                  (py (pos (the_game opening)) + Z.of_nat k)) = Ok b1
    /\ hardDrop (1 # 2) (the_game opening) = Ok (g', evs)
    /\ board g' = fst (sweep_result b1)
    /\ score g' = score (the_game opening) + 2 * Z.of_nat k + 10 * snd (sweep_result b1)
    /\ piece g' = nextPiece (the_game opening) /\ pos g' = spawn.
Proof.
  apply hardDrop_lands.
  - exact (proj1 opening_ready).
  - reflexivity.
  - exact unit_half.
Defined.

(** X5. When [drop] finds the row below taken, it locks: the piece is
    merged where it stands, the sweep runs and pays 10 a row, the queued
    shape becomes the active one at (3, 0), the draw fills the queue, and
    the game is over from then on exactly when the new piece overlaps the
    board where it spawns. *)
Theorem drop_locks_piece (r : Q) (g : game) (p q : matrix) :
  ready g -> piece g = Some p -> nextPiece g = Some q -> unit_draw r ->
  collide (board g) p (Pos (px (pos g)) (py (pos g) + 1)) = true ->
  exists b1 n g' evs,
    merge (board g) p (pos g) = Ok b1
    /\ randomPiece r = Ok n
    /\ drop r g = Ok (g', evs)
    /\ board g' = fst (sweep_result b1)
    /\ score g' = score g + 10 * snd (sweep_result b1)
    /\ piece g' = Some q /\ nextPiece g' = Some n /\ pos g' = spawn
    /\ gameOver g' = gameOver g || collide (board g') q spawn.
Proof.
  intros (Hb & p0 & q0 & Hp0 & _ & Hq0 & _ & Hfits) Hp Hq Hr Ehit.
  assert (p0 = p) as -> by congruence.
  destruct (drop_locks r g p q Hb Hp Hq Hfits Hr Ehit)
    as (b1 & n & g' & evs & Em & En & _ & Ed & Hbd & Hsc & Hpc & Hnx & Hpos & Hgo).
  exists b1, n, g', evs. rewrite Hbd. repeat (split; [assumption || reflexivity|]).
  exact Hgo.
Qed.

Lemma drop_locks_piece_witness :
  exists b1 n g' evs,
    merge (board about_to_top_out) [[2; 2]; [2; 2]] (pos about_to_top_out) = Ok b1
    /\ randomPiece (1 # 2) = Ok n
    /\ drop (1 # 2) about_to_top_out = Ok (g', evs)
    /\ board g' = fst (sweep_result b1)
    /\ score g' = score about_to_top_out + 10 * snd (sweep_result b1)
    /\ piece g' = Some [[0; 1; 0]; [1; 1; 1]; [0; 0; 0]]
    /\ nextPiece g' = Some n /\ pos g' = spawn
    /\ gameOver g'
       = gameOver about_to_top_out
         || collide (board g') [[0; 1; 0]; [1; 1; 1]; [0; 0; 0]] spawn.
Proof.
  apply drop_locks_piece.
  - split; [split; [reflexivity | repeat constructor]|].
    exists [[2; 2]; [2; 2]], [[0; 1; 0]; [1; 1; 1]; [0; 0; 0]].
    split; [reflexivity|]. split; [unfold orientations, PIECES; cbn [flat_map app]; in_list|].
    split; [reflexivity|]. split; [unfold PIECES; in_list|].
    apply free_fits. vm_compute. reflexivity.
  - reflexivity.
  - reflexivity.
  - exact unit_half.
  - vm_compute. reflexivity.
Defined.

(** ** Garbage rows *)

Lemma one_hole_not_full (row : list Z) : one_hole row -> row_full row = false.
Proof.
  intros (h & Hh & ->). apply not_true_iff_false. unfold row_full.
  rewrite forallb_forall. intros Hall.
  specialize (Hall 0). cbn in Hall. assert (false = true); [|discriminate].
  apply Hall, list_elem_of_In, (list_elem_of_lookup_2 _ h).
  apply list_lookup_insert_eq. now rewrite length_replicate.
Qed.

Lemma garbage_rows_holes (draws : nat -> Q) (n : nat) :
  (forall k, unit_draw (draws k)) -> Forall one_hole (garbage_rows draws n).
Proof.
  intros Hdraws. apply Forall_forall. intros row Hrow.
  apply list_elem_of_In, in_map_iff in Hrow as (k & <- & _).
  destruct (garbage_row_spec (draws k) (Hdraws k)) as (h & Hh & Eh & _).
  exists h. split; [exact Hh|]. now rewrite <- Eh, Nat2Z.id.
Qed.

(** X6. [addGarbage] with draws in [0, 1) on a board that has rows pushes
    one row a line at the bottom and takes as many rows off the top, so
    that the board keeps its height; every row pushed is 8 in each column
    but one, which is 0, so that no such row is full; the piece, its
    place, the score and the game-over flag are not touched. *)
Theorem garbage_rises (lines : Z) (draws : nat -> Q) (g : game) :
  board g <> [] -> (forall k, unit_draw (draws k)) ->
  let n := Z.to_nat lines in
  exists rows,
    addGarbage lines draws g = Ok (set_board (skipn n (board g ++ rows)) g)
    /\ length (skipn n (board g ++ rows)) = length (board g)
    /\ length rows = n
    /\ Forall one_hole rows
    /\ Forall (fun row => row_full row = false) rows.
Proof.
  intros Hne Hdraws n. exists (garbage_rows draws n). unfold addGarbage.
  rewrite garbage_loop_spec by assumption. cbn [obind].
  split; [reflexivity|].
  assert (Hlen : length (garbage_rows draws n) = n)
    by (unfold garbage_rows; now rewrite length_map, length_seq).
  split; [rewrite length_skipn, length_app, Hlen; lia|]. split; [exact Hlen|].
  pose proof (garbage_rows_holes draws n Hdraws) as Hholes.
  split; [exact Hholes|].
  eapply Forall_impl; [exact Hholes|]. apply one_hole_not_full.
Qed.

Lemma garbage_rises_witness :
  let n := Z.to_nat 2 in
  exists rows,
    addGarbage 2 (fun _ => 1 # 2) about_to_top_out
    = Ok (set_board (skipn n (board about_to_top_out ++ rows)) about_to_top_out)
    /\ length (skipn n (board about_to_top_out ++ rows)) = length (board about_to_top_out)
    /\ length rows = n
    /\ Forall one_hole rows
    /\ Forall (fun row => row_full row = false) rows.
Proof.
  apply garbage_rises.
  - discriminate.
  - intros k. exact unit_half.
Defined.

(** ** The sweep *)

Lemma filter_sublist (f : list Z -> bool) (l : matrix) : sublist (List.filter f l) l.
Proof.
  induction l as [|x l IH]; cbn [List.filter]; [constructor|].
  destruct (f x); now constructor.
Qed.

Lemma blank_zero (row : list Z) : Forall (fun v => v = 0) (blank row).
Proof. unfold blank. apply Forall_replicate. reflexivity. Qed.

Lemma blanks_zero (l : matrix) : Forall (Forall (fun v => v = 0)) (map blank l).
Proof.
  apply Forall_forall. intros row Hrow.
  apply list_elem_of_In, in_map_iff in Hrow as (r0 & <- & _). apply blank_zero.
Qed.

Lemma blanks_not_full (l : matrix) :
  Forall (fun r => r <> []) l -> Forall (fun r => row_full r = false) (map blank l).
Proof.
  intros Hl. apply Forall_forall. intros row Hrow.
  apply list_elem_of_In, in_map_iff in Hrow as (r0 & <- & Hin).
  apply blank_not_full. rewrite Forall_forall in Hl. apply Hl. now apply list_elem_of_In.
Qed.

Lemma kept_not_full (l : matrix) :
  Forall (fun r => row_full r = false) (List.filter (fun row => negb (row_full row)) l).
Proof.
  apply Forall_forall. intros row Hrow.
  apply list_elem_of_In, filter_In in Hrow as [_ Hrow]. now apply negb_true_iff.
Qed.

(** X7. On a board without empty rows the sweep of [arenaSweep] returns:
    the board keeps its height; the [k] rows counted have become [k]
    all-zero rows at the top; below them stand rows of the old board in
    their old order, none that was not full being lost; and no row below
    row 0 is full any more. *)
Theorem sweep_clears (b : matrix) :
  Forall (fun r => r <> []) b ->
  exists b' (k : nat),
    sweep b = Ok (b', Z.of_nat k)
    /\ length b' = length b
    /\ Forall (Forall (fun v => v = 0)) (firstn k b')
    /\ sublist (skipn k b') b
    /\ (forall row, row ∈ b -> row_full row = false -> row ∈ skipn k b')
    /\ (forall i row, (1 <= i)%nat -> b' !! i = Some row -> row_full row = false).
Proof.
  intros Hb. destruct (sweep_count b Hb) as (b' & E & Hlen).
  rewrite (sweep_total b Hb) in E. rewrite (sweep_total b Hb).
  destruct b as [|top rest].
  { exists [], 0%nat. repeat split; try constructor.
    - intros row Hrow. now apply elem_of_nil in Hrow.
    - intros i row _ Hi. now rewrite lookup_nil in Hi. }
  apply Forall_cons in Hb as [Htop Hrest].
  assert (Hgone_rows : Forall (fun r => r <> []) (List.filter row_full rest)).
  { apply Forall_forall. intros row Hrow. apply list_elem_of_In, filter_In in Hrow as [Hin _].
    rewrite Forall_forall in Hrest. apply Hrest. now apply list_elem_of_In. }
  assert (Hkept_in : forall row, row ∈ rest -> row_full row = false ->
            row ∈ List.filter (fun row => negb (row_full row)) rest).
  { intros row Hin Hnf. apply list_elem_of_In, filter_In. split.
    - now apply list_elem_of_In.
    - now rewrite Hnf. }
  unfold sweep_result in *.
  set (gone := List.filter row_full rest) in *.
  set (kept := List.filter (fun row => negb (row_full row)) rest) in *.
  destruct (negb (length gone =? 0)%nat && row_full top) eqn:Ecase.
  - apply andb_true_iff in Ecase as [_ Etop].
    exists (blank top :: map blank gone ++ kept), (S (length gone)).
    split; [do 2 f_equal; lia|].
    split; [injection E as <-; exact Hlen|].
    assert (Ek : S (length gone) = length (blank top :: map blank gone))
      by (cbn [length]; now rewrite length_map).
    change (blank top :: map blank gone ++ kept)
      with ((blank top :: map blank gone) ++ kept).
    rewrite Ek, take_app_length, drop_app_length.
    split; [apply Forall_cons; split; [apply blank_zero | apply blanks_zero]|].
    split; [apply sublist_cons, filter_sublist|].
    split.
    + intros row Hrow Hnf. apply elem_of_cons in Hrow as [-> | Hrow]; [congruence|].
      now apply Hkept_in.
    + intros i row _ Hi. apply list_elem_of_lookup_2 in Hi.
      apply elem_of_app in Hi as [Hi | Hi].
      * apply elem_of_cons in Hi as [-> | Hi]; [now apply blank_not_full|].
        pose proof (blanks_not_full gone Hgone_rows) as H. rewrite Forall_forall in H.
        now apply H.
      * pose proof (kept_not_full rest) as H. rewrite Forall_forall in H. now apply H.
  - exists (map blank gone ++ top :: kept), (length gone).
    split; [reflexivity|].
    split; [injection E as <-; exact Hlen|].
    assert (Etake : firstn (length gone) (map blank gone ++ top :: kept) = map blank gone)
      by (rewrite <- (length_map blank gone) at 1; apply take_app_length).
    assert (Edrop : skipn (length gone) (map blank gone ++ top :: kept) = top :: kept)
      by (rewrite <- (length_map blank gone) at 1; apply drop_app_length).
    rewrite Etake, Edrop.
    split; [apply blanks_zero|].
    split; [apply sublist_skip, filter_sublist|].
    split.
    + intros row Hrow Hnf. apply elem_of_cons in Hrow as [-> | Hrow]; [left|right].
      now apply Hkept_in.
    + intros i row Hi1 Hi.
      destruct gone as [|g0 gone'] eqn:Egone.
      * cbn [map app] in Hi. destruct i as [|i]; [lia|]. cbn in Hi.
        apply list_elem_of_lookup_2 in Hi.
        pose proof (kept_not_full rest) as H. rewrite Forall_forall in H. now apply H.
      * cbn [length Nat.eqb negb andb] in Ecase.
        apply list_elem_of_lookup_2 in Hi.
        apply elem_of_app in Hi as [Hi | Hi].
        -- pose proof (blanks_not_full (g0 :: gone') Hgone_rows) as H.
           rewrite Forall_forall in H. now apply H.
        -- apply elem_of_cons in Hi as [-> | Hi]; [exact Ecase|].
           pose proof (kept_not_full rest) as H. rewrite Forall_forall in H. now apply H.
Qed.

Lemma sweep_clears_witness :
  exists b' (k : nat),
    sweep (board before_tetris) = Ok (b', Z.of_nat k)
    /\ length b' = length (board before_tetris)
    /\ Forall (Forall (fun v => v = 0)) (firstn k b')
    /\ sublist (skipn k b') (board before_tetris)
    /\ (forall row, row ∈ board before_tetris -> row_full row = false -> row ∈ skipn k b')
    /\ (forall i row, (1 <= i)%nat -> b' !! i = Some row -> row_full row = false).
Proof.
  apply sweep_clears. vm_compute. repeat constructor; discriminate.
Defined.

(** ** Quarter turns *)

Lemma get_tab (n : nat) (f : nat -> nat -> Z) (i j : nat) :
  (i < n)%nat -> (j < n)%nat -> get (tab n f) i j = f i j.
Proof. intros Hi Hj. unfold get. now rewrite at2_tab by assumption. Qed.

(** X8. [_rotateMatrix] on a square matrix of side [n] returns a square
    matrix of side [n]: with [dir > 0] its cell (i, j) is the cell
    (n-1-j, i) of the argument, a quarter turn clockwise; otherwise it is
    the cell (j, n-1-i), a quarter turn the other way. *)
Theorem quarter_turn_cells (n : nat) (m : matrix) (dir : Z) :
  square n m ->
  exists r, _rotateMatrix m dir = Ok r
    /\ square n r
    /\ forall i j, (i < n)%nat -> (j < n)%nat ->
         get r i j = if 0 <? dir then get m (n - 1 - j) i else get m j (n - 1 - i).
Proof.
  intros Hsq.
  assert (E : _rotateMatrix m dir = _rotateMatrix (tab n (get m)) dir)
    by (now rewrite <- (square_tab n m Hsq)).
  rewrite E, rotate_tab.
  eexists. split; [reflexivity|]. split; [apply tab_square|].
  intros i j Hi Hj. rewrite get_tab by assumption. now destruct (0 <? dir).
Qed.

Lemma quarter_turn_cells_witness :
  exists r, _rotateMatrix [[0; 1; 0]; [1; 1; 1]; [0; 0; 0]] 1 = Ok r
    /\ square 3 r
    /\ forall i j, (i < 3)%nat -> (j < 3)%nat ->
         get r i j = if 0 <? 1
                     then get [[0; 1; 0]; [1; 1; 1]; [0; 0; 0]] (3 - 1 - j) i
                     else get [[0; 1; 0]; [1; 1; 1]; [0; 0; 0]] j (3 - 1 - i).
Proof.
  apply quarter_turn_cells. split; [reflexivity | repeat constructor].
Defined.

(** X9. Four quarter turns in one direction bring every square matrix
    back to itself, whatever [dir] is. *)
Theorem four_turns_square (n : nat) (m : matrix) (dir : Z) :
  square n m -> rotate_times 4 dir m = Ok m.
Proof.
  intros Hsq. pose proof (square_tab n m Hsq) as E.
  set (f := get m) in E. clearbody f. subst m. cbn [rotate_times].
  repeat (rewrite rotate_tab; cbn [obind]).
  f_equal. apply tab_ext. intros i j Hi Hj.
  destruct (0 <? dir); f_equal; lia.
Qed.

Lemma four_turns_square_witness :
  rotate_times 4 (-1) [[1; 2; 3; 4]; [5; 6; 7; 8]; [9; 10; 11; 12]; [13; 14; 15; 16]]
  = Ok [[1; 2; 3; 4]; [5; 6; 7; 8]; [9; 10; 11; 12]; [13; 14; 15; 16]].
Proof.
  apply (four_turns_square 4). split; [reflexivity | repeat constructor].
Defined.

(** X10. A quarter turn of a square matrix is undone by the quarter turn
    of the opposite [dir] (what [rotate] relies on when it gives up), as
    long as [dir] is not 0. *)
Theorem quarter_turn_undone (n : nat) (m : matrix) (dir : Z) :
  square n m -> dir <> 0 ->
  exists r, _rotateMatrix m dir = Ok r /\ _rotateMatrix r (- dir) = Ok m.
Proof.
  intros Hsq Hdir. destruct (rotate_back n m dir Hsq Hdir) as (r & E & _ & Eback).
  now exists r.
Qed.

Lemma quarter_turn_undone_witness :
  exists r, _rotateMatrix [[0; 6; 0]; [0; 6; 0]; [6; 6; 0]] 1 = Ok r
    /\ _rotateMatrix r (- 1) = Ok [[0; 6; 0]; [0; 6; 0]; [6; 6; 0]].
Proof.
  apply (quarter_turn_undone 3).
  - split; [reflexivity | repeat constructor].
  - discriminate.
Defined.

(** ** merge *)

(** X11. Wherever every nonzero cell of the piece lies on the board,
    [merge] returns (also over filled cells, which it overwrites): the
    board keeps its shape, each nonzero cell of the piece is stored at its
    place, and every other cell of the board is what it was. *)
Theorem merge_frame (b : matrix) (p : matrix) (off : position) :
  fits b p off ->
  exists b', merge b p off = Ok b'
    /\ map length b' = map length b
    /\ (forall j i row v,
          p !! j = Some row -> row !! i = Some v -> v <> 0 ->
          cell b' (Z.of_nat j + py off) (Z.of_nat i + px off) = Some v)
    /\ (forall r c,
          (forall j i row v,
             p !! j = Some row -> row !! i = Some v -> v <> 0 ->
             (r, c) <> (Z.of_nat j + py off, Z.of_nat i + px off)) ->
          cell b' r c = cell b r c).
Proof.
  intros Hfits.
  destruct (merge_rows_spec off p b 0) as (b' & E & Hs & Ha & Hfr).
  { intros j i row v Hj Hi Hv. rewrite Z.add_0_l. now apply (Hfits j i row v). }
  exists b'. split; [exact E|]. split; [exact Hs|]. split.
  - intros j i row v Hj Hi Hv. specialize (Ha j i row v Hj Hi Hv).
    now rewrite Z.add_0_l in Ha.
  - intros r c Hrc. apply Hfr. intros j i row v Hj Hi Hv.
    rewrite Z.add_0_l. now apply (Hrc j i row v).
Qed.

Lemma merge_frame_witness :
  exists b', merge stacked_board [[2; 2]; [2; 2]] (Pos 4 1) = Ok b'
    /\ map length b' = map length stacked_board
    /\ (forall j i row v,
          [[2; 2]; [2; 2]] !! j = Some row -> row !! i = Some v -> v <> 0 ->
          cell b' (Z.of_nat j + py (Pos 4 1)) (Z.of_nat i + px (Pos 4 1)) = Some v)
    /\ (forall r c,
          (forall j i row v,
             [[2; 2]; [2; 2]] !! j = Some row -> row !! i = Some v -> v <> 0 ->
             (r, c) <> (Z.of_nat j + py (Pos 4 1), Z.of_nat i + px (Pos 4 1))) ->
          cell b' r c = cell stacked_board r c).
Proof.
  apply merge_frame. apply (fits_grid createBoard).
  - exact createBoard_grid.
  - split; [reflexivity | repeat constructor].
  - apply free_fits. vm_compute. reflexivity.
Defined.

(** ** The score callback *)

Lemma last_cons_default (l : list Z) : forall s d, List.last (s :: l) d = List.last l s.
Proof.
  induction l as [|x l IH]; intros s d; [reflexivity|].
  change (List.last (s :: x :: l) d) with (List.last (x :: l) d).
  now rewrite !IH.
Qed.

(** X12. A callback made by [createScoreCallback] with an emitter and a
    positive threshold [T], called with scores that never go down, ends
    with the last score as [lastSentScore] and has sent in all as many
    garbage lines as multiples of [T] lie between the score it started
    from and the last one: none is lost and none is sent twice, however
    the scores are cut into calls. *)
Theorem attacks_add_up (T : Z) (scores : list Z) : forall last,
  0 < T -> Sorted Z.le (last :: scores) ->
  fst (feed_scores true T last scores) = List.last scores last
  /\ garbage_sent (snd (feed_scores true T last scores))
     = List.last scores last / T - last / T.
Proof.
  induction scores as [|s rest IH]; intros last HT Hsorted; cbn [feed_scores].
  - cbn. split; [reflexivity | lia].
  - apply Sorted_inv in Hsorted as [Hrest Hhd]. apply HdRel_inv in Hhd.
    destruct (IH s HT Hrest) as [Hfst Hsum]. unfold scoreCallback.
    destruct (feed_scores true T s rest) as [l2 e2]. cbn [fst snd] in *.
    rewrite (last_cons_default rest s last). split; [exact Hfst|].
    assert (Hmono : last / T <= s / T) by (apply Z.div_le_mono; lia).
    destruct (Z.ltb_spec 0 T); [|lia]. cbn [andb].
    destruct (Z.ltb_spec 0 (s / T - last / T)); cbn [app garbage_sent fold_right];
      fold (garbage_sent e2); lia.
Qed.

Lemma attacks_add_up_witness :
  fst (feed_scores true 200 0 [40; 190; 230; 630]) = List.last [40; 190; 230; 630] 0
  /\ garbage_sent (snd (feed_scores true 200 0 [40; 190; 230; 630]))
     = List.last [40; 190; 230; 630] 0 / 200 - 0 / 200.
Proof.
  apply attacks_add_up; [lia|]. repeat constructor; discriminate.
Defined.

(** ** After the end, and before *)

(** X13. Once the game is over, keys and frames change nothing and fire
    nothing: every such input returns the session as it was. *)
Theorem game_over_is_final (inputs : list input) (s : session) :
  gameOver (the_game s) = true ->
  Forall (fun i => local i = true) inputs ->
  run inputs s = Ok (s, []).
Proof.
  intros Hgo Hloc. induction inputs as [|i rest IH]; [reflexivity|].
  apply Forall_cons in Hloc as [Hi Hrest]. cbn [run].
  assert (E : step i s = Ok (s, [])).
  { destruct i as [code ignore r | time r | lines draws]; [| |discriminate].
    - cbn [step]. unfold keydown. rewrite Hgo. cbn [obind deref].
      now rewrite session_eta.
    - cbn [step]. unfold loop. rewrite Hgo. reflexivity. }
  rewrite E. cbn [obind]. rewrite (IH Hrest). reflexivity.
Qed.

Lemma game_over_is_final_witness :
  run [KeyDown "Space" false 0; Frame 5000 0; KeyDown "KeyA" false 0]
      (Session topped_out 0)
  = Ok (Session topped_out 0, []).
Proof.
  apply game_over_is_final; [reflexivity | repeat constructor].
Defined.

(** X14. As long as no garbage arrives, the active piece of a game that
    is not over never overlaps a filled cell nor an edge: keys and frames
    keep it so, whatever they are. *)
Theorem piece_stays_clear (inputs : list input) (s : session) :
  ready (the_game s) -> clear (the_game s) ->
  Forall proper inputs -> Forall (fun i => local i = true) inputs ->
  exists s' evs, run inputs s = Ok (s', evs) /\ clear (the_game s').
Proof.
  intros Hready Hclear Hproper Hloc.
  destruct (run_keeps inputs s Hready Hproper) as (s' & evs & E & _ & _ & _ & Hc).
  exists s', evs. split; [exact E | now apply Hc].
Qed.

Lemma piece_stays_clear_witness :
  exists s' evs,
    run [KeyDown "ArrowUp" false (1 # 2); KeyDown "KeyA" false (1 # 2);
         Frame 1200 (1 # 2); KeyDown "Space" false (1 # 2)] opening = Ok (s', evs)
    /\ clear (the_game s').
Proof.
  apply piece_stays_clear.
  - exact (proj1 opening_ready).
  - exact (proj2 opening_ready).
  - exact proper_sample.
  - repeat constructor.
Defined.

(** X15. Nothing that reaches a game in play takes points away or brings
    a finished game back: over any keys, frames and garbage the score
    does not go down, and a game that was over is over at the end. *)
Theorem score_never_decreases (inputs : list input) (s : session) :
  ready (the_game s) -> Forall proper inputs ->
  exists s' evs, run inputs s = Ok (s', evs)
    /\ score (the_game s) <= score (the_game s')
    /\ (gameOver (the_game s) = true -> gameOver (the_game s') = true).
Proof.
  intros Hready Hproper.
  destruct (run_keeps inputs s Hready Hproper) as (s' & evs & E & _ & Hs & Hg & _).
  now exists s', evs.
Qed.

Lemma score_never_decreases_witness :
  exists s' evs,
    run [KeyDown "ArrowUp" false (1 # 2); KeyDown "KeyA" false (1 # 2);
         Frame 1200 (1 # 2); KeyDown "Space" false (1 # 2)] opening = Ok (s', evs)
    /\ score (the_game opening) <= score (the_game s')
    /\ (gameOver (the_game opening) = true -> gameOver (the_game s') = true).
Proof.
  apply score_never_decreases.
  - exact (proj1 opening_ready).
  - exact proper_sample.
Defined.

(** ** randomPiece *)

(** X16. [randomPiece] deals the whole table and nothing else: every
    draw in [0, 1) gives one of the seven shapes, and each of the seven
    shapes is given by some draw in [0, 1). *)
Theorem randomPiece_onto :
  (forall r, unit_draw r -> exists p, randomPiece r = Ok p /\ In p PIECES)
  /\ (forall p, In p PIECES -> exists r, unit_draw r /\ randomPiece r = Ok p).
Proof.
  split.
  - intros r [Hlo Hhi]. now apply randomPiece_total.
  - intros p Hp. unfold PIECES in Hp. cbn [In] in Hp.
    destruct Hp as [<-|[<-|[<-|[<-|[<-|[<-|[<-|[]]]]]]]].
    + exists (1 # 8). split; [split; [discriminate | reflexivity] | reflexivity].
    + exists (2 # 8). split; [split; [discriminate | reflexivity] | reflexivity].
    + exists (3 # 8). split; [split; [discriminate | reflexivity] | reflexivity].
    + exists (4 # 8). split; [split; [discriminate | reflexivity] | reflexivity].
    + exists (5 # 8). split; [split; [discriminate | reflexivity] | reflexivity].
    + exists (6 # 8). split; [split; [discriminate | reflexivity] | reflexivity].
    + exists (7 # 8). split; [split; [discriminate | reflexivity] | reflexivity].
Qed.

(** ** collide *)

(** X17. [collide] answers [false] exactly when every nonzero cell of the
    piece lands on a cell of the board that exists and holds 0; it
    answers [true] as soon as one of them lands outside the board or on a
    filled cell. *)
Theorem collide_exact (b : matrix) (p : matrix) (off : position) :
  collide b p off = false <->
  forall j i row v,
    p !! j = Some row -> row !! i = Some v -> v <> 0 ->
    cell b (Z.of_nat j + py off) (Z.of_nat i + px off) = Some 0.
Proof.
  split.
  - intros Hfree j i row v Hj Hi Hv.
    destruct (blocked b (Z.of_nat j + py off) (Z.of_nat i + px off)) eqn:Eb.
    + exfalso. apply not_true_iff_false in Hfree. apply Hfree, collide_true.
      now exists j, i, row, v.
    + unfold blocked in Eb.
      destruct (cell b (Z.of_nat j + py off) (Z.of_nat i + px off)) as [w|];
        [|discriminate].
      apply negb_false_iff, Z.eqb_eq in Eb. now subst w.
  - intros Hall. apply not_true_iff_false. intros Hhit.
    apply collide_true in Hhit as (j & i & row & v & Hj & Hi & Hv & Hb).
    unfold blocked in Hb. now rewrite (Hall j i row v Hj Hi Hv) in Hb.
Qed.

End EngineFacts.

(** * The duel lobby (socket.js, RoomManager) *)

Module DuelLobbyFacts.
Import Duel.
Import DuelFacts.

(** ** The room store *)

Lemma getRoom_In (rooms : list (string * room)) (k : string) (r : room) :
  getRoom rooms k = Some r -> (k, r) ∈ rooms.
Proof.
  induction rooms as [|[k0 r0] rooms IH]; cbn; [discriminate|].
  destruct (String.eqb_spec k0 k) as [->|Hne].
  - intros [= ->]. now left.
  - intros H. right. now apply IH.
Qed.

Lemma getRoom_None (rooms : list (string * room)) (k : string) :
  getRoom rooms k = None <-> k ∉ map fst rooms.
Proof.
  induction rooms as [|[k0 r0] rooms IH]; cbn.
  - split; [intros _; apply not_elem_of_nil | reflexivity].
  - rewrite not_elem_of_cons. destruct (String.eqb_spec k0 k) as [->|Hne].
    + split; [discriminate | now intros [? _]].
    + rewrite IH. split; [now split | now intros [_ ?]].
Qed.

Lemma key_in (rooms : list (string * room)) (k : string) (r : room) :
  (k, r) ∈ rooms -> k ∈ map fst rooms.
Proof.
  intros Hin. apply list_elem_of_In, in_map_iff. exists (k, r).
  split; [reflexivity | now apply list_elem_of_In].
Qed.

Lemma find_getRoom (rooms : list (string * room)) (sid k : string) (r : room) :
  NoDup (map fst rooms) -> findPlayerRoom rooms sid = Some (k, r) -> getRoom rooms k = Some r.
Proof.
  intros Hnd Hfind. induction rooms as [|[k0 r0] rooms IH]; cbn in *; [discriminate|].
  apply NoDup_cons in Hnd as [Hk0 Hnd].
  destruct (get_player (players r0) sid).
  - injection Hfind as -> ->. now rewrite String.eqb_refl.
  - destruct (String.eqb_spec k0 k) as [->|Hne]; [|now apply IH].
    exfalso. apply Hk0. apply findPlayerRoom_In in Hfind. now apply key_in in Hfind.
Qed.

Lemma put_room_keys (rooms : list (string * room)) (k : string) (r : room) :
  map fst (put_room rooms k r) = map fst rooms.
Proof.
  induction rooms as [|[k0 r0] rooms IH]; cbn; [reflexivity|].
  destruct (String.eqb k0 k); cbn; [reflexivity | now rewrite IH].
Qed.

Lemma put_room_all (P : room -> Prop) (rooms : list (string * room)) (k : string) (r : room) :
  Forall (fun kr => P (snd kr)) rooms -> P r ->
  Forall (fun kr => P (snd kr)) (put_room rooms k r).
Proof.
  intros Hall Hr. induction rooms as [|[k0 r0] rooms IH]; cbn; [constructor|].
  apply Forall_cons in Hall as [H0 Hall].
  destruct (String.eqb k0 k); apply Forall_cons; split; auto.
Qed.

Lemma getRoom_put (rooms : list (string * room)) (k k' : string) (r : room) :
  getRoom (put_room rooms k r) k'
  = if String.eqb k k' then option_map (fun _ => r) (getRoom rooms k') else getRoom rooms k'.
Proof.
  induction rooms as [|[k0 r0] rooms IH]; cbn.
  - now destruct (String.eqb k k').
  - destruct (String.eqb_spec k0 k) as [->|Hne]; cbn.
    + destruct (String.eqb_spec k k') as [->|Hne']; [reflexivity|].
      reflexivity.
    + destruct (String.eqb_spec k0 k') as [->|Hne'].
      * destruct (String.eqb_spec k k'); [congruence | reflexivity].
      * exact IH.
Qed.

Lemma createRoom_keys (rooms : list (string * room)) (k : string) (r : room) :
  map fst (createRoom rooms k r)
  = if bool_decide (k ∈ map fst rooms) then map fst rooms else map fst rooms ++ [k].
Proof.
  induction rooms as [|[k0 r0] rooms IH]; cbn; [reflexivity|].
  destruct (String.eqb_spec k0 k) as [->|Hne]; cbn.
  - rewrite bool_decide_eq_true_2 by (now left). reflexivity.
  - rewrite IH. destruct (bool_decide (k ∈ map fst rooms)) eqn:E.
    + apply bool_decide_eq_true_1 in E.
      rewrite bool_decide_eq_true_2 by (now right). reflexivity.
    + apply bool_decide_eq_false_1 in E.
      rewrite bool_decide_eq_false_2; [reflexivity|].
      rewrite not_elem_of_cons. split; [congruence | exact E].
Qed.

Lemma createRoom_fresh (rooms : list (string * room)) (k : string) (r : room) :
  k ∉ map fst rooms -> createRoom rooms k r = rooms ++ [(k, r)].
Proof.
  induction rooms as [|[k0 r0] rooms IH]; cbn; [reflexivity|].
  rewrite not_elem_of_cons. intros [Hne Hk].
  destruct (String.eqb_spec k0 k); [congruence|]. now rewrite IH.
Qed.

Lemma createRoom_NoDup (rooms : list (string * room)) (k : string) (r : room) :
  NoDup (map fst rooms) -> NoDup (map fst (createRoom rooms k r)).
Proof.
  intros Hnd. rewrite createRoom_keys. destruct (bool_decide _) eqn:E; [exact Hnd|].
  apply bool_decide_eq_false_1 in E. apply NoDup_app. split; [exact Hnd|]. split.
  - intros x Hx Hx'. apply list_elem_of_singleton in Hx'. congruence.
  - apply NoDup_singleton.
Qed.

Lemma createRoom_all (P : room -> Prop) (rooms : list (string * room)) (k : string) (r : room) :
  Forall (fun kr => P (snd kr)) rooms -> P r ->
  Forall (fun kr => P (snd kr)) (createRoom rooms k r).
Proof.
  intros Hall Hr. induction rooms as [|[k0 r0] rooms IH]; cbn.
  - now repeat constructor.
  - apply Forall_cons in Hall as [H0 Hall].
    destruct (String.eqb k0 k); apply Forall_cons; split; auto.
Qed.

Lemma getRoom_create (rooms : list (string * room)) (k k' : string) (r : room) :
  getRoom (createRoom rooms k r) k' = if String.eqb k k' then Some r else getRoom rooms k'.
Proof.
  induction rooms as [|[k0 r0] rooms IH]; cbn.
  - reflexivity.
  - destruct (String.eqb_spec k0 k) as [->|Hne]; cbn.
    + now destruct (String.eqb k k').
    + destruct (String.eqb_spec k0 k') as [->|Hne'].
      * destruct (String.eqb_spec k k'); [congruence | reflexivity].
      * exact IH.
Qed.

Lemma deleteRoom_keys (rooms : list (string * room)) (k : string) :
  map fst (deleteRoom rooms k) = List.filter (fun x => negb (String.eqb x k)) (map fst rooms).
Proof.
  unfold deleteRoom. induction rooms as [|[k0 r0] rooms IH]; cbn; [reflexivity|].
  destruct (String.eqb k0 k); cbn; now rewrite IH.
Qed.

Lemma filter_NoDup {A} (f : A -> bool) (l : list A) : NoDup l -> NoDup (List.filter f l).
Proof.
  induction l as [|x l IH]; cbn; [trivial|]. intros Hnd.
  apply NoDup_cons in Hnd as [Hx Hnd]. destruct (f x); [|auto].
  apply NoDup_cons. split; [|auto]. intros Hin. apply Hx.
  apply list_elem_of_In, filter_In in Hin as [Hin _]. now apply list_elem_of_In.
Qed.

Lemma filter_all {A} (P : A -> Prop) (f : A -> bool) (l : list A) :
  Forall P l -> Forall P (List.filter f l).
Proof.
  intros Hall. apply Forall_forall. intros x Hx.
  apply list_elem_of_In, filter_In in Hx as [Hx _].
  rewrite Forall_forall in Hall. now apply Hall, list_elem_of_In.
Qed.

Lemma getRoom_delete (rooms : list (string * room)) (k k' : string) :
  getRoom (deleteRoom rooms k) k' = if String.eqb k k' then None else getRoom rooms k'.
Proof.
  unfold deleteRoom. induction rooms as [|[k0 r0] rooms IH]; cbn.
  - now destruct (String.eqb k k').
  - destruct (String.eqb_spec k0 k) as [->|Hne]; cbn.
    + rewrite IH. now destruct (String.eqb k k').
    + destruct (String.eqb_spec k0 k') as [->|Hne'].
      * destruct (String.eqb_spec k k'); [congruence | reflexivity].
      * exact IH.
Qed.

Lemma delete_last (rooms : list (string * room)) (k : string) (r : room) :
  k ∉ map fst rooms -> deleteRoom (rooms ++ [(k, r)]) k = rooms.
Proof.
  intros Hk. unfold deleteRoom. rewrite List.filter_app. cbn. rewrite String.eqb_refl. cbn.
  rewrite app_nil_r. induction rooms as [|[k0 r0] rooms IH]; cbn in *; [reflexivity|].
  apply not_elem_of_cons in Hk as [Hne Hk].
  destruct (String.eqb_spec k0 k); [congruence|]. cbn. now rewrite IH.
Qed.

(** ** Rosters *)

Lemma get_player_None (ps : list (string * player)) (sid : string) :
  get_player ps sid = None <-> sid ∉ map fst ps.
Proof.
  induction ps as [|[k p] ps IH]; cbn.
  - split; [intros _; apply not_elem_of_nil | reflexivity].
  - rewrite not_elem_of_cons. destruct (String.eqb_spec k sid) as [->|Hne].
    + split; [discriminate | now intros [? _]].
    + rewrite IH. split; [now split | now intros [_ ?]].
Qed.

Lemma get_player_Some (ps : list (string * player)) (sid : string) (p : player) :
  get_player ps sid = Some p -> sid ∈ map fst ps.
Proof.
  intros H. destruct (decide (sid ∈ map fst ps)) as [|Hn]; [assumption|].
  apply get_player_None in Hn. congruence.
Qed.

Lemma set_player_keys (ps : list (string * player)) (sid : string) (p : player) :
  map fst (set_player ps sid p)
  = if bool_decide (sid ∈ map fst ps) then map fst ps else map fst ps ++ [sid].
Proof.
  induction ps as [|[k q] ps IH]; cbn; [reflexivity|].
  destruct (String.eqb_spec k sid) as [->|Hne]; cbn.
  - rewrite bool_decide_eq_true_2 by (now left). reflexivity.
  - rewrite IH. destruct (bool_decide (sid ∈ map fst ps)) eqn:E.
    + apply bool_decide_eq_true_1 in E.
      rewrite bool_decide_eq_true_2 by (now right). reflexivity.
    + apply bool_decide_eq_false_1 in E.
      rewrite bool_decide_eq_false_2; [reflexivity|].
      rewrite not_elem_of_cons. split; [congruence | exact E].
Qed.

Lemma set_player_fresh (ps : list (string * player)) (sid : string) (p : player) :
  sid ∉ map fst ps -> set_player ps sid p = ps ++ [(sid, p)].
Proof.
  induction ps as [|[k q] ps IH]; cbn; [reflexivity|].
  rewrite not_elem_of_cons. intros [Hne Hk].
  destruct (String.eqb_spec k sid); [congruence|]. now rewrite IH.
Qed.

Lemma set_player_seated (ps : list (string * player)) (sid : string) (p : player) :
  NoDup (map fst ps) -> (length ps <= 1)%nat ->
  NoDup (map fst (set_player ps sid p)) /\ (1 <= length (set_player ps sid p) <= 2)%nat.
Proof.
  intros Hnd Hlen. rewrite <- (length_map fst (set_player ps sid p)), set_player_keys.
  destruct (bool_decide _) eqn:E.
  - apply bool_decide_eq_true_1 in E. split; [exact Hnd|]. rewrite length_map.
    destruct ps; [now apply elem_of_nil in E | cbn in *; lia].
  - apply bool_decide_eq_false_1 in E. split.
    + apply NoDup_app. split; [exact Hnd|]. split; [|apply NoDup_singleton].
      intros x Hx Hx'. apply list_elem_of_singleton in Hx'. congruence.
    + rewrite length_app, length_map. cbn. lia.
Qed.

Lemma delete_player_keys (ps : list (string * player)) (sid : string) :
  map fst (delete_player ps sid) = List.filter (fun x => negb (String.eqb x sid)) (map fst ps).
Proof.
  unfold delete_player. induction ps as [|[k q] ps IH]; cbn; [reflexivity|].
  destruct (String.eqb k sid); cbn; now rewrite IH.
Qed.

Lemma delete_player_length (ps : list (string * player)) (sid : string) (p : player) :
  NoDup (map fst ps) -> get_player ps sid = Some p ->
  S (length (delete_player ps sid)) = length ps.
Proof.
  unfold delete_player. induction ps as [|[k q] ps IH]; cbn; [discriminate|]. intros Hnd Hget.
  apply NoDup_cons in Hnd as [Hk Hnd].
  destruct (String.eqb_spec k sid) as [->|Hne]; cbn.
  - f_equal. clear IH Hget Hnd. induction ps as [|[k' q'] ps IH]; cbn in *; [reflexivity|].
    apply not_elem_of_cons in Hk as [Hne Hk].
    destruct (String.eqb_spec k' sid); [congruence|]. cbn. now rewrite IH.
  - f_equal. now apply IH.
Qed.

Lemma get_player_key (ps : list (string * player)) (sid : string) :
  sid ∈ map fst ps -> exists p, get_player ps sid = Some p.
Proof.
  intros Hin. destruct (get_player ps sid) as [p|] eqn:E; [now exists p|].
  now apply get_player_None in E.
Qed.

Lemma find_has (rooms : list (string * room)) (sid k : string) (r : room) :
  findPlayerRoom rooms sid = Some (k, r) -> exists me, get_player (players r) sid = Some me.
Proof.
  induction rooms as [|[k0 r0] rooms IH]; cbn; [discriminate|].
  destruct (get_player (players r0) sid) as [me|] eqn:E.
  - intros [= -> ->]. now exists me.
  - exact IH.
Qed.

Lemma find_None (rooms : list (string * room)) (sid : string) :
  findPlayerRoom rooms sid = None <->
  Forall (fun kr => get_player (players (snd kr)) sid = None) rooms.
Proof.
  induction rooms as [|[k0 r0] rooms IH]; cbn.
  - split; [constructor | reflexivity].
  - rewrite Forall_cons. cbn. destruct (get_player (players r0) sid).
    + split; [discriminate | now intros [? _]].
    + rewrite IH. split; [now split | now intros [_ ?]].
Qed.

Lemma find_app (rooms : list (string * room)) (sid k : string) (r : room) :
  findPlayerRoom rooms sid = None ->
  findPlayerRoom (rooms ++ [(k, r)]) sid
  = match get_player (players r) sid with Some _ => Some (k, r) | None => None end.
Proof.
  induction rooms as [|[k0 r0] rooms IH]; cbn; [reflexivity|].
  destruct (get_player (players r0) sid); [discriminate | exact IH].
Qed.

Lemma put_put (rooms : list (string * room)) (k : string) (r1 r2 : room) :
  put_room (put_room rooms k r1) k r2 = put_room rooms k r2.
Proof.
  induction rooms as [|[k0 r0] rooms IH]; cbn; [reflexivity|].
  destruct (String.eqb_spec k0 k) as [->|Hne]; cbn.
  - now rewrite String.eqb_refl.
  - destruct (String.eqb_spec k0 k); [congruence|]. now rewrite IH.
Qed.

Lemma delete_put (rooms : list (string * room)) (k : string) (r : room) :
  deleteRoom (put_room rooms k r) k = deleteRoom rooms k.
Proof.
  unfold deleteRoom. induction rooms as [|[k0 r0] rooms IH]; cbn; [reflexivity|].
  destruct (String.eqb_spec k0 k) as [->|Hne]; cbn.
  - now rewrite String.eqb_refl.
  - destruct (String.eqb_spec k0 k); [congruence|]. cbn. now rewrite IH.
Qed.

Lemma put_room_tidy (rooms : list (string * room)) (k : string) (r : room) :
  tidy rooms -> seated r -> tidy (put_room rooms k r).
Proof.
  intros [Hnd Hall] Hr. split; [now rewrite put_room_keys | now apply put_room_all].
Qed.

Lemma seated_of (rooms : list (string * room)) (k : string) (r : room) :
  tidy rooms -> getRoom rooms k = Some r -> seated r.
Proof.
  intros [_ Hall] Hget. apply getRoom_In in Hget. rewrite Forall_forall in Hall.
  exact (Hall _ Hget).
Qed.

(** ** The handlers keep the store tidy *)

Lemma create_room_tidy (rooms : list (string * room)) (sid : string) (me : player)
    (roomId : string) :
  tidy rooms -> tidy (fst (create_room rooms sid me roomId)).
Proof.
  intros [Hnd Hall]. cbn. split; [now apply createRoom_NoDup|].
  apply createRoom_all; [exact Hall|]. split; cbn; [|lia].
  apply NoDup_singleton.
Qed.

Lemma join_room_tidy (rooms : list (string * room)) (sid : string) (me : player)
    (roomId : string) (rnd : Q) :
  tidy rooms -> tidy (fst (join_room rooms sid me roomId rnd)).
Proof.
  intros Htidy. unfold join_room, getPlayerCount, addPlayer.
  destruct (getRoom rooms roomId) as [r|] eqn:Hget; [|exact Htidy].
  destruct (Z.leb_spec 2 (Z.of_nat (length (players r)))); [exact Htidy|].
  destruct (negb _); [exact Htidy|]. cbn [fst].
  apply put_room_tidy; [exact Htidy|].
  destruct (seated_of rooms roomId r Htidy Hget) as [Hnd Hlen].
  apply set_player_seated; [exact Hnd | lia].
Qed.

Lemma handleLeave_tidy (rooms : list (string * room)) (sid : string) :
  tidy rooms ->
  exists rooms' out, handleLeave rooms sid = Ok (rooms', out) /\ tidy rooms'.
Proof.
  intros Htidy. unfold handleLeave.
  destruct (findPlayerRoom rooms sid) as [[roomId r]|] eqn:Hfind;
    [|eexists _, _; split; [reflexivity | exact Htidy]].
  destruct (find_has rooms sid roomId r Hfind) as [me Hme]. rewrite Hme. cbn [deref obind].
  pose proof (find_getRoom rooms sid roomId r (proj1 Htidy) Hfind) as Hget.
  unfold removePlayer. rewrite Hget, Hme. cbn [fst].
  unfold isRoomEmpty, getPlayerCount. rewrite getRoom_put, String.eqb_refl, Hget.
  cbn [option_map players set_players].
  destruct (seated_of rooms roomId r Htidy Hget) as [Hnd Hlen].
  pose proof (delete_player_length (players r) sid me Hnd Hme) as Hdel.
  destruct (Z.eqb_spec (Z.of_nat (length (delete_player (players r) sid))) 0).
  - eexists _, _. split; [reflexivity|]. rewrite delete_put.
    destruct Htidy as [Hk Hall]. split.
    + rewrite deleteRoom_keys. now apply filter_NoDup.
    + now apply filter_all.
  - cbn [deref obind]. eexists _, _. split; [reflexivity|]. rewrite put_put.
    apply put_room_tidy; [exact Htidy|]. split; cbn.
    + rewrite delete_player_keys. now apply filter_NoDup.
    + lia.
Qed.

Lemma two_keys (ps : list (string * player)) (a b : string) :
  a ∈ map fst ps -> b ∈ map fst ps -> a <> b ->
  exists k1 k2, map fst ps !! 0%nat = Some k1 /\ map fst ps !! 1%nat = Some k2
    /\ k1 ∈ map fst ps /\ k2 ∈ map fst ps.
Proof.
  intros Ha Hb Hab. destruct ps as [|[k1 p1] [|[k2 p2] ps]]; cbn in *.
  - now apply elem_of_nil in Ha.
  - apply list_elem_of_singleton in Ha, Hb. congruence.
  - exists k1, k2. repeat split; [left | right; left].
Qed.

Lemma game_action_tidy (rooms : list (string * room)) (sid : string) (data : action) :
  tidy rooms ->
  exists rooms' out, game_action rooms sid data = Ok (rooms', out) /\ tidy rooms'.
Proof.
  intros Htidy. unfold game_action.
  destruct (findPlayerRoom rooms sid) as [[roomId r]|] eqn:Hfind;
    [|eexists _, _; split; [reflexivity | exact Htidy]].
  destruct (type_of data); try (eexists _, _; split; [reflexivity | exact Htidy]).
  destruct (find_has rooms sid roomId r Hfind) as [me Hme].
  pose proof (find_getRoom rooms sid roomId r (proj1 Htidy) Hfind) as Hget.
  pose proof (seated_of rooms roomId r Htidy Hget) as Hseated.
  unfold settle_game_over.
  destruct (other_key (players r) sid) as [w|] eqn:Hother;
    [|cbn [obind]; eexists _, _; split; [reflexivity|]; now apply put_room_tidy].
  destruct (truthy w);
    [|cbn [obind]; eexists _, _; split; [reflexivity|]; now apply put_room_tidy].
  unfold other_key in Hother. apply find_some in Hother as [Hw Hne].
  apply list_elem_of_In in Hw. apply negb_true_iff in Hne.
  destruct (String.eqb_spec w sid) as [|Hws]; [discriminate|].
  destruct (get_player_key (players r) w Hw) as [pw Hpw]. rewrite Hpw. cbn [deref obind].
  cbn [players set_scores].
  destruct (two_keys (players r) w sid Hw (get_player_Some _ _ _ Hme) Hws)
    as (k1 & k2 & H1 & H2 & Hk1 & Hk2).
  rewrite H1, H2. cbn [deref obind].
  destruct (get_player_key (players r) k1 Hk1) as [p1 Hp1].
  destruct (get_player_key (players r) k2 Hk2) as [p2 Hp2].
  rewrite Hp1, Hp2. cbn [deref obind].
  eexists _, _. split; [reflexivity|]. now apply put_room_tidy.
Qed.

Lemma game_reset_tidy (rooms : list (string * room)) (sid : string) (rnd : Q) :
  tidy rooms -> tidy (fst (game_reset rooms sid rnd)).
Proof.
  intros Htidy. unfold game_reset.
  destruct (findPlayerRoom rooms sid) as [[roomId r]|] eqn:Hfind; [|exact Htidy].
  cbn [fst]. apply put_room_tidy; [exact Htidy|].
  pose proof (find_getRoom rooms sid roomId r (proj1 Htidy) Hfind) as Hget.
  exact (seated_of rooms roomId r Htidy Hget).
Qed.

Lemma serve_tidy (rooms : list (string * room)) (sid : string) (req : request) :
  tidy rooms -> with_payload req ->
  exists rooms' out, serve rooms sid req = Ok (rooms', out) /\ tidy rooms'.
Proof.
  intros Htidy Hreq.
  destruct req as [me roomId | me roomId rnd | | [data|] | rnd]; cbn [serve];
    [| | | | contradiction |].
  - pose proof (create_room_tidy rooms sid me roomId Htidy) as H.
    destruct (create_room rooms sid me roomId) as [rooms' out]. now exists rooms', out.
  - pose proof (join_room_tidy rooms sid me roomId rnd Htidy) as H.
    destruct (join_room rooms sid me roomId rnd) as [rooms' out]. now exists rooms', out.
  - now apply handleLeave_tidy.
  - cbn [on_game_action].
    destruct (game_action_tidy rooms sid data Htidy) as (rooms' & out & -> & H).
    cbn [obind]. now eexists _, _.
  - pose proof (game_reset_tidy rooms sid rnd Htidy) as H.
    destruct (game_reset rooms sid rnd) as [rooms' out]. now eexists _, _.
Qed.

(** ** What the duel lobby guarantees *)

(** X18. The duel server keeps its rooms seated: starting from a store
    whose rooms each hold one or two players under distinct socket ids
    (the empty store at start-up), whatever sequence of create, join,
    leave, game-action and reset events arrives from whatever sockets,
    every game action coming with a payload, every handler returns, room
    ids stay distinct, and every room still holds one or two players
    under distinct socket ids.  A game action without a payload is
    another matter: from a socket that is in a room the handler throws
    a TypeError (it reads [data.type]), from any other socket it returns
    and changes nothing. *)
Theorem duel_rooms_stay_seated (rooms : list (string * room))
    (reqs : list (string * request)) :
  tidy rooms ->
  (Forall (fun sr => with_payload (snd sr)) reqs ->
   exists rooms' out, serve_all rooms reqs = Ok (rooms', out) /\ tidy rooms')
  /\ (forall sid,
        serve rooms sid (game_action_req None)
        = match findPlayerRoom rooms sid with
          | Some _ => Throw
          | None => Ok (rooms, [])
          end).
Proof.
  intros Htidy. split.
  - revert rooms Htidy. induction reqs as [|[sid req] reqs IH]; intros rooms Htidy Hreqs;
      cbn [serve_all].
    + now exists rooms, [].
    + apply Forall_cons in Hreqs as [Hreq Hreqs]. cbn [snd] in Hreq.
      destruct (serve_tidy rooms sid req Htidy Hreq) as (rooms1 & out1 & -> & H1).
      cbn [obind].
      destruct (IH rooms1 H1 Hreqs) as (rooms2 & out2 & -> & H2). cbn [obind].
      now eexists _, _.
  - intros sid. cbn [serve on_game_action]. now destruct (findPlayerRoom rooms sid).
Qed.

Lemma duel_rooms_stay_seated_witness :
  (exists rooms' out,
     serve_all []
       [("sock1", create_room_req (Player 7 "ann") "a1b2c3");
        ("sock2", join_room_req (Player 9 "bob") "a1b2c3" (1 # 2));
        ("sock3", join_room_req (Player 4 "cat") "a1b2c3" (1 # 2));
        ("sock1", game_action_req (Some (Action game_over 0)));
        ("sock2", game_reset_req (1 # 3));
        ("sock2", leave_room_req);
        ("sock1", leave_room_req)] = Ok (rooms', out)
     /\ tidy rooms')
  /\ serve one_duel "sock1" (game_action_req None) = Throw
  /\ serve one_duel "sock9" (game_action_req None) = Ok (one_duel, []).
Proof.
  split; [|split].
  - apply (duel_rooms_stay_seated []); [split; constructor | repeat constructor].
  - refine (proj2 (duel_rooms_stay_seated one_duel [] _) "sock1").
    split; [apply (bool_decide_unpack _); vm_compute; exact I|].
    constructor; [|constructor].
    split; [apply (bool_decide_unpack _); vm_compute; exact I | cbn; lia].
  - refine (proj2 (duel_rooms_stay_seated one_duel [] _) "sock9").
    split; [apply (bool_decide_unpack _); vm_compute; exact I|].
    constructor; [|constructor].
    split; [apply (bool_decide_unpack _); vm_compute; exact I | cbn; lia].
Defined.

(** X19. Joining a waiting duel room that holds one other player seats
    the newcomer after that player and leaves every other room alone; the
    room being full now, the room is sent the ready event with a seed in
    [0, 2147483647) (the draw being in [0, 1)); and from then on a join
    by anyone is refused as full, with the store unchanged. *)
Theorem join_fills_room (rooms : list (string * room)) (roomId host sid : string)
    (r : room) (p me : player) (rnd : Q) :
  getRoom rooms roomId = Some r ->
  players r = [(host, p)] -> host <> sid -> status_of r = waiting ->
  (0 <= rnd)%Q -> (rnd < 1)%Q ->
  exists rooms' out seed,
    join_room rooms sid me roomId rnd = (rooms', out)
    /\ getRoom rooms' roomId = Some (set_players [(host, p); (sid, me)] r)
    /\ (forall k, k <> roomId -> getRoom rooms' k = getRoom rooms k)
    /\ In (in_game (emit_game_ready (ToRoom roomId) seed)) out
    /\ 0 <= seed < 2147483647
    /\ forall sid' me' rnd',
         join_room rooms' sid' me' roomId rnd' = (rooms', [emit_room_error room_is_full]).
Proof.
  intros Hget Hps Hne Hst Hlo Hhi. unfold join_room at 1. unfold getPlayerCount at 1.
  rewrite Hget, Hps, Hst. cbn [length Z.of_nat Z.leb status_eqb negb].
  change (2 <=? Z.of_nat 1) with false. cbv iota.
  unfold addPlayer. rewrite Hget, Hps. cbn [fst set_player].
  destruct (String.eqb_spec host sid); [congruence|].
  set (rooms' := put_room rooms roomId _).
  assert (Hget' : getRoom rooms' roomId = Some (set_players [(host, p); (sid, me)] r)).
  { subst rooms'. now rewrite getRoom_put, String.eqb_refl, Hget. }
  unfold getPlayerCount. rewrite Hget'. cbn [players set_players length Z.of_nat Z.eqb].
  change (Z.of_nat 2 =? 2) with true. cbv iota.
  eexists rooms', _, (Qfloor (rnd * 2147483647)). split; [reflexivity|].
  split; [exact Hget'|]. split.
  { intros k Hk. subst rooms'. rewrite getRoom_put.
    destruct (String.eqb_spec roomId k); [congruence | reflexivity]. }
  split; [cbn; tauto|]. split.
  { split.
    - change 0 with (Qfloor 0). apply Qfloor_resp_le.
      apply Qmult_le_0_compat; [exact Hlo | discriminate].
    - rewrite Zlt_Qlt. eapply Qle_lt_trans; [apply Qfloor_le|].
      rewrite <- (Qmult_1_l (inject_Z 2147483647)).
      apply Qmult_lt_compat_r; [reflexivity | exact Hhi]. }
  intros sid' me' rnd'. unfold join_room, getPlayerCount. rewrite Hget'. reflexivity.
Qed.

Lemma join_fills_room_witness :
  exists rooms' out seed,
    join_room [("a1b2c3", Room "a1b2c3" [("sock1", Player 7 "ann")] waiting ∅)]
              "sock2" (Player 9 "bob") "a1b2c3" (1 # 2) = (rooms', out)
    /\ getRoom rooms' "a1b2c3"
       = Some (set_players [("sock1", Player 7 "ann"); ("sock2", Player 9 "bob")]
                           (Room "a1b2c3" [("sock1", Player 7 "ann")] waiting ∅))
    /\ (forall k, k <> "a1b2c3" ->
        getRoom rooms' k
        = getRoom [("a1b2c3", Room "a1b2c3" [("sock1", Player 7 "ann")] waiting ∅)] k)
    /\ In (in_game (emit_game_ready (ToRoom "a1b2c3") seed)) out
    /\ 0 <= seed < 2147483647
    /\ forall sid' me' rnd',
         join_room rooms' sid' me' "a1b2c3" rnd' = (rooms', [emit_room_error room_is_full]).
Proof.
  apply (join_fills_room _ "a1b2c3" "sock1" "sock2" _ (Player 7 "ann"));
    try reflexivity; discriminate.
Defined.

(** X20. Creating a room and leaving it again is a round trip: for a
    socket that sits in no room and a fresh room id, [create_room]
    followed by [handleLeave] gives back the store as it was, the room
    just made being deleted when its only player goes. *)
Theorem create_then_leave (rooms : list (string * room)) (sid : string) (me : player)
    (roomId : string) :
  NoDup (map fst rooms) -> roomId ∉ map fst rooms -> findPlayerRoom rooms sid = None ->
  exists out,
    handleLeave (fst (create_room rooms sid me roomId)) sid = Ok (rooms, out)
    /\ getRoom (fst (create_room rooms sid me roomId)) roomId
       = Some (Room roomId [(sid, me)] waiting ∅).
Proof.
  intros Hnd Hfresh Hnone. cbn [create_room fst].
  rewrite (createRoom_fresh rooms roomId _ Hfresh).
  set (r := {| id := roomId; players := [(sid, me)]; status_of := waiting; scores := ∅ |}).
  assert (Hfind : findPlayerRoom (rooms ++ [(roomId, r)]) sid = Some (roomId, r)).
  { rewrite find_app by exact Hnone. cbn. now rewrite String.eqb_refl. }
  assert (Hget : getRoom (rooms ++ [(roomId, r)]) roomId = Some r).
  { rewrite <- (createRoom_fresh rooms roomId r Hfresh), getRoom_create.
    now rewrite String.eqb_refl. }
  unfold handleLeave. rewrite Hfind. cbn [players r get_player].
  rewrite String.eqb_refl. cbn [deref obind].
  unfold removePlayer. rewrite Hget. cbn [players r get_player].
  rewrite String.eqb_refl. cbn [fst].
  unfold isRoomEmpty, getPlayerCount. rewrite getRoom_put, String.eqb_refl, Hget.
  cbn [option_map players set_players delete_player List.filter fst negb].
  rewrite String.eqb_refl. cbn [negb length Z.of_nat Z.eqb].
  rewrite delete_put, (delete_last rooms roomId r Hfresh).
  eexists. split; reflexivity.
Qed.

Lemma create_then_leave_witness :
  exists out,
    handleLeave (fst (create_room one_duel "sock5" (Player 3 "eve") "ffff00")) "sock5"
    = Ok (one_duel, out)
    /\ getRoom (fst (create_room one_duel "sock5" (Player 3 "eve") "ffff00")) "ffff00"
       = Some (Room "ffff00" [("sock5", Player 3 "eve")] waiting ∅).
Proof.
  apply create_then_leave.
  - apply (bool_decide_unpack _). vm_compute. exact I.
  - apply (bool_decide_unpack _). vm_compute. exact I.
  - reflexivity.
Defined.

(** X21. When one of the two players of a duel room leaves, the room
    stays with the other player alone, goes back to [waiting] whatever
    its status was, and its tallies are cleared; the room is told that a
    player left, with the leaver's name, and the lobby gets the new room
    list; no other room changes. *)
Theorem leave_resets_room (rooms : list (string * room)) (roomId sid other : string)
    (r : room) (me q : player) :
  NoDup (map fst rooms) ->
  findPlayerRoom rooms sid = Some (roomId, r) ->
  Permutation (players r) [(sid, me); (other, q)] -> sid <> other ->
  exists rooms',
    handleLeave rooms sid
    = Ok (rooms', [socket_leave (room_channel roomId); socket_join lobby;
                   emit_player_left roomId; chat_left roomId (username me);
                   emit_room_list (getAllRooms rooms')])
    /\ getRoom rooms' roomId = Some (Room (id r) [(other, q)] waiting ∅)
    /\ forall k, k <> roomId -> getRoom rooms' k = getRoom rooms k.
Proof.
  intros Hnd Hfind Hperm Hne.
  pose proof (find_getRoom rooms sid roomId r Hnd Hfind) as Hget.
  assert (Hcases : players r = [(sid, me); (other, q)] \/ players r = [(other, q); (sid, me)]).
  { pose proof (Permutation_length Hperm) as Hlen.
    destruct (players r) as [|x [|y [|z l]]]; try discriminate.
    apply Permutation_length_2_inv in Hperm as [[= -> ->] | [= -> ->]]; auto. }
  assert (Hme : get_player (players r) sid = Some me).
  { destruct Hcases as [-> | ->]; cbn; rewrite ?String.eqb_refl; [reflexivity|].
    destruct (String.eqb_spec other sid); [congruence | reflexivity]. }
  assert (Hdel : delete_player (players r) sid = [(other, q)]).
  { destruct Hcases as [-> | ->]; cbn; rewrite ?String.eqb_refl; cbn;
      destruct (String.eqb_spec other sid); try congruence; reflexivity. }
  unfold handleLeave. rewrite Hfind, Hme. cbn [deref obind].
  unfold removePlayer. rewrite Hget, Hme. cbn [fst]. rewrite Hdel.
  unfold isRoomEmpty, getPlayerCount. rewrite getRoom_put, String.eqb_refl, Hget.
  cbn [option_map players set_players length Z.of_nat Z.eqb deref obind]. rewrite put_put.
  eexists. split; [reflexivity|]. split.
  - now rewrite getRoom_put, String.eqb_refl, Hget.
  - intros k Hk. rewrite getRoom_put. destruct (String.eqb_spec roomId k); [congruence|].
    reflexivity.
Qed.

Lemma leave_resets_room_witness :
  exists rooms',
    handleLeave one_duel "sock2"
    = Ok (rooms', [socket_leave (room_channel "a1b2c3"); socket_join lobby;
                   emit_player_left "a1b2c3"; chat_left "a1b2c3" (username (Player 9 "bob"));
                   emit_room_list (getAllRooms rooms')])
    /\ getRoom rooms' "a1b2c3" = Some (Room "a1b2c3" [("sock1", Player 7 "ann")] waiting ∅)
    /\ forall k, k <> "a1b2c3" -> getRoom rooms' k = getRoom one_duel k.
Proof.
  apply (leave_resets_room one_duel "a1b2c3" "sock2" "sock1"
           (Room "a1b2c3" [("sock1", Player 7 "ann"); ("sock2", Player 9 "bob")] playing ∅)
           (Player 9 "bob") (Player 7 "ann")).
  - apply (bool_decide_unpack _). vm_compute. exact I.
  - reflexivity.
  - apply perm_swap.
  - discriminate.
Defined.

End DuelLobbyFacts.

(** * The battle lobby (socketMulti.js) *)

Module BattleLobbyFacts.
Import Battle.
Import BattleFacts.

(** ** The room store *)




Lemma get_put_room (rooms : list (string * room)) (k k' : string) (r : room) :
  get_room (put_room rooms k r) k'
  = if String.eqb k k' then option_map (fun _ => r) (get_room rooms k') else get_room rooms k'.
Proof.
  induction rooms as [|[k0 r0] rooms IH]; cbn.
  - now destruct (String.eqb k k').
  - destruct (String.eqb_spec k0 k) as [->|Hne]; cbn.
    + destruct (String.eqb_spec k k') as [->|Hne']; reflexivity.
    + destruct (String.eqb_spec k0 k') as [->|Hne'].
      * destruct (String.eqb_spec k k'); [congruence | reflexivity].
      * exact IH.
Qed.

Lemma set_room_fresh (rooms : list (string * room)) (k : string) (r : room) :
  k ∉ map fst rooms -> set_room rooms k r = rooms ++ [(k, r)].
Proof.
  induction rooms as [|[k0 r0] rooms IH]; cbn; [reflexivity|].
  rewrite not_elem_of_cons. intros [Hne Hk].
  destruct (String.eqb_spec k0 k); [congruence|]. now rewrite IH.
Qed.


Lemma get_set_room (rooms : list (string * room)) (k k' : string) (r : room) :
  get_room (set_room rooms k r) k' = if String.eqb k k' then Some r else get_room rooms k'.
Proof.
  induction rooms as [|[k0 r0] rooms IH]; cbn.
  - reflexivity.
  - destruct (String.eqb_spec k0 k) as [->|Hne]; cbn.
    + now destruct (String.eqb k k').
    + destruct (String.eqb_spec k0 k') as [->|Hne'].
      * destruct (String.eqb_spec k k'); [congruence | reflexivity].
      * exact IH.
Qed.

(** ** Rosters *)

Lemma get_player_absent (ps : list (string * player)) (sid : string) :
  get_player ps sid = None <-> sid ∉ map fst ps.
Proof.
  induction ps as [|[k p] ps IH]; cbn.
  - split; [intros _; apply not_elem_of_nil | reflexivity].
  - rewrite not_elem_of_cons. destruct (String.eqb_spec k sid) as [->|Hne].
    + split; [discriminate | now intros [? _]].
    + rewrite IH. split; [now split | now intros [_ ?]].
Qed.

Lemma has_player_key (ps : list (string * player)) (sid : string) :
  has_player ps sid = true <-> sid ∈ map fst ps.
Proof.
  unfold has_player. destruct (get_player ps sid) eqn:E.
  - split; [intros _|reflexivity].
    destruct (decide (sid ∈ map fst ps)) as [|Hn]; [assumption|].
    apply get_player_absent in Hn. congruence.
  - apply get_player_absent in E. split; [discriminate | contradiction].
Qed.


Lemma set_player_new (ps : list (string * player)) (sid : string) (p : player) :
  sid ∉ map fst ps -> set_player ps sid p = ps ++ [(sid, p)].
Proof.
  induction ps as [|[k q] ps IH]; cbn; [reflexivity|].
  rewrite not_elem_of_cons. intros [Hne Hk].
  destruct (String.eqb_spec k sid); [congruence|]. now rewrite IH.
Qed.

Lemma delete_player_names (ps : list (string * player)) (sid : string) :
  map fst (delete_player ps sid) = List.filter (fun x => negb (String.eqb x sid)) (map fst ps).
Proof.
  unfold delete_player. induction ps as [|[k q] ps IH]; cbn; [reflexivity|].
  destruct (String.eqb k sid); cbn; now rewrite IH.
Qed.

Lemma delete_player_key (ps : list (string * player)) (sid k : string) :
  k ∈ map fst (delete_player ps sid) <-> k ∈ map fst ps /\ k <> sid.
Proof.
  rewrite delete_player_names, !list_elem_of_In, filter_In, negb_true_iff.
  destruct (String.eqb_spec k sid); split; intros [? ?]; split; congruence.
Qed.

(** ** Counting the living *)

Lemma living_app (ps qs : list (string * player)) :
  living (ps ++ qs) = (living ps + living qs)%nat.
Proof. unfold living. now rewrite List.filter_app, length_app. Qed.

Lemma living_cons (k : string) (p : player) (ps : list (string * player)) :
  living ((k, p) :: ps) = ((if alive p then 1 else 0) + living ps)%nat.
Proof. unfold living. cbn. now destruct (alive p). Qed.

Lemma living_le (ps : list (string * player)) : (living ps <= length ps)%nat.
Proof.
  induction ps as [|[k p] ps IH]; [cbn; lia|].
  rewrite living_cons. cbn [length]. destruct (alive p); lia.
Qed.


Lemma living_eliminate (n : Z) (sid : string) (me : player) (ps : list (string * player)) :
  NoDup (map fst ps) -> get_player ps sid = Some me -> alive me = true ->
  S (living (update_player (eliminate n) sid ps)) = living ps.
Proof.
  intros Hnd Hget Halive. destruct (get_player_split ps sid me Hget) as (ps1 & ps2 & ->).
  rewrite update_player_split by exact Hnd.
  rewrite !living_app, !living_cons. cbn [eliminate alive]. rewrite Halive. lia.
Qed.

Lemma living_crown (ps : list (string * player)) :
  (living ps <= 1)%nat -> living (crown_first_alive ps) = 0%nat.
Proof.
  induction ps as [|[k p] ps IH]; [reflexivity|]. rewrite living_cons. cbn [crown_first_alive].
  destruct (alive p) eqn:E; intros H; rewrite living_cons.
  - cbn [crowned alive]. lia.
  - rewrite E. rewrite IH; lia.
Qed.

Lemma crown_names (ps : list (string * player)) :
  map fst (crown_first_alive ps) = map fst ps.
Proof.
  induction ps as [|[k p] ps IH]; [reflexivity|]. cbn [crown_first_alive].
  destruct (alive p); cbn; [reflexivity | now rewrite IH].
Qed.

Lemma living_delete (ps : list (string * player)) (sid : string) (me : player) :
  NoDup (map fst ps) -> get_player ps sid = Some me ->
  (living (delete_player ps sid) + (if alive me then 1 else 0) = living ps)%nat
  /\ S (length (delete_player ps sid)) = length ps.
Proof.
  intros Hnd Hget. destruct (get_player_split ps sid me Hget) as (ps1 & ps2 & ->).
  assert (Hd : delete_player (ps1 ++ (sid, me) :: ps2) sid = ps1 ++ ps2).
  { rewrite map_app in Hnd. cbn in Hnd. apply NoDup_app in Hnd as (_ & Hdis & Hnd2).
    apply NoDup_cons in Hnd2 as [H2 _].
    assert (H1 : sid ∉ map fst ps1) by (intros Hin; apply (Hdis sid Hin); now left).
    unfold delete_player. rewrite List.filter_app. cbn. rewrite String.eqb_refl. cbn.
    assert (Hkeep : forall l : list (string * player), sid ∉ map fst l ->
              List.filter (fun kp => negb (String.eqb (fst kp) sid)) l = l).
    { clear. induction l as [|[k q] l IH]; cbn; [reflexivity|].
      rewrite not_elem_of_cons. intros [Hne Hk].
      destruct (String.eqb_spec k sid); [congruence|]. cbn. now rewrite IH. }
    now rewrite !Hkeep. }
  rewrite Hd, !living_app, living_cons, !length_app. cbn [length]. split; lia.
Qed.



Lemma living_member (ps : list (string * player)) (sid : string) (me : player) :
  get_player ps sid = Some me -> alive me = true -> (1 <= living ps)%nat.
Proof.
  intros Hget Halive. destruct (get_player_split ps sid me Hget) as (ps1 & ps2 & ->).
  rewrite living_app, living_cons, Halive. lia.
Qed.

(** ** The handlers keep the store sound *)

Lemma capacity_range (requested : option Z) : 3 <= capacity requested <= 21.
Proof. unfold capacity. lia. Qed.








(** An elimination, by a report or by leaving: the player is dead
    afterwards, the roster has the same sockets, and the room is sound,
    finished if only one player was left alive. *)
Lemma eliminate_sound (roomId : string) (r : room) (sid : string) (me : player) :
  sound r -> get_player (players r) sid = Some me -> alive me = true ->
  exists r' out me',
    checkGameEnd
      (set_alivePlayers (alivePlayers r - 1)
         (set_players (update_player (eliminate (alivePlayers r)) sid (players r)) r))
      roomId = (r', out)
    /\ sound r'
    /\ map fst (players r') = map fst (players r)
    /\ hostSocketId r' = hostSocketId r /\ maxPlayers r' = maxPlayers r
    /\ get_player (players r') sid = Some me' /\ alive me' = false
    /\ username me' = username me.
Proof.
  intros (Hne & Hnd & Hhost & Hlen & Hmax & Hst) Hget Halive.
  pose proof (living_eliminate (alivePlayers r) sid me (players r) Hnd Hget Halive) as Hliv.
  pose proof (get_player_update_eq (eliminate (alivePlayers r)) sid (players r)) as Hupd.
  rewrite Hget in Hupd. cbn in Hupd.
  set (ps' := update_player (eliminate (alivePlayers r)) sid (players r)) in *.
  assert (Hids : map fst ps' = map fst (players r)) by apply map_fst_update.
  assert (Hlen' : length ps' = length (players r))
    by (unfold ps', update_player; apply length_map).
  assert (Hsound : forall r',
            map fst (players r') = map fst (players r) ->
            hostSocketId r' = hostSocketId r -> maxPlayers r' = maxPlayers r ->
            match status_of r' with
            | waiting => True
            | playing => alivePlayers r' = Z.of_nat (living (players r'))
                         /\ (2 <= living (players r'))%nat
            | finished => living (players r') = 0%nat
            end -> sound r').
  { intros r' Hk Hh Hm Hs. split; [|split; [|split; [|split; [|split]]]].
    - intros E. rewrite E in Hk. destruct (players r); [congruence | discriminate].
    - now rewrite Hk.
    - apply has_player_key. rewrite Hk, Hh. now apply has_player_key.
    - rewrite <- (length_map fst), Hk, length_map, Hm. exact Hlen.
    - now rewrite Hm.
    - exact Hs. }
  unfold checkGameEnd.
  cbn [alivePlayers status_of players set_alivePlayers set_players set_status].
  destruct (status_of r) eqn:Est; cbn [status_eqb andb].
  - rewrite andb_false_r. eexists _, _, (eliminate (alivePlayers r) me).
    split; [reflexivity|]. cbn [players hostSocketId maxPlayers set_alivePlayers set_players].
    split; [|repeat split; try reflexivity; assumption].
    apply Hsound; try reflexivity; [exact Hids|].
    cbn [status_of set_alivePlayers set_players]. now rewrite Est.
  - destruct Hst as [Hcount H2]. rewrite andb_true_r.
    destruct (Z.leb_spec (alivePlayers r - 1) 1).
    + eexists _, _, (eliminate (alivePlayers r) me). split; [reflexivity|].
      cbn [players hostSocketId maxPlayers set_alivePlayers set_players set_status].
      assert (Hids' : map fst (crown_first_alive ps') = map fst (players r))
        by (now rewrite crown_names).
      split; [|repeat split; try reflexivity; try assumption;
               apply crown_keeps_dead; [exact Hupd | reflexivity]].
      apply Hsound; try reflexivity; [exact Hids'|].
      cbn [status_of players set_alivePlayers set_players set_status].
      apply living_crown. lia.
    + eexists _, _, (eliminate (alivePlayers r) me). split; [reflexivity|].
      cbn [players hostSocketId maxPlayers set_alivePlayers set_players].
      split; [|repeat split; try reflexivity; assumption].
      apply Hsound; try reflexivity; [exact Hids|].
      cbn [status_of alivePlayers players set_alivePlayers set_players]. rewrite Est.
      split; lia.
  - exfalso. pose proof (living_member _ _ _ Hget Halive). lia.
Qed.





Lemma leave_elimination_sound (roomId : string) (r : room) (sid : string) (me : player) :
  sound r -> get_player (players r) sid = Some me ->
  exists r1 out1 me1,
    leave_elimination roomId r sid me = (r1, out1)
    /\ sound r1
    /\ get_player (players r1) sid = Some me1
    /\ username me1 = username me
    /\ (status_of r1 = playing -> alive me1 = false).
Proof.
  intros Hs Hget. unfold leave_elimination.
  destruct (status_eqb (status_of r) playing && alive me) eqn:Econd.
  - apply andb_true_iff in Econd as [_ Halive].
    destruct (eliminate_sound roomId r sid me Hs Hget Halive)
      as (r' & out & me' & E & Hs' & _ & _ & _ & Hget' & Hdead & Hname).
    cbv zeta. rewrite E. eexists _, _, me'. split; [reflexivity|].
    split; [exact Hs'|]. split; [exact Hget'|]. split; [exact Hname|].
    intros _. exact Hdead.
  - eexists _, _, me. split; [reflexivity|].
    split; [exact Hs|]. split; [exact Hget|]. split; [reflexivity|].
    intros Hst. rewrite Hst in Econd. cbn in Econd. exact Econd.
Qed.

Lemma leave_room_sound (roomId : string) (r : room) (sid : string) (me : player) :
  sound r -> get_player (players r) sid = Some me ->
  exists r' out, leave_room roomId r sid me = Ok (r', out)
    /\ forall r2, r' = Some r2 -> sound r2.
Proof.
  intros Hs Hget. unfold leave_room.
  destruct (leave_elimination_sound roomId r sid me Hs Hget)
    as (r1 & out1 & me1 & -> & Hs1 & Hget1 & _ & Hdead).
  destruct Hs1 as (Hne & Hnd & Hhost & Hlen & Hmax & Hst).
  cbn [players set_players]. clear Hs Hget r.
  destruct (living_delete (players r1) sid me1 Hnd Hget1) as [Hliv Hsize].
  destruct (Nat.eqb_spec (length (delete_player (players r1) sid)) 0) as [|Hrest].
  { eexists _, _. split; [reflexivity|]. discriminate. }
  assert (Hbase : forall h, h ∈ map fst (delete_player (players r1) sid) ->
            sound (set_hostSocketId h (set_players (delete_player (players r1) sid) r1))).
  { intros h Hh. split; [|split; [|split; [|split; [|split]]]];
      cbn [players hostSocketId maxPlayers status_of alivePlayers set_players set_hostSocketId].
    - intros E. rewrite E in Hrest. now apply Hrest.
    - rewrite delete_player_names. now apply DuelLobbyFacts.filter_NoDup.
    - now apply has_player_key.
    - lia.
    - exact Hmax.
    - destruct (status_of r1).
      + exact I.
      + rewrite (Hdead eq_refl) in Hliv. destruct Hst as [Hc H2]. split; lia.
      + lia. }
  cbn [hostSocketId set_players].
  destruct (String.eqb_spec (hostSocketId r1) sid) as [Hh|Hh].
  - destruct (map fst (delete_player (players r1) sid)) as [|k ks] eqn:Ekeys.
    { exfalso. apply Hrest. now rewrite <- (length_map fst), Ekeys. }
    cbn [head deref obind].
    assert (Hk : k ∈ map fst (delete_player (players r1) sid)) by (rewrite Ekeys; now left).
    pose proof Hk as Hk'. apply has_player_key in Hk'. unfold has_player in Hk'.
    destruct (get_player (delete_player (players r1) sid) k); [|discriminate].
    cbn [deref obind]. eexists _, _. split; [reflexivity|].
    intros r2 [= <-]. apply Hbase. left.
  - cbn [obind]. eexists _, _. split; [reflexivity|]. intros r2 [= <-].
    assert (Hk : hostSocketId r1 ∈ map fst (delete_player (players r1) sid)).
    { apply delete_player_key. split; [now apply has_player_key | exact Hh]. }
    specialize (Hbase _ Hk). destruct r1; exact Hbase.
Qed.







(** ** What the battle lobby guarantees *)



(** X23. Joining a waiting room that has a free seat, by a socket that
    is not in it: the newcomer is seated after the others as a fresh
    player (score 0, alive, no rank), the counter goes up by one, no other
    room changes, the newcomer is told the host's name and that it is not
    the host, and the room is sent the new roster. *)
Theorem join_seats_newcomer (rooms : list (string * room)) (sid : string) (uid : Z)
    (uname : string) (roomId : string) (r : room) (host : player) :
  get_room rooms roomId = Some r ->
  status_of r = waiting ->
  Z.of_nat (length (players r)) < maxPlayers r ->
  sid ∉ map fst (players r) ->
  get_player (players r) (hostSocketId r) = Some host ->
  let r' := set_alivePlayers (alivePlayers r + 1)
              (set_players (players r ++ [(sid, new_player uid uname)]) r) in
  exists rooms',
    join_multi_room rooms sid uid uname roomId
    = Ok (rooms',
          [socket_leave sid lobby; socket_join sid (room_channel roomId);
           multi_room_joined sid roomId (maxPlayers r) false (username host);
           multi_player_list roomId (getPlayerList r');
           chat_joined roomId uname]
          ++ map relayed (broadcastMultiRoomList rooms'))
    /\ get_room rooms' roomId = Some r'
    /\ forall k, k <> roomId -> get_room rooms' k = get_room rooms k.
Proof.
  intros Hget Hst Hfree Hnew Hhost r'. unfold join_multi_room. rewrite Hget, Hst.
  destruct (Z.leb_spec (maxPlayers r) (Z.of_nat (length (players r)))); [lia|].
  cbn [status_eqb negb]. rewrite (set_player_new _ _ _ Hnew).
  cbn [players hostSocketId maxPlayers set_players set_alivePlayers].
  assert (Hhost' : get_player (players r ++ [(sid, new_player uid uname)]) (hostSocketId r)
                   = Some host).
  { clear - Hhost. induction (players r) as [|[k p] ps IH]; cbn in *; [discriminate|].
    destruct (String.eqb k (hostSocketId r)); [exact Hhost | now apply IH]. }
  rewrite Hhost'. cbn [deref obind]. eexists. split; [reflexivity|]. split.
  - now rewrite get_put_room, String.eqb_refl, Hget.
  - intros k Hk. rewrite get_put_room. destruct (String.eqb_spec roomId k); [congruence|].
    reflexivity.
Qed.

Lemma join_seats_newcomer_witness :
  let r' := set_alivePlayers (alivePlayers lobby_of_three + 1)
              (set_players (players lobby_of_three ++ [("sockD", new_player 4 "D")])
                           lobby_of_three) in
  exists rooms',
    join_multi_room [("M1A2B3", lobby_of_three)] "sockD" 4 "D" "M1A2B3"
    = Ok (rooms',
          [socket_leave "sockD" lobby; socket_join "sockD" (room_channel "M1A2B3");
           multi_room_joined "sockD" "M1A2B3" (maxPlayers lobby_of_three) false
                             (username (Player 1 "A" 0 true None None));
           multi_player_list "M1A2B3" (getPlayerList r');
           chat_joined "M1A2B3" "D"]
          ++ map relayed (broadcastMultiRoomList rooms'))
    /\ get_room rooms' "M1A2B3" = Some r'
    /\ forall k, k <> "M1A2B3" -> get_room rooms' k = get_room [("M1A2B3", lobby_of_three)] k.
Proof.
  apply (join_seats_newcomer [("M1A2B3", lobby_of_three)] "sockD" 4 "D" "M1A2B3"
           lobby_of_three (Player 1 "A" 0 true None None)).
  - reflexivity.
  - reflexivity.
  - cbn. lia.
  - apply (bool_decide_unpack _). vm_compute. exact I.
  - reflexivity.
Defined.

(** X24. When the host leaves a waiting room where others stay, the
    first of the remaining players (in roster order) becomes the host:
    the room keeps the others in their order, is told who the new host
    is, gets the new roster with the host flag on that player, and the
    leaver's farewell line. *)
Theorem host_leaves_room (roomId : string) (r : room) (sid : string) (me : player)
    (k : string) (q : player) (rest : list (string * player)) :
  get_player (players r) sid = Some me ->
  hostSocketId r = sid -> status_of r = waiting ->
  delete_player (players r) sid = (k, q) :: rest ->
  let r' := set_hostSocketId k (set_players ((k, q) :: rest) r) in
  leave_room roomId r sid me
  = Ok (Some r',
        [socket_leave sid (room_channel roomId); socket_join sid lobby;
         multi_host_changed roomId k (username q);
         multi_player_list roomId (getPlayerList r');
         chat_left roomId (username me)])
  /\ hostSocketId r' = k
  /\ has_player (players r') (hostSocketId r') = true
  /\ has_player (players r') sid = false.
Proof.
  intros Hget Hhost Hst Hdel r'. unfold leave_room, leave_elimination.
  rewrite Hst. cbn [status_eqb andb]. cbv iota. cbn [players set_players].
  rewrite Hdel. cbn [length Nat.eqb hostSocketId set_players]. rewrite Hhost, String.eqb_refl.
  cbn [map fst head deref obind get_player]. rewrite String.eqb_refl.
  cbn [deref obind status_of set_hostSocketId set_players]. rewrite Hst.
  cbn [status_eqb app]. split; [reflexivity|]. split; [reflexivity|]. split.
  - unfold has_player. cbn. now rewrite String.eqb_refl.
  - destruct (has_player (players r') sid) eqn:E; [|reflexivity]. exfalso.
    apply has_player_key in E. subst r'. cbn [players set_hostSocketId set_players] in E.
    rewrite <- Hdel in E. apply delete_player_key in E. now destruct E.
Qed.

Lemma host_leaves_room_witness :
  let r' := set_hostSocketId "sockB"
              (set_players [("sockB", Player 2 "B" 0 true None None);
                            ("sockC", Player 3 "C" 0 true None None)] lobby_of_three) in
  leave_room "M1A2B3" lobby_of_three "sockA" (Player 1 "A" 0 true None None)
  = Ok (Some r',
        [socket_leave "sockA" (room_channel "M1A2B3"); socket_join "sockA" lobby;
         multi_host_changed "M1A2B3" "sockB" (username (Player 2 "B" 0 true None None));
         multi_player_list "M1A2B3" (getPlayerList r');
         chat_left "M1A2B3" (username (Player 1 "A" 0 true None None))])
  /\ hostSocketId r' = "sockB"
  /\ has_player (players r') (hostSocketId r') = true
  /\ has_player (players r') "sockA" = false.
Proof.
  apply (host_leaves_room "M1A2B3" lobby_of_three "sockA"); reflexivity.
Defined.

Lemma get_player_delete (ps : list (string * player)) (sid k : string) :
  k <> sid -> get_player (delete_player ps sid) k = get_player ps k.
Proof.
  intros Hne. unfold delete_player. induction ps as [|[k0 p] ps IH]; cbn; [reflexivity|].
  destruct (String.eqb_spec k0 sid) as [->|Hne0]; cbn.
  - destruct (String.eqb_spec sid k); [congruence | exact IH].
  - destruct (String.eqb k0 k); [reflexivity | exact IH].
Qed.

(** X25. A player who is alive and leaves a playing room with two players
    alive ends the match like a game-over report would: the others are
    told of the elimination with rank 2 and reason left, the room becomes
    finished, the one other player alive takes rank 1, the final rankings
    (with the leaver in them) go to the room, and the leaver is off the
    roster afterwards, on which nobody is alive any more. *)
Theorem leaver_ends_match (roomId : string) (r : room) (sid : string) (me : player) :
  sound r -> status_of r = playing -> alivePlayers r = 2 ->
  get_player (players r) sid = Some me -> alive me = true ->
  exists r' w pw rankings tail,
    leave_room roomId r sid me
    = Ok (Some r',
          relayed (ToOthers roomId sid,
                   multi_player_eliminated sid (username me) (Some 2) because_left)
          :: relayed (ToRoom roomId, multi_game_finished rankings)
          :: relayed (ToRoom roomId, chat_final_rankings rankings)
          :: tail)
    /\ status_of r' = finished
    /\ has_player (players r') sid = false
    /\ living (players r') = 0%nat
    /\ w <> sid /\ get_player (players r) w = Some pw /\ alive pw = true
    /\ get_player (players r') w = Some (crowned pw)
    /\ In (Ranking sid (username me) (Some 2) (score me)) rankings.
Proof.
  intros Hs Hst Hcount Hget Halive.
  destruct (leave_room_sound roomId r sid me Hs Hget) as (o & out & E & Hsound).
  destruct Hs as (Hne & Hnd & Hhost & Hlen & Hmax & Hplay). rewrite Hst in Hplay.
  destruct Hplay as [Hc H2].
  pose proof (living_eliminate 2 sid me (players r) Hnd Hget Halive) as Hliv.
  pose proof (get_player_update_eq (eliminate 2) sid (players r)) as Hupd.
  rewrite Hget in Hupd. cbn [option_map] in Hupd.
  set (ps' := update_player (eliminate 2) sid (players r)) in *.
  assert (Hnd' : NoDup (map fst ps')) by (unfold ps'; now rewrite map_fst_update).
  assert (Hex : Exists (fun kp => alive (snd kp) = true) ps').
  { assert (Hone : living ps' = 1%nat) by lia. clear - Hone.
    induction ps' as [|[k p] ps IH]; [discriminate|]. rewrite living_cons in Hone.
    destruct (alive p) eqn:Ep; [now left | right; now apply IH]. }
  destruct (crown_split ps' Hex) as (qs1 & w & pw & qs2 & Eps & Hpw & Ecrown).
  assert (Hw' : get_player ps' w = Some pw).
  { rewrite Eps. apply get_player_middle. now rewrite <- Eps. }
  assert (Hws : w <> sid).
  { intros ->. rewrite Hupd in Hw'. injection Hw' as <-. discriminate Hpw. }
  assert (Hw : get_player (players r) w = Some pw).
  { unfold ps' in Hw'. now rewrite get_player_update_ne in Hw' by exact Hws. }
  assert (Hwc : get_player (crown_first_alive ps') w = Some (crowned pw)).
  { rewrite Ecrown. apply get_player_middle.
    rewrite <- crown_names in Hnd'. now rewrite Ecrown in Hnd'. }
  assert (Hsc : get_player (crown_first_alive ps') sid = Some (eliminate 2 me))
    by (apply crown_keeps_dead; [exact Hupd | reflexivity]).
  rewrite E. unfold leave_room, leave_elimination, checkGameEnd in E.
  rewrite Hst, Halive, Hcount in E. cbn [status_eqb andb] in E.
  cbn [alivePlayers status_of players set_alivePlayers set_players set_status] in E.
  rewrite Hst in E. change (2 - 1 <=? 1) with true in E.
  cbn [status_eqb andb map app players set_players] in E.
  fold ps' in E.
  set (rankings := sort_rankings _) in E.
  set (r1 := set_players (delete_player (crown_first_alive ps') sid) _) in E.
  change (delete_player (crown_first_alive ps') sid) with (players r1) in E.
  revert E.
  destruct (length (players r1) =? 0)%nat eqn:Elen.
  { exfalso. apply Nat.eqb_eq in Elen. subst r1. cbn [players set_players] in Elen.
    assert (Hin : w ∈ map fst (delete_player (crown_first_alive ps') sid)).
    { apply delete_player_key. split; [|exact Hws].
      apply has_player_key. unfold has_player. now rewrite Hwc. }
    rewrite <- (length_map fst) in Elen.
    destruct (map fst (delete_player (crown_first_alive ps') sid)); [|discriminate].
    now apply elem_of_nil in Hin. }
  intros E.
  assert (Hshape : exists r' tail,
            o = Some r' /\ players r' = players r1 /\ status_of r' = finished
            /\ out = relayed (ToOthers roomId sid,
                              multi_player_eliminated sid (username me) (Some 2) because_left)
                     :: relayed (ToRoom roomId, multi_game_finished rankings)
                     :: relayed (ToRoom roomId, chat_final_rankings rankings)
                     :: tail).
  { destruct (String.eqb (hostSocketId r1) sid).
    - destruct (deref (head (map fst (players r1)))) as [h| | |]; cbn [obind] in E;
        try discriminate.
      destruct (deref (get_player (players r1) h)) as [ph| | |]; cbn [obind] in E;
        try discriminate.
      injection E as <- <-. eexists _, _. split; [reflexivity|].
      split; [reflexivity|]. split; reflexivity.
    - cbn [obind] in E. injection E as <- <-. eexists _, _. split; [reflexivity|].
      split; [reflexivity|]. split; reflexivity. }
  destruct Hshape as (r' & tail & -> & Hps & Hfin & ->).
  exists r', w, pw, rankings, tail. split; [reflexivity|]. split; [exact Hfin|].
  rewrite Hps. subst r1. cbn [players set_players]. split.
  { destruct (has_player (delete_player (crown_first_alive ps') sid) sid) eqn:Eh;
      [|reflexivity].
    apply has_player_key, delete_player_key in Eh. now destruct Eh. }
  split.
  { assert (Hnd'' : NoDup (map fst (crown_first_alive ps'))) by now rewrite crown_names.
    destruct (living_delete _ sid _ Hnd'' Hsc) as [Hl _].
    rewrite (living_crown ps') in Hl by lia. lia. }
  split; [exact Hws|]. split; [exact Hw|]. split; [exact Hpw|].
  split; [rewrite get_player_delete by exact Hws; exact Hwc|].
  assert (Hperm : forall l, Permutation (sort_rankings l) l).
  { clear. unfold sort_rankings. induction l as [|x l IH]; [constructor|].
    cbn [fold_right]. etransitivity; [|apply Permutation_cons; [reflexivity | exact IH]].
    generalize (fold_right insert_ranking [] l). clear. intros l.
    induction l as [|y l IH]; cbn [insert_ranking]; [constructor; constructor|].
    destruct (_ <=? _); [reflexivity|].
    etransitivity; [apply Permutation_cons; [reflexivity | exact IH]|]. apply perm_swap. }
  apply (Permutation_in _ (Permutation_sym (Hperm _))).
  apply in_map_iff. exists (sid, eliminate 2 me). split; [reflexivity|].
  apply list_elem_of_In. clear - Hsc.
  induction (crown_first_alive ps') as [|[k p] l IH]; cbn in *; [discriminate|].
  destruct (String.eqb_spec k sid) as [->|]; [injection Hsc as ->; now left|].
  right. now apply IH.
Qed.

Lemma leaver_ends_match_witness :
  exists r' w pw rankings tail,
    leave_room "M1A2B3" (report "M1A2B3" three_playing "sockB") "sockC"
               (Player 3 "C" 0 true None None)
    = Ok (Some r',
          relayed (ToOthers "M1A2B3" "sockC",
                   multi_player_eliminated "sockC" (username (Player 3 "C" 0 true None None))
                                           (Some 2) because_left)
          :: relayed (ToRoom "M1A2B3", multi_game_finished rankings)
          :: relayed (ToRoom "M1A2B3", chat_final_rankings rankings)
          :: tail)
    /\ status_of r' = finished
    /\ has_player (players r') "sockC" = false
    /\ living (players r') = 0%nat
    /\ w <> "sockC"
    /\ get_player (players (report "M1A2B3" three_playing "sockB")) w = Some pw
    /\ alive pw = true
    /\ get_player (players r') w = Some (crowned pw)
    /\ In (Ranking "sockC" (username (Player 3 "C" 0 true None None)) (Some 2)
                   (score (Player 3 "C" 0 true None None))) rankings.
Proof.
  apply leaver_ends_match.
  - split; [discriminate|]. split; [apply (bool_decide_unpack _); vm_compute; exact I|].
    split; [reflexivity|]. split; [vm_compute; discriminate|].
    split; [vm_compute; split; discriminate|]. vm_compute. split; [reflexivity | lia].
  - reflexivity.
  - reflexivity.
  - reflexivity.
  - reflexivity.
Defined.





Lemma leave_scan_skip (rooms tail : list (string * room)) (sid : string) :
  Forall (fun kr => get_player (players (snd kr)) sid = None) rooms ->
  leave_scan (rooms ++ tail) sid
  = do (rest', out, found) <- leave_scan tail sid;
    Ok (rooms ++ rest', out, found).
Proof.
  intros Hnone. induction rooms as [|[k0 r0] rooms IH].
  - cbn [app]. destruct (leave_scan tail sid) as [[[rest' out] found]| | |]; reflexivity.
  - apply Forall_cons in Hnone as [H0 Hnone]. cbn [snd] in H0.
    cbn [app leave_scan]. rewrite H0, (IH Hnone).
    destruct (leave_scan tail sid) as [[[rest' out] found]| | |]; reflexivity.
Qed.

(** X27. Creating a battle room and leaving it at once is a round trip:
    for a socket that sits in no room and a fresh room id, the room made
    by [create_multi_room] has the requested capacity cut to 3..21 and
    the creator as host and only player, and [handleMultiLeave] then
    deletes it, giving back the store as it was. *)
Theorem create_then_leave_multi (rooms : list (string * room)) (sid : string) (uid : Z)
    (uname : string) (requested : option Z) (roomId : string) :
  roomId ∉ map fst rooms ->
  Forall (fun kr => get_player (players (snd kr)) sid = None) rooms ->
  exists r out,
    get_room (fst (create_multi_room rooms sid uid uname requested roomId)) roomId = Some r
    /\ hostSocketId r = sid /\ players r = [(sid, new_player uid uname)]
    /\ status_of r = waiting
    /\ 3 <= maxPlayers r <= 21
    /\ (forall n, requested = Some n -> 3 <= n <= 21 -> maxPlayers r = n)
    /\ handleMultiLeave (fst (create_multi_room rooms sid uid uname requested roomId)) sid
       = Ok (rooms, out).
Proof.
  intros Hfresh Hnone. cbn [create_multi_room fst].
  set (r := {| id := roomId; hostSocketId := sid; maxPlayers := capacity requested;
               players := [(sid, new_player uid uname)];
               status_of := waiting; alivePlayers := 1; seed := None |}).
  exists r. eexists. split; [now rewrite get_set_room, String.eqb_refl|].
  split; [reflexivity|]. split; [reflexivity|]. split; [reflexivity|].
  split; [apply capacity_range|]. split.
  { intros n -> Hn. subst r. cbn [maxPlayers]. unfold capacity.
    destruct (Z.eqb_spec n 0); lia. }
  rewrite (set_room_fresh rooms roomId r Hfresh). unfold handleMultiLeave.
  rewrite (leave_scan_skip rooms [(roomId, r)] sid Hnone). cbn [leave_scan players r get_player].
  rewrite String.eqb_refl. unfold leave_room, leave_elimination.
  cbn [status_of r status_eqb andb players set_players delete_player List.filter fst negb].
  rewrite String.eqb_refl. cbn [negb length Nat.eqb obind app]. rewrite app_nil_r.
  reflexivity.
Qed.

Lemma create_then_leave_multi_witness :
  exists r out,
    get_room (fst (create_multi_room [("M1A2B3", lobby_of_three)] "sockZ" 9 "Z" (Some 50)
                                     "M77777")) "M77777" = Some r
    /\ hostSocketId r = "sockZ" /\ players r = [("sockZ", new_player 9 "Z")]
    /\ status_of r = waiting
    /\ 3 <= maxPlayers r <= 21
    /\ (forall n, Some 50 = Some n -> 3 <= n <= 21 -> maxPlayers r = n)
    /\ handleMultiLeave (fst (create_multi_room [("M1A2B3", lobby_of_three)] "sockZ" 9 "Z"
                                                (Some 50) "M77777")) "sockZ"
       = Ok ([("M1A2B3", lobby_of_three)], out).
Proof.
  apply create_then_leave_multi.
  - apply (bool_decide_unpack _). vm_compute. exact I.
  - repeat constructor.
Defined.



End BattleLobbyFacts.
